(** * NS Publish: a shallow embedding of the publishing core

    The development follows the TypeScript sources of the plugin:
    - [Source/NoteCopier.ts]       (validation, graph walk, copies, target
                                    paths, statistics, URL),
    - [Source/WikilinkParser.ts]   (link extraction, exclusion filter, scan of
                                    the linked files),
    - [Source/ExcalidrawUtil.ts]   (drawing-to-image rewrite pass, unpacking
                                    and embedded files of a drawing),
    - [Source/SettingsTab.ts]      (the handlers of the settings fields),
    - [main.ts]                    (the publish commands).

    JavaScript strings are sequences of UTF-16 code units; they are modelled
    as lists of [N].  The host application (vault, metadata cache, renderer,
    notifications) is an interface, [Host], whose operations are state
    transformers over an abstract world; exceptions are carried by their
    message.  Depths and counters are integers. *)

From Stdlib Require Import ZArith NArith List Bool Ascii String Lia.
From stdpp Require Import base tactics option list gmap sets pretty.

Set Default Proof Using "Type".
Local Open Scope N_scope.

(** ** JavaScript strings *)

Abbreviation jsstring := (list N).

Module JS.

(** An ASCII literal as a sequence of code units. *)
Definition js (s : string) : jsstring :=
  List.map N_of_ascii (list_ascii_of_string s).

(** [String.prototype.startsWith]. *)
Fixpoint startsWith (s p : jsstring) : bool :=
  match p, s with
  | [], _ => true
  | _ :: _, [] => false
  | c :: p', d :: s' => (c =? d) && startsWith s' p'
  end.

(** [String.prototype.includes]. *)
Fixpoint includes (s p : jsstring) : bool :=
  startsWith s p ||
  match s with
  | [] => false
  | _ :: s' => includes s' p
  end.

(** [String.prototype.endsWith]. *)
Definition endsWith (s p : jsstring) : bool :=
  startsWith (rev s) (rev p).

(** [String.prototype.indexOf]: position of the first occurrence. *)
Fixpoint indexOf (s p : jsstring) : option nat :=
  if startsWith s p then Some O
  else match s with
       | [] => None
       | _ :: s' => option_map S (indexOf s' p)
       end.

(** [String.prototype.lastIndexOf] for a one-unit needle. *)
Fixpoint lastIndexOf (s : jsstring) (c : N) : option nat :=
  match s with
  | [] => None
  | d :: s' =>
      match lastIndexOf s' c with
      | Some i => Some (S i)
      | None => if d =? c then Some O else None
      end
  end.

(** [s.substring(0, s.lastIndexOf(c))]; [lastIndexOf] answers -1 when the
    unit is absent and [substring] clamps that to 0. *)
Definition substring_to_last (s : jsstring) (c : N) : jsstring :=
  match lastIndexOf s c with
  | Some i => firstn i s
  | None => []
  end.

(** [String.prototype.split] with a one-unit separator. *)
Fixpoint split (sep : N) (s : jsstring) : list jsstring :=
  match s with
  | [] => [[]]
  | c :: s' =>
      if c =? sep then [] :: split sep s'
      else match split sep s' with
           | seg :: segs => (c :: seg) :: segs
           | [] => [[c]]
           end
  end.

(** [Array.prototype.join] with a one-unit separator. *)
Fixpoint join (sep : N) (segs : list jsstring) : jsstring :=
  match segs with
  | [] => []
  | [seg] => seg
  | seg :: segs' => seg ++ sep :: join sep segs'
  end.

(** ECMAScript WhiteSpace and LineTerminator code units: the class [\s] of
    regular expressions and the units removed by [trim]. *)
Definition isLineTerminator (c : N) : bool :=
  (c =? 10) || (c =? 13) || (c =? 8232) || (c =? 8233).

Definition isWhiteSpace (c : N) : bool :=
  (c =? 9) || (c =? 11) || (c =? 12) || (c =? 32) || (c =? 160) ||
  (c =? 5760) || ((8192 <=? c) && (c <=? 8202)) || (c =? 8239) ||
  (c =? 8287) || (c =? 12288) || (c =? 65279) || isLineTerminator c.

Fixpoint trimStart (s : jsstring) : jsstring :=
  match s with
  | c :: s' => if isWhiteSpace c then trimStart s' else s
  | [] => []
  end.

(** [String.prototype.trim]. *)
Definition trim (s : jsstring) : jsstring :=
  rev (trimStart (rev (trimStart s))).

(** [String(n)] for a non-negative integer. *)
Definition ofNat (n : nat) : jsstring := js (pretty (N.of_nat n)).

(** Template literals concatenate. *)
Definition concat (parts : list jsstring) : jsstring := List.concat parts.

End JS.

Import JS.

(** ** Regular expressions

    The regular-expression literals of the sources are written as terms of
    [regex] and run by a backtracking matcher that follows the ECMAScript
    matching order: alternatives left to right, greedy quantifiers longest
    first, lazy quantifiers shortest first, and an iteration of a quantifier
    that consumes nothing is rejected. *)

Module Rx.

Inductive cclass :=
| CUnit (c : N)            (* a single code unit *)
| CRange (lo hi : N)       (* lo-hi *)
| CSpace                   (* \s *)
| CNotSpace.               (* \S *)

Inductive regex :=
| Eps
| Chr (c : N)
| Set_ (negated : bool) (cs : list cclass)     (* [...] and [^...] *)
| Dot                                          (* . without the s flag *)
| Seq (r1 r2 : regex)
| Alt (r1 r2 : regex)
| Star (greedy : bool) (r : regex)             (* r* and r*? *)
| Group (i : nat) (r : regex)                  (* capturing group number i *)
| Bol                                          (* ^ without the m flag *)
| Eol                                          (* $ without the m flag *)
| Ahead (r : regex).                           (* (?=r) *)

Definition Plus (r : regex) : regex := Seq r (Star true r).
Definition Opt (r : regex) : regex := Alt r Eps.
Definition Space : regex := Set_ false [CSpace].

(** A literal: the units of [s] in sequence. *)
Fixpoint Lit (s : jsstring) : regex :=
  match s with
  | [] => Eps
  | [c] => Chr c
  | c :: s' => Seq (Chr c) (Lit s')
  end.

Definition in_class (x : N) (c : cclass) : bool :=
  match c with
  | CUnit u => x =? u
  | CRange lo hi => (lo <=? x) && (x <=? hi)
  | CSpace => isWhiteSpace x
  | CNotSpace => negb (isWhiteSpace x)
  end.

(** Canonicalize of the [i] flag. The patterns of the sources only contain
    ASCII letters, for which a unit matches exactly when it is the same
    ASCII letter in either case. *)
Definition canon (ignoreCase : bool) (c : N) : N :=
  if ignoreCase && (97 <=? c) && (c <=? 122) then c - 32 else c.

Record mstate := MState {
  m_pos : nat;                                (* index of the next unit *)
  m_rest : jsstring;                          (* input from that index *)
  m_caps : list (nat * (nat * nat))           (* group -> [start, end) *)
}.

Definition step (st : mstate) (rest' : jsstring) : mstate :=
  MState (S (m_pos st)) rest' (m_caps st).

Definition orElse {A} (a b : option A) : option A :=
  match a with Some _ => a | None => b end.

(** The iterations of a quantifier [r*] or [r*?]: [once] matches [r] one
    time; an iteration that consumes nothing is rejected; [n] bounds the
    number of iterations. *)
Fixpoint star_loop (greedy : bool)
    (once : mstate -> (mstate -> option mstate) -> option mstate)
    (k : mstate -> option mstate) (n : nat) (st0 : mstate) : option mstate :=
  match n with
  | O => k st0
  | S n' =>
      let again :=
        once st0 (fun st' =>
          if Nat.eqb (m_pos st') (m_pos st0) then None
          else star_loop greedy once k n' st') in
      if greedy then orElse again (k st0) else orElse (k st0) again
  end.

Fixpoint run (ic : bool) (r : regex) (st : mstate)
    (k : mstate -> option mstate) {struct r} : option mstate :=
  match r with
  | Eps => k st
  | Chr c =>
      match m_rest st with
      | x :: t => if canon ic x =? canon ic c then k (step st t) else None
      | [] => None
      end
  | Set_ neg cs =>
      match m_rest st with
      | x :: t => if xorb neg (existsb (in_class x) cs) then k (step st t) else None
      | [] => None
      end
  | Dot =>
      match m_rest st with
      | x :: t => if isLineTerminator x then None else k (step st t)
      | [] => None
      end
  | Seq r1 r2 => run ic r1 st (fun st' => run ic r2 st' k)
  | Alt r1 r2 => orElse (run ic r1 st k) (run ic r2 st k)
  | Star greedy r1 => star_loop greedy (run ic r1) k (S (length (m_rest st))) st
  | Group i r1 =>
      run ic r1 st (fun st' =>
        k (MState (m_pos st') (m_rest st') ((i, (m_pos st, m_pos st')) :: m_caps st')))
  | Bol => if Nat.eqb (m_pos st) 0 then k st else None
  | Eol => match m_rest st with [] => k st | _ :: _ => None end
  | Ahead r1 =>
      match run ic r1 st Some with
      | Some st' => k (MState (m_pos st) (m_rest st) (m_caps st'))
      | None => None
      end
  end.

(** A successful match: its span and its captures. *)
Record rmatch := RMatch {
  r_start : nat;
  r_end : nat;
  r_caps : list (nat * (nat * nat))
}.

Definition slice (s : jsstring) (a b : nat) : jsstring :=
  firstn (b - a) (skipn a s).

(** The matched text, [match[0]]. *)
Definition matched (s : jsstring) (m : rmatch) : jsstring :=
  slice s (r_start m) (r_end m).

(** Capture [match[i]]; [None] is JavaScript's [undefined]. *)
Definition capture (s : jsstring) (m : rmatch) (i : nat) : option jsstring :=
  match List.find (fun e => Nat.eqb (fst e) i) (r_caps m) with
  | Some (_, (a, b)) => Some (slice s a b)
  | None => None
  end.

Definition match_at (ic : bool) (r : regex) (s : jsstring) (i : nat) : option rmatch :=
  match run ic r (MState i (skipn i s) []) Some with
  | Some st => Some (RMatch i (m_pos st) (m_caps st))
  | None => None
  end.

(** Leftmost match at an index in [from, from + n]. *)
Fixpoint search_from (ic : bool) (r : regex) (s : jsstring) (from n : nat) : option rmatch :=
  match match_at ic r s from with
  | Some m => Some m
  | None => match n with
            | O => None
            | S n' => search_from ic r s (S from) n'
            end
  end.

(** [RegExp.prototype.exec] from [lastIndex]. *)
Definition exec (ic : bool) (r : regex) (s : jsstring) (lastIndex : nat) : option rmatch :=
  if Nat.ltb (length s) lastIndex then None
  else search_from ic r s lastIndex (length s - lastIndex).

(** [RegExp.prototype.test] and [String.prototype.match] without the g flag. *)
Definition test (ic : bool) (r : regex) (s : jsstring) : bool :=
  match exec ic r s 0 with Some _ => true | None => false end.

(** All matches of a regular expression with the g flag, left to right, as
    [matchAll], a [while (exec)] loop or a global [replace] meets them; after
    an empty match the index advances by one. *)
Fixpoint matches_from (ic : bool) (r : regex) (s : jsstring) (from fuel : nat) : list rmatch :=
  match fuel with
  | O => []
  | S fuel' =>
      match exec ic r s from with
      | None => []
      | Some m =>
          let next := if Nat.eqb (r_end m) (r_start m) then S (r_end m) else r_end m in
          m :: matches_from ic r s next fuel'
      end
  end.

Definition matchAll (ic : bool) (r : regex) (s : jsstring) : list rmatch :=
  matches_from ic r s 0 (S (length s)).

(** The text between and after the matches, with [rep] in place of each. *)
Fixpoint splice (s : jsstring) (cur : nat) (ms : list rmatch) (rep : jsstring) : jsstring :=
  match ms with
  | [] => skipn cur s
  | m :: ms' => slice s cur (r_start m) ++ rep ++ splice s (r_end m) ms' rep
  end.

(** [s.replace(/r/g, rep)] for a replacement text without [$]. *)
Definition replaceAll (ic : bool) (r : regex) (rep s : jsstring) : jsstring :=
  splice s 0 (matchAll ic r s) rep.

(** [s.replace(/r/, rep)] for a replacement text without [$]. *)
Definition replaceFirst (ic : bool) (r : regex) (rep s : jsstring) : jsstring :=
  match exec ic r s 0 with
  | Some m => splice s 0 [m] rep
  | None => s
  end.

End Rx.

Import Rx.

(** ** Effects: state and exceptions

    An asynchronous method is a state transformer that either returns,
    throws an error (carried by its [message]) or, for a loop of the model
    that is bounded by fuel, runs out of fuel.  Mutations made before a
    [throw] stay in the state, as they do on the JavaScript heap. *)

Inductive outcome (A : Type) :=
| Ok (a : A)
| Throw (message : jsstring)
| Starved.
Arguments Ok {A} a.
Arguments Throw {A} message.
Arguments Starved {A}.

Definition M (S A : Type) : Type := S -> outcome A * S.

Module Monad.

Definition ret {S A} (a : A) : M S A := fun s => (Ok a, s).

Definition bind {S A B} (m : M S A) (k : A -> M S B) : M S B :=
  fun s => match m s with
           | (Ok a, s') => k a s'
           | (Throw e, s') => (Throw e, s')
           | (Starved, s') => (Starved, s')
           end.

Definition throw {S A} (message : jsstring) : M S A := fun s => (Throw message, s).

Definition starve {S A} : M S A := fun s => (Starved, s).

Definition gets {S A} (f : S -> A) : M S A := fun s => (Ok (f s), s).

Definition modify {S} (f : S -> S) : M S unit := fun s => (Ok tt, f s).

(** [try { m } catch (error) { h error.message }] *)
Definition try_catch {S A} (m : M S A) (h : jsstring -> M S A) : M S A :=
  fun s => match m s with
           | (Throw e, s') => h e s'
           | r => r
           end.

(** [try { m } finally { f }] *)
Definition finally {S A} (m : M S A) (f : M S unit) : M S A :=
  fun s => match m s with
           | (Starved, s') => (Starved, s')
           | (o, s') => match f s' with
                        | (Ok _, s'') => (o, s'')
                        | (Throw e, s'') => (Throw e, s'')
                        | (Starved, s'') => (Starved, s'')
                        end
           end.

(** Run a computation on a component of the state. *)
Definition zoom {S T A} (proj : T -> S) (inj : S -> T -> T) (m : M S A) : M T A :=
  fun t => match m (proj t) with (o, s') => (o, inj s' t) end.

(** [for (const x of xs) { body x }] *)
Fixpoint for_each {S A} (xs : list A) (body : A -> M S unit) : M S unit :=
  match xs with
  | [] => ret tt
  | x :: xs' => bind (body x) (fun _ => for_each xs' body)
  end.

(** A [for ... of] loop that updates a local variable. *)
Fixpoint for_fold {S A B} (xs : list A) (acc : B) (body : B -> A -> M S B) : M S B :=
  match xs with
  | [] => ret acc
  | x :: xs' => bind (body acc x) (fun acc' => for_fold xs' acc' body)
  end.

End Monad.

Import Monad.

(** An operation of the host returns or throws; it always comes back. *)
Inductive result (A : Type) :=
| Return (a : A)
| Raise (message : jsstring).
Arguments Return {A} a.
Arguments Raise {A} message.

Definition IO (W A : Type) : Type := W -> result A * W.

Definition lift {W A} (m : IO W A) : M W A :=
  fun w => match m w with
           | (Return a, w') => (Ok a, w')
           | (Raise e, w') => (Throw e, w')
           end.

Declare Scope js_scope.
Delimit Scope js_scope with js.
Notation "x <- m ;; k" := (bind m (fun x => k))
  (at level 100, m at next level, k at level 200, right associativity) : js_scope.
Notation "m ;; k" := (bind m (fun _ => k))
  (at level 100, k at level 200, right associativity) : js_scope.
Local Open Scope js_scope.

(** ** Data model ([Source/types.ts] and the host's file handles) *)

(** The fields of the host's [TFile] that the sources read; [parent] is
    [file.parent.path], absent when [file.parent] is null. *)
Record TFile := mkTFile {
  path : jsstring;
  name : jsstring;
  basename : jsstring;
  extension : jsstring;
  parent : option jsstring
}.

(** What [getAbstractFileByPath] answers: a file or a folder. *)
Inductive TAbstractFile :=
| AFile (f : TFile)
| AFolder (folderPath : jsstring).

#[global] Instance TFile_eq_dec : EqDecision TFile.
Proof. solve_decision. Defined.

Module NSPublishSettings.
Record t := mk {
  targetFolderPath : jsstring;
  includeLinkedNotes : bool;
  maxDepth : Z;
  excludePatterns : list jsstring;
  preserveFolderStructure : bool;
  addPublishPrefix : bool;
  publishPrefix : jsstring;
  baseUrl : jsstring
}.
End NSPublishSettings.

Definition DEFAULT_SETTINGS : NSPublishSettings.t :=
  {| NSPublishSettings.targetFolderPath := js "700_Publish";
     NSPublishSettings.includeLinkedNotes := true;
     NSPublishSettings.maxDepth := 5;
     NSPublishSettings.excludePatterns := [];
     NSPublishSettings.preserveFolderStructure := true;
     NSPublishSettings.addPublishPrefix := false;
     NSPublishSettings.publishPrefix := js "published_";
     NSPublishSettings.baseUrl := js "http://172.28.35.242:8080" |}.

Record PublishResult := mkResult {
  publishedFiles : gset jsstring;
  skippedFiles : gset jsstring;
  errors : list jsstring
}.

(** [PublishOptions]; an optional field that is absent is [None]. *)
Module PublishOptions.
Record t := mk {
  includeLinked : bool;
  maxDepth : option Z;
  excludePatterns : option (list jsstring)
}.
End PublishOptions.

(** [EmbeddedFileData] of [ExcalidrawUtil.ts]. *)
Record EmbeddedFileData := mkEmbedded {
  ef_id : jsstring;
  ef_dataURL : jsstring;
  ef_mimeType : jsstring;
  ef_created : N;
  ef_lastRetrieved : N
}.

(** ** The host interface

    The operations of the host application and of the libraries that the
    sources call.  Lookups in the host's in-memory indexes
    ([getAbstractFileByPath], [getFirstLinkpathDest]) read the world; the
    asynchronous operations transform it and may throw.  Console logging
    has no effect on any result and is left out. *)

Class Host (World : Type) := {
  (* new RegExp(pattern): the test function of the compiled expression,
     or nothing when the constructor throws a SyntaxError *)
  new_RegExp : jsstring -> option (jsstring -> bool);
  (* app.vault *)
  vault_read : TFile -> IO World jsstring;
  vault_cachedRead : TFile -> IO World jsstring;
  vault_readBinary : TFile -> IO World (list N);
  vault_modify : TFile -> jsstring -> IO World unit;
  vault_create : jsstring -> jsstring -> IO World TFile;
  vault_createFolder : jsstring -> IO World unit;
  vault_createBinary : jsstring -> list N -> IO World unit;
  vault_getAbstractFileByPath : World -> jsstring -> option TAbstractFile;
  (* the paths of app.vault.getAllLoadedFiles(): a vault is finite *)
  vault_paths : World -> list jsstring;
  vault_paths_complete : forall w p,
    is_Some (vault_getAbstractFileByPath w p) -> In p (vault_paths w);
  (* app.metadataCache *)
  getFirstLinkpathDest : World -> jsstring -> jsstring -> option TFile;
  (* LZString.decompressFromBase64: nothing when it throws or answers null *)
  decompressFromBase64 : jsstring -> option jsstring;
  (* JSON.parse(text).elements || []: nothing when that throws *)
  Elements : Type;
  parse_elements : jsstring -> option Elements;
  (* exportToBlob of the drawing library (nothing when the blob is null)
     and blob.arrayBuffer() *)
  Blob : Type;
  exportToBlob : Elements -> gmap jsstring EmbeddedFileData -> IO World (option Blob);
  blob_arrayBuffer : Blob -> IO World (list N);
  (* fileTypeChecker.detectFile(buffer)?.mimeType *)
  detectFile : list N -> option jsstring;
  (* window.btoa *)
  btoa : jsstring -> jsstring;
  (* Date.now() *)
  date_now : IO World N;
  (* new Notice(message), notice.hide(), navigator.clipboard.writeText *)
  notice : jsstring -> IO World unit;
  notice_hide : IO World unit;
  clipboard_writeText : jsstring -> IO World unit
}.

(** ** [Source/ExcalidrawUtil.ts] *)

(** The code unit of a one-character literal. *)
Definition cu (s : string) : N := hd 0 (js s).

(** A sequence of regular expressions. *)
Fixpoint Cat (rs : list regex) : regex :=
  match rs with
  | [] => Eps
  | [r] => r
  | r :: rs' => Seq r (Cat rs')
  end.

(** [[\s\S]] *)
Definition AnyUnit : regex := Set_ false [CSpace; CNotSpace].

Definition NL : regex := Chr 10.

(** [/(\n##? Drawing\n[^`]*(?:```compressed-json\n))([\s\S]*?)(```\n)/gm] *)
Definition DRAWING_COMPRESSED_REG : regex :=
  Cat [ Group 1 (Cat [NL; Chr (cu "#"); Opt (Chr (cu "#")); Lit (js " Drawing"); NL;
                      Star true (Set_ true [CUnit (cu "`")]);
                      Lit (js "```compressed-json"); NL]);
        Group 2 (Star false AnyUnit);
        Group 3 (Cat [Lit (js "```"); NL]) ].

(** The fallback expression: newline, one or two [#], [ Drawing], newline,
    an optional compressed-json fence line, then group 2, the rest of the
    line (every unit but line terminators), then optional closing marks. *)
Definition DRAWING_COMPRESSED_REG_FALLBACK : regex :=
  Cat [ Group 1 (Cat [NL; Chr (cu "#"); Opt (Chr (cu "#")); Lit (js " Drawing"); NL;
                      Opt (Cat [Lit (js "```compressed-json"); NL])]);
        Group 2 (Star true Dot);
        Group 3 (Cat [Opt (Group 4 (Lit (js "```"))); Opt (Group 5 (Lit (js "%%")))]) ].

(** [/^---\s*([\s\S]*?)\s*---/] *)
Definition frontmatterRegex : regex :=
  Cat [ Bol; Lit (js "---"); Star true Space; Group 1 (Star false AnyUnit);
        Star true Space; Lit (js "---") ].

(** [/excalidraw-plugin:\s*parsed/i], [/excalidraw/i], [/##?\s*Drawing/i] *)
Definition excalidrawPluginRegex : regex :=
  Cat [ Lit (js "excalidraw-plugin:"); Star true Space; Lit (js "parsed") ].
Definition excalidrawTagRegex : regex := Lit (js "excalidraw").
Definition drawingSectionRegex : regex :=
  Cat [ Chr (cu "#"); Opt (Chr (cu "#")); Star true Space; Lit (js "Drawing") ].

(** The classification shared by both [isExcalidrawFile] methods, once the
    content is read; [noFrontmatter] is what each answers when the
    front-matter block is missing. *)
Definition classifyDrawing (fileContent : jsstring) (file : TFile) (noFrontmatter : bool) : bool :=
  match exec false frontmatterRegex fileContent 0 with
  | None => noFrontmatter
  | Some frontmatterMatch =>
      let frontmatter := default [] (capture fileContent frontmatterMatch 1) in
      let hasExcalidrawPlugin := test true excalidrawPluginRegex frontmatter in
      let hasExcalidrawInTags := test true excalidrawTagRegex frontmatter in
      let hasDrawingSection := test true drawingSectionRegex fileContent in
      hasExcalidrawPlugin || (hasExcalidrawInTags && hasDrawingSection)
      || bool_decide (extension file = js "excalidraw")
  end.

Module ExcalidrawUtil.

(** The mutable fields of an [ExcalidrawUtil] object. *)
Record fields := mkFields {
  createdImages : list jsstring;
  targetFolderPath : jsstring
}.

(** [/(!?\[\[([^|\]]+)(?:\|([^\]]+))?\]\])/g] *)
Definition wikilinkRegex : regex :=
  Group 1 (Cat [ Opt (Chr (cu "!")); Lit (js "[[");
                 Group 2 (Plus (Set_ true [CUnit (cu "|"); CUnit (cu "]")]));
                 Opt (Cat [Chr (cu "|"); Group 3 (Plus (Set_ true [CUnit (cu "]")]))]);
                 Lit (js "]]") ]).

(** [/## Embedded Files\s+([\s\S]*?)(?=\s*##|$)/] *)
Definition embeddedFilesRegex : regex :=
  Cat [ Lit (js "## Embedded Files"); Plus Space; Group 1 (Star false AnyUnit);
        Ahead (Alt (Seq (Star true Space) (Lit (js "##"))) Eol) ].

(** [/([a-f0-9]+):\s*\[\[(.*?)\]\]/] *)
Definition fileEntryRegex : regex :=
  Cat [ Group 1 (Plus (Set_ false [CRange (cu "a") (cu "f"); CRange (cu "0") (cu "9")]));
        Chr (cu ":"); Star true Space; Lit (js "[[");
        Group 2 (Star false Dot); Lit (js "]]") ].

(** The replacement text of [String.prototype.replace] applied to a string
    pattern (GetSubstitution without captures): [$$] is a dollar sign,
    [$&] the matched text, [$`] and [$'] the text before and after it. *)
Fixpoint getSubstitution (matched before after : jsstring) (replacement : jsstring) : jsstring :=
  match replacement with
  | [] => []
  | c :: rest =>
      if c =? cu "$" then
        match rest with
        | d :: rest' =>
            if d =? cu "$" then cu "$" :: getSubstitution matched before after rest'
            else if d =? cu "&" then matched ++ getSubstitution matched before after rest'
            else if d =? cu "`" then before ++ getSubstitution matched before after rest'
            else if d =? cu "'" then after ++ getSubstitution matched before after rest'
            else c :: getSubstitution matched before after rest
        | [] => [c]
        end
      else c :: getSubstitution matched before after rest
  end.

(** [s.replace(pattern, replacement)] with a string pattern: only the first
    occurrence is replaced. *)
Definition replaceString (s pattern replacement : jsstring) : jsstring :=
  match indexOf s pattern with
  | None => s
  | Some i =>
      let before := firstn i s in
      let after := skipn (i + length pattern) s in
      before ++ getSubstitution pattern before after replacement ++ after
  end.

Section Methods.
Context {World : Type} `{Host World}.

Definition St : Type := World * fields.

(** A computation on [this.app], and an operation of the host. *)
Definition on_app {A} (m : M World A) : M St A :=
  zoom fst (fun w st => (w, snd st)) m.

Definition io {A} (m : IO World A) : M St A := on_app (lift m).

Definition setTargetFolderPath (p : jsstring) : M St unit :=
  modify (fun st => (fst st, mkFields (createdImages (snd st)) p)).

Definition createFolderRecursively (folderPath : jsstring) : M St unit :=
  let parts := split (cu "/") folderPath in
  _ <- for_fold parts [] (fun currentPath part =>
         let currentPath :=
           match currentPath with
           | [] => part
           | _ :: _ => JS.concat [currentPath; js "/"; part]
           end in
         existingFolder <- gets (fun st => vault_getAbstractFileByPath (fst st) currentPath) ;;
         match existingFolder with
         | None => io (vault_createFolder currentPath) ;; ret currentPath
         | Some _ => ret currentPath
         end) ;;
  ret tt.

Definition ensureImageFolderExists (imageFolderPath : jsstring) : M St unit :=
  existingFolder <- gets (fun st => vault_getAbstractFileByPath (fst st) imageFolderPath) ;;
  match existingFolder with
  | None => createFolderRecursively imageFolderPath
  | Some _ => ret tt
  end.

Definition isExcalidrawFile (fileName : jsstring) (currentFile : TFile) : M St bool :=
  file <- gets (fun st => getFirstLinkpathDest (fst st) fileName (path currentFile)) ;;
  match file with
  | None => ret false
  | Some file =>
      try_catch
        (fileContent <- io (vault_cachedRead file) ;;
         ret (classifyDrawing fileContent file
                (bool_decide (extension file = js "excalidraw")
                 || endsWith fileName (js ".excalidraw"))))
        (fun _ => ret false)
  end.

Definition decompressExcalidrawContent (content : jsstring) : option jsstring :=
  let parts :=
    match exec false DRAWING_COMPRESSED_REG content 0 with
    | Some m => Some m
    | None => exec false DRAWING_COMPRESSED_REG_FALLBACK content 0
    end in
  match parts with
  | Some m =>
      let compressedContent := default [] (capture content m 2) in
      let cleanedData :=
        replaceAll false (Set_ false [CUnit 10; CUnit 13]) [] compressedContent in
      decompressFromBase64 cleanedData
  | None => Some content
  end.

(** [arrayBufferToBase64String]: every byte becomes one code unit. *)
Definition arrayBufferToBase64String (buffer : list N) : jsstring := btoa buffer.

Definition getExcalidrawEmbeddedFiles (content : jsstring)
    : M St (gmap jsstring EmbeddedFileData) :=
  match exec false embeddedFilesRegex content 0 with
  | None => ret ∅
  | Some embeddedFilesMatch =>
      match capture content embeddedFilesMatch 1 with
      | None | Some [] => ret ∅
      | Some section =>
          let fileEntries := split 10 (trim section) in
          for_fold fileEntries ∅ (fun embeddedFiles entry =>
            match exec false fileEntryRegex entry 0 with
            | None => ret embeddedFiles
            | Some fileMatch =>
                let fileId := default [] (capture entry fileMatch 1) in
                let filePath := trim (default [] (capture entry fileMatch 2)) in
                try_catch
                  (imageFile <- gets (fun st => getFirstLinkpathDest (fst st) filePath filePath) ;;
                   match imageFile with
                   | None => ret embeddedFiles
                   | Some imageFile =>
                       fileContent <- io (vault_readBinary imageFile) ;;
                       let mimeType :=
                         match detectFile fileContent with
                         | Some (c :: m) => c :: m
                         | _ => js "image/png"
                         end in
                       let base64Content := arrayBufferToBase64String fileContent in
                       let dataURL := JS.concat [js "data:"; mimeType; js ";base64,"; base64Content] in
                       created <- io date_now ;;
                       lastRetrieved <- io date_now ;;
                       ret (<[fileId := mkEmbedded fileId dataURL mimeType created lastRetrieved]>
                              embeddedFiles)
                   end)
                  (fun _ => ret embeddedFiles)
            end)
      end
  end.

(** The [while (getAbstractFileByPath(filePath))] loop: the first of
    [base.png], [base_1.png], [base_2.png], ... that is not in the vault.
    [fuel] bounds the number of names tried after the current one. *)
Fixpoint freeImageName (fuel : nat) (w : World) (baseName imageFolderPath : jsstring)
    (imageFileName filePath : jsstring) (counter : nat) : option (jsstring * jsstring) :=
  match vault_getAbstractFileByPath w filePath with
  | None => Some (imageFileName, filePath)
  | Some _ =>
      match fuel with
      | O => None
      | S fuel' =>
          let imageFileName := JS.concat [baseName; js "_"; ofNat counter; js ".png"] in
          let filePath := JS.concat [imageFolderPath; js "/"; imageFileName] in
          freeImageName fuel' w baseName imageFolderPath imageFileName filePath (S counter)
      end
  end.

Definition exportExcalidrawToImage (fileName : jsstring) (currentFile : TFile)
    : M St (option jsstring) :=
  file <- gets (fun st => getFirstLinkpathDest (fst st) fileName (path currentFile)) ;;
  match file with
  | None => ret None
  | Some file =>
      try_catch
        (excalidrawContent <- io (vault_cachedRead file) ;;
         match decompressExcalidrawContent excalidrawContent with
         | None | Some [] => ret None
         | Some decompressedContent =>
             match parse_elements decompressedContent with
             | None => throw (js "SyntaxError")
             | Some elements =>
                 embeddedFiles <- getExcalidrawEmbeddedFiles excalidrawContent ;;
                 blob <- io (exportToBlob elements embeddedFiles) ;;
                 match blob with
                 | None => ret None
                 | Some blob =>
                     let baseName := basename file in
                     let imageFileName := JS.concat [baseName; js ".png"] in
                     targetFolderPath <- gets (fun st => targetFolderPath (snd st)) ;;
                     let imageFolderPath :=
                       match targetFolderPath with
                       | [] => js "_Image"
                       | _ :: _ => JS.concat [targetFolderPath; js "/_Image"]
                       end in
                     let filePath := JS.concat [imageFolderPath; js "/"; imageFileName] in
                     ensureImageFolderExists imageFolderPath ;;
                     w <- gets fst ;;
                     match freeImageName (length (vault_paths w)) w baseName imageFolderPath
                             imageFileName filePath 1 with
                     | None => starve
                     | Some (imageFileName, filePath) =>
                         arrayBuffer <- io (blob_arrayBuffer blob) ;;
                         io (vault_createBinary filePath arrayBuffer) ;;
                         modify (fun st =>
                           (fst st, mkFields (createdImages (snd st) ++ [filePath])
                                             (ExcalidrawUtil.targetFolderPath (snd st)))) ;;
                         ret (Some imageFileName)
                     end
                 end
             end
         end)
        (fun _ => ret None)
  end.

Definition processNoteContent (content : jsstring) (currentFile : TFile) : M St jsstring :=
  let matches := matchAll false wikilinkRegex content in
  for_fold matches content (fun processedContent m =>
    let fullMatch := default [] (capture content m 1) in
    let fileName := default [] (capture content m 2) in
    let displayText := capture content m 3 in
    try_catch
      (isDrawing <- isExcalidrawFile fileName currentFile ;;
       if isDrawing then
         imageFileName <- exportExcalidrawToImage fileName currentFile ;;
         match imageFileName with
         | Some (c :: n) =>
             let imageFileName := c :: n in
             let imageLink :=
               match displayText with
               | Some (d :: t) =>
                   JS.concat [js "![["; imageFileName; js "|"; d :: t; js "]]"]
               | _ => JS.concat [js "![["; imageFileName; js "]]"]
               end in
             ret (replaceString processedContent fullMatch imageLink)
         | _ => ret processedContent
         end
       else ret processedContent)
      (fun _ => ret processedContent)).

(** [getCreatedImages]: a copy of the list of the images written so far. *)
Definition getCreatedImages : M St (list jsstring) :=
  gets (fun st => createdImages (snd st)).

End Methods.
End ExcalidrawUtil.

(** ** [Source/WikilinkParser.ts] *)

Module WikilinkParser.

(** [/\[\[([^\]|]+)(?:\|[^\]]+)?\]\]/g] *)
Definition wikilinkRegex : regex :=
  Cat [ Lit (js "[["); Group 1 (Plus (Set_ true [CUnit (cu "]"); CUnit (cu "|")]));
        Opt (Cat [Chr (cu "|"); Plus (Set_ true [CUnit (cu "]")])]);
        Lit (js "]]") ].

(** The trimmed link texts of a note, in document order: [match[1].trim()]
    for every match of the [while (exec)] loop. *)
Definition linkTexts (content : jsstring) : list jsstring :=
  List.map (fun m => trim (default [] (capture content m 1)))
           (matchAll false wikilinkRegex content).

Section Methods.
Context {World : Type} `{Host World}.
Variable settings : NSPublishSettings.t.

(** Whether one pattern excludes a link text: the regular expression when
    the pattern compiles, substring containment when it does not. *)
Definition patternMatches (linkText pattern : jsstring) : bool :=
  match new_RegExp pattern with
  | Some regex_test => regex_test linkText
  | None => includes linkText pattern
  end.

Definition isExcluded (linkText : jsstring) : bool :=
  existsb (patternMatches linkText) (NSPublishSettings.excludePatterns settings).

Definition isExcalidrawFile (file currentFile : TFile) : M World bool :=
  try_catch
    (fileContent <- lift (vault_cachedRead file) ;;
     ret (classifyDrawing fileContent file
            (bool_decide (extension file = js "excalidraw")
             || endsWith (name file) (js ".excalidraw"))))
    (fun _ => ret false).

(** The body of the loop of [getLinkedFiles] for one link text. *)
Definition followLink (file : TFile) (linkedFiles : list TFile) (linkText : jsstring)
    : M World (list TFile) :=
  if isExcluded linkText then ret linkedFiles
  else
    linkedFile <- gets (fun w => getFirstLinkpathDest w linkText (path file)) ;;
    match linkedFile with
    | Some linkedFile =>
        if bool_decide (extension linkedFile = js "md") then
          isExcalidraw <- isExcalidrawFile linkedFile file ;;
          if isExcalidraw then ret linkedFiles
          else ret (linkedFiles ++ [linkedFile])
        else ret linkedFiles
    | None => ret linkedFiles
    end.

Definition getLinkedFiles (file : TFile) : M World (list TFile) :=
  try_catch
    (content <- lift (vault_read file) ;;
     for_fold (linkTexts content) [] (followLink file))
    (fun _ => ret []).

(** The objects [getAllLinkedFilesRecursivelyHelper] works on: the host, the
    set [visited] of paths and the set [allLinkedFiles] of file handles, kept
    in the order of insertion (the order in which a JavaScript [Set] is
    iterated). *)
Record Scan := mkScan {
  app : World;
  visited : gset jsstring;
  allLinkedFiles : list TFile
}.

(** [Set.prototype.add] for file handles.  The host hands out one handle
    per file, so two handles are the same object exactly when they are
    equal. *)
Definition set_add (f : TFile) (files : list TFile) : list TFile :=
  if bool_decide (f ∈ files) then files else files ++ [f].

(** [fuel] bounds the depth of the recursion of the model;
    [getAllLinkedFilesRecursively] passes enough of it. *)
Fixpoint getAllLinkedFilesRecursivelyHelper (fuel : nat) (file : TFile)
    (maxDepth currentDepth : Z) : M Scan unit :=
  match fuel with
  | O => starve
  | S fuel' =>
      stop <- gets (fun s => (maxDepth <=? currentDepth)%Z
                             || bool_decide (path file ∈ visited s)) ;;
      if (stop : bool) then ret tt
      else
        modify (fun s => mkScan (app s) ({[path file]} ∪ visited s) (allLinkedFiles s)) ;;
        try_catch
          (linkedFiles <- zoom app (fun w s => mkScan w (visited s) (allLinkedFiles s))
                               (getLinkedFiles file) ;;
           for_each linkedFiles (fun linkedFile =>
             modify (fun s => mkScan (app s) (visited s)
                                     (set_add linkedFile (allLinkedFiles s))) ;;
             getAllLinkedFilesRecursivelyHelper fuel' linkedFile maxDepth (currentDepth + 1)))
          (fun _ => ret tt)
  end.

(** Fuel for a scan that starts at depth 0. *)
Definition scanFuel (maxDepth : Z) : nat := S (Z.to_nat maxDepth).

(** [getAllLinkedFilesRecursively(startFile, maxDepth, visited)]: an argument
    that is left out is [None] and takes its default value. *)
Definition getAllLinkedFilesRecursively (startFile : TFile) (maxDepth : option Z)
    (visited : option (gset jsstring)) : M World (list TFile) :=
  let maxDepth := default (NSPublishSettings.maxDepth settings) maxDepth in
  let visited := default ∅ visited in
  fun w =>
    match (getAllLinkedFilesRecursivelyHelper (scanFuel maxDepth) startFile maxDepth 0 ;;
           gets allLinkedFiles) (mkScan w visited []) with
    | (o, s) => (o, app s)
    end.

End Methods.
End WikilinkParser.

(** ** [encodeURIComponent] *)

Module URI.

(** The units that are not escaped: letters, digits and [-_.!~*'()]. *)
Definition unreserved (c : N) : bool :=
  ((65 <=? c) && (c <=? 90)) || ((97 <=? c) && (c <=? 122)) ||
  ((48 <=? c) && (c <=? 57)) ||
  existsb (N.eqb c) (js "-_.!~*'()").

Definition hexDigit (n : N) : N := if n <? 10 then 48 + n else 55 + n.

(** [%XX] for one octet. *)
Definition escape (octet : N) : jsstring :=
  [cu "%"; hexDigit (octet / 16); hexDigit (octet mod 16)].

(** The UTF-8 octets of a code point. *)
Definition utf8 (v : N) : list N :=
  if v <? 128 then [v]
  else if v <? 2048 then [192 + v / 64; 128 + v mod 64]
  else if v <? 65536 then [224 + v / 4096; 128 + (v / 64) mod 64; 128 + v mod 64]
  else [240 + v / 262144; 128 + (v / 4096) mod 64; 128 + (v / 64) mod 64; 128 + v mod 64].

Definition isLead (c : N) : bool := (55296 <=? c) && (c <=? 56319).
Definition isTrail (c : N) : bool := (56320 <=? c) && (c <=? 57343).

(** [encodeURIComponent]; [None] is the URIError thrown for a lone
    surrogate. *)
Fixpoint encodeURIComponent (s : jsstring) : option jsstring :=
  match s with
  | [] => Some []
  | c :: t =>
      if unreserved c then option_map (cons c) (encodeURIComponent t)
      else if isTrail c then None
      else if isLead c then
        match t with
        | d :: t' =>
            if isTrail d then
              let v := (c - 55296) * 1024 + (d - 56320) + 65536 in
              option_map (app (List.concat (List.map escape (utf8 v))))
                         (encodeURIComponent t')
            else None
        | [] => None
        end
      else option_map (app (List.concat (List.map escape (utf8 c))))
                      (encodeURIComponent t)
  end.

End URI.

(** ** [Source/NoteCopier.ts] *)

Module NoteCopier.

(** What the walk records, in order: a call of [copyFileToTarget] for a
    path at a depth, or the recording of a path into [skippedFiles].  The
    trace is ghost state: no code reads it. *)
Inductive event :=
| Materialize (filePath : jsstring) (depth : Z)
| Skip (filePath : jsstring) (depth : Z).

(** The objects a publish call works on: the host and the fields of
    [this.excalidrawUtil], the result object, and the two sets that
    [publishNoteWithLinks] creates and shares with every recursive call. *)
Record Run (World : Type) := mkRun {
  dev : World * ExcalidrawUtil.fields;
  result : PublishResult;
  visited : gset jsstring;
  processing : gset jsstring;
  trace : list event
}.
Arguments mkRun {World}.
Arguments dev {World}.
Arguments result {World}.
Arguments visited {World}.
Arguments processing {World}.
Arguments trace {World}.

Record Validation := mkValidation {
  isValid : bool;
  error : option jsstring
}.

(** [/\.md$/], [/\s*&\s*/g] and [/\s+/g] *)
Definition mdExtensionRegex : regex := Cat [Chr (cu "."); Lit (js "md"); Eol].
Definition ampersandRegex : regex := Cat [Star true Space; Chr (cu "&"); Star true Space].
Definition spacesRegex : regex := Plus Space.

(** The first [map] of [generatePublishedUrl]. *)
Definition urlFriendlySegment (segment : jsstring) : jsstring :=
  replaceAll false spacesRegex (js "-")
    (replaceAll false ampersandRegex (js "--and--") segment).

(** [segments.map(f).join('/')] for an [f] that may throw. *)
Fixpoint mapJoin (f : jsstring -> option jsstring) (segments : list jsstring)
    : option (list jsstring) :=
  match segments with
  | [] => Some []
  | seg :: rest =>
      match f seg with
      | Some seg' => option_map (cons seg') (mapJoin f rest)
      | None => None
      end
  end.

Section Methods.
Context {World : Type} `{Host World}.
Variable settings : NSPublishSettings.t.

Definition St : Type := World * ExcalidrawUtil.fields.

(** Lifting: an operation of the host, and a method that works on the host
    and the drawing utility. *)
Definition on_app {A} (m : M World A) : M St A := ExcalidrawUtil.on_app m.

Definition io {A} (m : IO World A) : M St A := ExcalidrawUtil.io m.

Definition on_dev {A} (m : M St A) : M (Run World) A :=
  zoom dev (fun d r => mkRun d (result r) (visited r) (processing r) (trace r)) m.

Definition set_result (f : PublishResult -> PublishResult) : M (Run World) unit :=
  modify (fun r => mkRun (dev r) (f (result r)) (visited r) (processing r) (trace r)).

Definition log (e : event) : M (Run World) unit :=
  modify (fun r => mkRun (dev r) (result r) (visited r) (processing r) (trace r ++ [e])).

Definition add_published (p : jsstring) (r : PublishResult) : PublishResult :=
  mkResult ({[p]} ∪ publishedFiles r) (skippedFiles r) (errors r).

Definition add_skipped (p : jsstring) (r : PublishResult) : PublishResult :=
  mkResult (publishedFiles r) ({[p]} ∪ skippedFiles r) (errors r).

Definition push_error (e : jsstring) (r : PublishResult) : PublishResult :=
  mkResult (publishedFiles r) (skippedFiles r) (errors r ++ [e]).

Definition getTargetPath (file : TFile) : jsstring :=
  let fileName :=
    if NSPublishSettings.addPublishPrefix settings
    then JS.concat [NSPublishSettings.publishPrefix settings; name file]
    else name file in
  if NSPublishSettings.preserveFolderStructure settings then
    let relativePath := match parent file with Some p => p | None => [] end in
    match relativePath with
    | _ :: _ =>
        JS.concat [NSPublishSettings.targetFolderPath settings; js "/"; relativePath;
                   js "/"; fileName]
    | [] => JS.concat [NSPublishSettings.targetFolderPath settings; js "/"; fileName]
    end
  else JS.concat [NSPublishSettings.targetFolderPath settings; js "/"; fileName].

Definition createFolderRecursively (folderPath : jsstring) : M St unit :=
  let parts := split (cu "/") folderPath in
  _ <- for_fold parts [] (fun currentPath part =>
         let currentPath :=
           match currentPath with
           | [] => part
           | _ :: _ => JS.concat [currentPath; js "/"; part]
           end in
         existingFolder <- gets (fun st => vault_getAbstractFileByPath (fst st) currentPath) ;;
         match existingFolder with
         | None => io (vault_createFolder currentPath) ;; ret currentPath
         | Some _ => ret currentPath
         end) ;;
  ret tt.

Definition ensureTargetFolderExists (targetPath : jsstring) : M St unit :=
  let folderPath := substring_to_last targetPath (cu "/") in
  match folderPath with
  | [] => ret tt
  | _ :: _ =>
      existingFolder <- gets (fun st => vault_getAbstractFileByPath (fst st) folderPath) ;;
      match existingFolder with
      | None => createFolderRecursively folderPath
      | Some _ => ret tt
      end
  end.

Definition processExcalidrawContent (targetFile : TFile) : M St unit :=
  try_catch
    (ExcalidrawUtil.setTargetFolderPath (NSPublishSettings.targetFolderPath settings) ;;
     content <- io (vault_read targetFile) ;;
     processedContent <- ExcalidrawUtil.processNoteContent content targetFile ;;
     if bool_decide (processedContent = content) then ret tt
     else io (vault_modify targetFile processedContent))
    (fun _ => ret tt).

Definition copyFileToTarget (file : TFile) : M St unit :=
  try_catch
    (content <- io (vault_read file) ;;
     let targetPath := getTargetPath file in
     ensureTargetFolderExists targetPath ;;
     existingFile <- gets (fun st => vault_getAbstractFileByPath (fst st) targetPath) ;;
     targetFile <- match existingFile with
                   | Some (AFile existingFile) =>
                       io (vault_modify existingFile content) ;; ret existingFile
                   | _ => io (vault_create targetPath content)
                   end ;;
     processExcalidrawContent targetFile)
    (fun message =>
       throw (JS.concat [js "Failed to copy "; path file; js ": "; message])).

Definition validatePublishPrerequisites (file : option TFile) : Validation :=
  match file with
  | None => mkValidation false (Some (js "No file provided"))
  | Some file =>
      if negb (bool_decide (extension file = js "md")) then
        mkValidation false (Some (js "Can only publish markdown files"))
      else
        match NSPublishSettings.targetFolderPath settings with
        | [] => mkValidation false (Some (js "Please configure target folder path in settings"))
        | _ :: _ => mkValidation true None
        end
  end.

Definition isValidTargetPath (folderPath : jsstring) : bool :=
  match folderPath with
  | [] => false
  | _ :: _ =>
      if includes folderPath (js "..") || includes folderPath [cu "\"] then false
      else negb (startsWith folderPath (js "/")) && negb (includes folderPath (js ":"))
  end.

(** [string | null], or the URIError of [encodeURIComponent]. *)
Definition generatePublishedUrl (file : TFile) : outcome (option jsstring) :=
  match NSPublishSettings.baseUrl settings with
  | [] => Ok None
  | _ :: _ =>
      let originalPath := path file in
      let pathWithoutExtension := replaceFirst false mdExtensionRegex [] originalPath in
      let urlFriendlyPath :=
        join (cu "/") (List.map urlFriendlySegment (split (cu "/") pathWithoutExtension)) in
      match mapJoin URI.encodeURIComponent (split (cu "/") urlFriendlyPath) with
      | Some encoded =>
          let encodedPath := join (cu "/") encoded in
          Ok (Some (JS.concat [NSPublishSettings.baseUrl settings; js "/"; encodedPath]))
      | None => Throw (js "URI malformed")
      end
  end.

Definition publishSingleNote (file : TFile) : M (Run World) unit :=
  try_catch
    (on_dev (copyFileToTarget file) ;;
     set_result (add_published (path file)))
    (fun message =>
       set_result (push_error (JS.concat [js "Failed to copy "; path file; js ": "; message]))).

(** The walk.  [fuel] bounds the depth of the recursion of the model;
    [publishNoteWithLinks] passes enough of it. *)
Fixpoint publishNoteRecursively (fuel : nat) (file : TFile) (depth maxDepth : Z)
    : M (Run World) unit :=
  match fuel with
  | O => starve
  | S fuel' =>
      let filePath := path file in
      seen <- gets (fun r => bool_decide (filePath ∈ visited r)
                             || bool_decide (filePath ∈ processing r)) ;;
      if (seen : bool) then ret tt
      else if (maxDepth <? depth)%Z then
        set_result (add_skipped filePath) ;;
        log (Skip filePath depth)
      else
        modify (fun r => mkRun (dev r) (result r) (visited r)
                               ({[filePath]} ∪ processing r) (trace r)) ;;
        finally
          (try_catch
             (log (Materialize filePath depth) ;;
              on_dev (copyFileToTarget file) ;;
              set_result (add_published filePath) ;;
              linkedFiles <- on_dev (on_app (WikilinkParser.getLinkedFiles settings file)) ;;
              for_each linkedFiles (fun linkedFile =>
                publishNoteRecursively fuel' linkedFile (depth + 1) maxDepth))
             (fun message =>
                let errorMsg := JS.concat [js "Error processing "; filePath; js ": "; message] in
                set_result (push_error errorMsg)))
          (modify (fun r => mkRun (dev r) (result r) ({[filePath]} ∪ visited r)
                                  (processing r ∖ {[filePath]}) (trace r)))
  end.

(** Fuel for a walk that starts at depth 0. *)
Definition walkFuel (maxDepth : Z) : nat := S (Z.to_nat (maxDepth + 1)).

(** [options.maxDepth || this.settings.maxDepth] *)
Definition effectiveMaxDepth (options : PublishOptions.t) : Z :=
  match PublishOptions.maxDepth options with
  | Some 0%Z | None => NSPublishSettings.maxDepth settings
  | Some d => d
  end.

Definition publishNoteWithLinks (file : TFile) (options : PublishOptions.t)
    : M (Run World) unit :=
  let maxDepth := effectiveMaxDepth options in
  modify (fun r => mkRun (dev r) (result r) ∅ ∅ []) ;;
  publishNoteRecursively (walkFuel maxDepth) file 0 maxDepth.

Definition publishNote (file : option TFile) (options : PublishOptions.t)
    : M (Run World) PublishResult :=
  set_result (fun _ => mkResult ∅ ∅ []) ;;
  let validation := validatePublishPrerequisites file in
  if negb (isValid validation) then
    set_result (push_error (match error validation with
                            | Some (c :: m) => c :: m
                            | _ => js "Unknown validation error"
                            end)) ;;
    gets result
  else
    match file with
    | None => throw (js "TypeError")
    | Some file =>
        on_dev (io (notice (js "Publishing note..."))) ;;
        try_catch
          ((if PublishOptions.includeLinked options
            then publishNoteWithLinks file options
            else publishSingleNote file) ;;
           on_dev (io notice_hide) ;;
           published <- gets (fun r => size (publishedFiles (result r))) ;;
           on_dev (io (notice (JS.concat [js "Successfully published "; ofNat published;
                                          js " file(s)"]))))
          (fun message =>
             on_dev (io notice_hide) ;;
             let errorMessage := JS.concat [js "Error publishing note: "; message] in
             set_result (push_error errorMessage) ;;
             on_dev (io (notice errorMessage))) ;;
        published <- gets (fun r => size (publishedFiles (result r))) ;;
        (if Nat.ltb 0 published then
           match generatePublishedUrl file with
           | Ok (Some (c :: u)) =>
               let publishedUrl := c :: u in
               on_dev (io (clipboard_writeText publishedUrl)) ;;
               on_dev (io (notice (JS.concat [js "URL copied to clipboard: "; publishedUrl])))
           | Ok _ => ret tt
           | Throw message => throw message
           | Starved => starve
           end
         else ret tt) ;;
        gets result
    end.

(** The object that [getPublishingStats] fills in and returns. *)
Record PublishingStats := mkStats {
  totalFiles : nat;
  linkedFiles : list TFile;
  estimatedSize : nat
}.

(** A method body that works on the host and on a local object: the object
    is created with [init] and dropped at the end. *)
Definition with_local {L A} (init : L) (m : M (World * L) A) : M World A :=
  fun w => match m (w, init) with (o, wl) => (o, fst wl) end.

Definition on_host {L A} (m : M World A) : M (World * L) A :=
  zoom fst (fun w wl => (w, snd wl)) m.

Definition add_size {L} (n : nat) : M (L * PublishingStats) unit :=
  modify (fun ls => (fst ls, mkStats (totalFiles (snd ls)) (linkedFiles (snd ls))
                                     (estimatedSize (snd ls) + n))).

(** [getPublishingStats(file, includeLinked = true)]; the length of a string
    is its number of code units. *)
Definition getPublishingStats (file : TFile) (includeLinked : option bool)
    : M World PublishingStats :=
  let includeLinked := default true includeLinked in
  with_local (mkStats 1 [] 0)
    (try_catch
       (mainContent <- on_host (lift (vault_read file)) ;;
        add_size (length mainContent) ;;
        if includeLinked then
          allLinkedFiles <- on_host (WikilinkParser.getAllLinkedFilesRecursively
                                       settings file None None) ;;
          modify (fun ls => (fst ls, mkStats (totalFiles (snd ls) + length allLinkedFiles)
                                             allLinkedFiles (estimatedSize (snd ls)))) ;;
          for_each allLinkedFiles (fun linkedFile =>
            try_catch
              (content <- on_host (lift (vault_read linkedFile)) ;;
               add_size (length content))
              (fun _ => ret tt))
        else ret tt)
       (fun _ => ret tt) ;;
     gets snd).

End Methods.

(** *** The walk, step by step

    [publishNoteRecursively] is also described as a relation between the
    state before and after a call; the lemma [walk_run] shows that the
    function computes it. *)

Section Walk.
Context {World : Type} `{Host World}.
Variable settings : NSPublishSettings.t.
Variable maxDepth : Z.

Definition seen (p : jsstring) (r : Run World) : Prop :=
  p ∈ visited r \/ p ∈ processing r.

(** The state after each step of [publishNoteRecursively]. *)
Definition skipped (p : jsstring) (d : Z) (r : Run World) : Run World :=
  mkRun (dev r) (add_skipped p (result r)) (visited r) (processing r)
        (trace r ++ [Skip p d]).

Definition entered (p : jsstring) (d : Z) (r : Run World) : Run World :=
  mkRun (dev r) (result r) (visited r) ({[p]} ∪ processing r)
        (trace r ++ [Materialize p d]).

Definition copied (p : jsstring) (dv : World * ExcalidrawUtil.fields) (r : Run World)
    : Run World :=
  mkRun dv (add_published p (result r)) (visited r) (processing r) (trace r).

Definition errorMsg (p message : jsstring) : jsstring :=
  JS.concat [js "Error processing "; p; js ": "; message].

Definition failed (p message : jsstring) (dv : World * ExcalidrawUtil.fields)
    (r : Run World) : Run World :=
  mkRun dv (push_error (errorMsg p message) (result r)) (visited r) (processing r) (trace r).

Definition finished (p : jsstring) (r : Run World) : Run World :=
  mkRun (dev r) (result r) ({[p]} ∪ visited r) (processing r ∖ {[p]}) (trace r).

(** The walk as a relation between the state before and after a call. *)
Inductive walk : TFile -> Z -> Run World -> Run World -> Prop :=
| walk_seen file d r :
    seen (path file) r ->
    walk file d r r
| walk_skip file d r :
    ~ seen (path file) r -> (maxDepth < d)%Z ->
    walk file d r (skipped (path file) d r)
| walk_fail file d r message dv :
    ~ seen (path file) r -> (d <= maxDepth)%Z ->
    copyFileToTarget settings file (dev r) = (Throw message, dv) ->
    walk file d r (finished (path file) (failed (path file) message dv (entered (path file) d r)))
| walk_ok file d r dv linkedFiles w r' :
    ~ seen (path file) r -> (d <= maxDepth)%Z ->
    copyFileToTarget settings file (dev r) = (Ok tt, dv) ->
    WikilinkParser.getLinkedFiles settings file (fst dv) = (Ok linkedFiles, w) ->
    walk_each linkedFiles (d + 1) (copied (path file) (w, snd dv) (entered (path file) d r)) r' ->
    walk file d r (finished (path file) r')
with walk_each : list TFile -> Z -> Run World -> Run World -> Prop :=
| each_nil d r : walk_each [] d r r
| each_cons file files d r r1 r2 :
    walk file d r r1 -> walk_each files d r1 r2 ->
    walk_each (file :: files) d r r2.

End Walk.

(** Induction over a walk and over the loops inside it. *)
Scheme walk_ind2 := Minimality for walk Sort Prop
  with walk_each_ind2 := Minimality for walk_each Sort Prop.
Combined Scheme walk_mutind from walk_ind2, walk_each_ind2.

End NoteCopier.

(** ** [parseInt]

    [parseInt(string)] without a radix: leading white space is skipped, a
    sign is read, the prefix [0x] selects base 16, and the longest prefix of
    digits is the value; [None] is [NaN].  The result is the mathematical
    integer.  The Number that JavaScript makes of it is the same integer up
    to 2^53 and is rounded beyond that; rounding keeps the order with every
    smaller integer, so the comparisons of the settings tab with 0 and 20
    are decided alike. *)

Module Global.

Definition digitValue (radix c : N) : option N :=
  let v := if (48 <=? c) && (c <=? 57) then Some (c - 48)
           else if (97 <=? c) && (c <=? 122) then Some (c - 87)
           else if (65 <=? c) && (c <=? 90) then Some (c - 55)
           else None in
  match v with
  | Some d => if d <? radix then Some d else None
  | None => None
  end.

(** The value of the longest prefix of digits, if it is not empty. *)
Fixpoint digits (radix : N) (s : jsstring) (acc : option N) : option N :=
  match s with
  | c :: t =>
      match digitValue radix c with
      | Some d => digits radix t (Some (radix * default 0 acc + d))
      | None => acc
      end
  | [] => acc
  end.

Definition parseInt (s : jsstring) : option Z :=
  let s := trimStart s in
  let '(sign, s) :=
    match s with
    | c :: t => if c =? cu "-" then ((-1)%Z, t)
                else if c =? cu "+" then (1%Z, t) else (1%Z, s)
    | [] => (1%Z, [])
    end in
  let '(radix, s) :=
    match s with
    | a :: b :: t =>
        if (a =? cu "0") && ((b =? cu "x") || (b =? cu "X")) then (16, t) else (10, s)
    | _ => (10, s)
    end in
  option_map (fun n => (sign * Z.of_N n)%Z) (digits radix s None).

(** [Array.prototype.join] with any separator. *)
Fixpoint joinWith (sep : jsstring) (parts : list jsstring) : jsstring :=
  match parts with
  | [] => []
  | [part] => part
  | part :: parts' => part ++ sep ++ joinWith sep parts'
  end.

End Global.

(** ** [Source/SettingsTab.ts] and the settings of [main.ts]

    The plugin, the note copier and the link parser hold the same settings
    object; a handler of the settings tab writes a field of that object and
    then calls [saveSettings], which stores the object with [saveData] (the
    call of [updateSettings] that follows hands the copier the object it
    already holds).  The handlers are the callbacks that [display] installs;
    the rendering of the tab is left out. *)

(** [Plugin.saveData] of the host. *)
Class Storage (World : Type) := {
  saveData : NSPublishSettings.t -> IO World unit
}.

Module SettingsTab.

Import NSPublishSettings.

Section Handlers.
Context {World : Type} `{Storage World}.

(** The host and the settings object. *)
Definition Plugin : Type := World * NSPublishSettings.t.

Definition saveSettings : M Plugin unit :=
  fun p => match lift (saveData (snd p)) (fst p) with (o, w) => (o, (w, snd p)) end.

Definition assign (f : NSPublishSettings.t -> NSPublishSettings.t) : M Plugin unit :=
  modify (fun p => (fst p, f (snd p))).

Definition onTargetFolderPath (value : jsstring) : M Plugin unit :=
  assign (fun s => mk (trim value) (includeLinkedNotes s) (maxDepth s) (excludePatterns s)
                      (preserveFolderStructure s) (addPublishPrefix s) (publishPrefix s)
                      (baseUrl s)) ;;
  saveSettings.

Definition onIncludeLinkedNotes (value : bool) : M Plugin unit :=
  assign (fun s => mk (targetFolderPath s) value (maxDepth s) (excludePatterns s)
                      (preserveFolderStructure s) (addPublishPrefix s) (publishPrefix s)
                      (baseUrl s)) ;;
  saveSettings.

Definition onMaxDepth (value : jsstring) : M Plugin unit :=
  match Global.parseInt value with
  | Some numValue =>
      if (0 <? numValue)%Z && (numValue <=? 20)%Z then
        assign (fun s => mk (targetFolderPath s) (includeLinkedNotes s) numValue
                            (excludePatterns s) (preserveFolderStructure s)
                            (addPublishPrefix s) (publishPrefix s) (baseUrl s)) ;;
        saveSettings
      else ret tt
  | None => ret tt
  end.

Definition onPreserveFolderStructure (value : bool) : M Plugin unit :=
  assign (fun s => mk (targetFolderPath s) (includeLinkedNotes s) (maxDepth s)
                      (excludePatterns s) value (addPublishPrefix s) (publishPrefix s)
                      (baseUrl s)) ;;
  saveSettings.

Definition onAddPublishPrefix (value : bool) : M Plugin unit :=
  assign (fun s => mk (targetFolderPath s) (includeLinkedNotes s) (maxDepth s)
                      (excludePatterns s) (preserveFolderStructure s) value (publishPrefix s)
                      (baseUrl s)) ;;
  saveSettings.

Definition onPublishPrefix (value : jsstring) : M Plugin unit :=
  assign (fun s => mk (targetFolderPath s) (includeLinkedNotes s) (maxDepth s)
                      (excludePatterns s) (preserveFolderStructure s) (addPublishPrefix s)
                      value (baseUrl s)) ;;
  saveSettings.

(** [value.split(',').map(p => p.trim()).filter(p => p.length > 0)] *)
Definition parsePatterns (value : jsstring) : list jsstring :=
  List.filter (fun p => Nat.ltb 0 (length p)) (List.map trim (split (cu ",") value)).

Definition onExcludePatterns (value : jsstring) : M Plugin unit :=
  assign (fun s => mk (targetFolderPath s) (includeLinkedNotes s) (maxDepth s)
                      (parsePatterns value) (preserveFolderStructure s)
                      (addPublishPrefix s) (publishPrefix s) (baseUrl s)) ;;
  saveSettings.

Definition onBaseUrl (value : jsstring) : M Plugin unit :=
  assign (fun s => mk (targetFolderPath s) (includeLinkedNotes s) (maxDepth s)
                      (excludePatterns s) (preserveFolderStructure s) (addPublishPrefix s)
                      (publishPrefix s) value) ;;
  saveSettings.

(** What the text area of the exclude patterns shows:
    [excludePatterns.join(', ')]. *)
Definition shownPatterns (s : NSPublishSettings.t) : jsstring :=
  Global.joinWith (js ", ") (excludePatterns s).

(** One change made in the settings tab, and the handler it runs. *)
Inductive edit :=
| TargetFolderPath (value : jsstring)
| IncludeLinkedNotes (value : bool)
| MaxDepth (value : jsstring)
| PreserveFolderStructure (value : bool)
| AddPublishPrefix (value : bool)
| PublishPrefix (value : jsstring)
| ExcludePatterns (value : jsstring)
| BaseUrl (value : jsstring).

Definition onChange (e : edit) : M Plugin unit :=
  match e with
  | TargetFolderPath value => onTargetFolderPath value
  | IncludeLinkedNotes value => onIncludeLinkedNotes value
  | MaxDepth value => onMaxDepth value
  | PreserveFolderStructure value => onPreserveFolderStructure value
  | AddPublishPrefix value => onAddPublishPrefix value
  | PublishPrefix value => onPublishPrefix value
  | ExcludePatterns value => onExcludePatterns value
  | BaseUrl value => onBaseUrl value
  end.

(** The plugin after a sequence of changes; a handler that throws (a failed
    save) leaves the plugin as it is at that point, and the next change
    starts from there. *)
Definition after_edits (edits : list edit) (p : Plugin) : Plugin :=
  fold_left (fun p e => snd (onChange e p)) edits p.

End Handlers.
End SettingsTab.

(** ** The commands of [main.ts]

    [getActiveFile()] of the workspace is the argument [activeFile]. *)

Module Main.

Section Commands.
Context {World : Type} `{Host World}.
Variable settings : NSPublishSettings.t.

Definition show (message : jsstring) : M (NoteCopier.Run World) unit :=
  NoteCopier.on_dev (NoteCopier.io (notice message)).

(** The [checkCallback] of the three commands, when [checking] is set. *)
Definition checkCallback (activeFile : option TFile) : bool :=
  match activeFile with
  | Some activeFile => bool_decide (extension activeFile = js "md")
  | None => false
  end.

(** The options that [publishCurrentNote] and [publishCurrentNoteOnly] pass. *)
Definition linkedOptions : PublishOptions.t :=
  PublishOptions.mk (NSPublishSettings.includeLinkedNotes settings)
                    (Some (NSPublishSettings.maxDepth settings))
                    (Some (NSPublishSettings.excludePatterns settings)).

Definition onlyOptions : PublishOptions.t := PublishOptions.mk false None None.

Definition publishWith (options : PublishOptions.t) (activeFile : option TFile)
    : M (NoteCopier.Run World) unit :=
  match activeFile with
  | None => show (js "No active file to publish")
  | Some activeFile =>
      try_catch
        (result <- NoteCopier.publishNote settings (Some activeFile) options ;;
         if Nat.ltb 0 (length (errors result)) then
           show (JS.concat [js "Published with "; ofNat (length (errors result));
                            js " error(s). Check console for details."])
         else ret tt)
        (fun message => show (JS.concat [js "Failed to publish: "; message]))
  end.

Definition publishCurrentNote : option TFile -> M (NoteCopier.Run World) unit :=
  publishWith linkedOptions.

Definition publishCurrentNoteOnly : option TFile -> M (NoteCopier.Run World) unit :=
  publishWith onlyOptions.

End Commands.
End Main.

(** ** An in-memory host

    A small vault kept in lists, used to run the embedding on concrete
    notes.  Links resolve to the first note whose base name, name or path
    is the link text; the drawing libraries answer with the text they are
    given; a pattern with an opening parenthesis does not compile as a
    regular expression and any other pattern matches as a literal. *)

Module MemHost.

Record world := mkWorld {
  files : list (TFile * jsstring);
  folders : list jsstring;
  binaries : list (jsstring * list N);
  notices : list jsstring;
  clipboard : option jsstring
}.

(** The file handle of a path: [a/b/n.md] has name [n.md], base name [n],
    extension [md] and parent [a/b]. *)
Definition fileOf (p : jsstring) : TFile :=
  let segs := split (cu "/") p in
  let nm := List.last segs [] in
  let dir := substring_to_last p (cu "/") in
  {| path := p;
     name := nm;
     basename := match lastIndexOf nm (cu ".") with Some i => firstn i nm | None => nm end;
     extension := match lastIndexOf nm (cu ".") with Some i => skipn (S i) nm | None => [] end;
     parent := match dir with [] => None | _ :: _ => Some dir end |}.

Definition lookupFile (w : world) (p : jsstring) : option (TFile * jsstring) :=
  List.find (fun e => bool_decide (path (fst e) = p)) (files w).

Definition getAbstractFileByPath (w : world) (p : jsstring) : option TAbstractFile :=
  match lookupFile w p with
  | Some (f, _) => Some (AFile f)
  | None =>
      if bool_decide (p ∈ folders w) then Some (AFolder p)
      else if bool_decide (p ∈ (List.map fst (binaries w))) then Some (AFile (fileOf p))
      else None
  end.

Definition paths (w : world) : list jsstring :=
  List.map (fun e => path (fst e)) (files w) ++ folders w ++ List.map fst (binaries w).

Definition read (f : TFile) : IO world jsstring :=
  fun w => match lookupFile w (path f) with
           | Some (_, content) => (Return content, w)
           | None => (Raise (js "ENOENT"), w)
           end.

Definition readBinary (f : TFile) : IO world (list N) :=
  fun w => match List.find (fun e => bool_decide (fst e = path f)) (binaries w) with
           | Some (_, bytes) => (Return bytes, w)
           | None => (Raise (js "ENOENT"), w)
           end.

Definition modifyFile (f : TFile) (content : jsstring) : IO world unit :=
  fun w => match lookupFile w (path f) with
           | Some _ =>
               (Return tt,
                mkWorld (List.map (fun e => if bool_decide (path (fst e) = path f)
                                            then (fst e, content) else e) (files w))
                        (folders w) (binaries w) (notices w) (clipboard w))
           | None => (Raise (js "ENOENT"), w)
           end.

Definition create (p content : jsstring) : IO world TFile :=
  fun w => match getAbstractFileByPath w p with
           | Some _ => (Raise (js "File already exists."), w)
           | None =>
               (Return (fileOf p),
                mkWorld (files w ++ [(fileOf p, content)]) (folders w) (binaries w)
                        (notices w) (clipboard w))
           end.

Definition createFolder (p : jsstring) : IO world unit :=
  fun w => match getAbstractFileByPath w p with
           | Some _ => (Raise (js "Folder already exists."), w)
           | None =>
               (Return tt, mkWorld (files w) (folders w ++ [p]) (binaries w)
                               (notices w) (clipboard w))
           end.

Definition createBinary (p : jsstring) (bytes : list N) : IO world unit :=
  fun w => match getAbstractFileByPath w p with
           | Some _ => (Raise (js "File already exists."), w)
           | None =>
               (Return tt, mkWorld (files w) (folders w) (binaries w ++ [(p, bytes)])
                               (notices w) (clipboard w))
           end.

Definition resolve (w : world) (linkpath sourcePath : jsstring) : option TFile :=
  option_map fst
    (List.find (fun e => bool_decide (basename (fst e) = linkpath)
                         || bool_decide (name (fst e) = linkpath)
                         || bool_decide (path (fst e) = linkpath)) (files w)).

Definition compile (pattern : jsstring) : option (jsstring -> bool) :=
  if includes pattern (js "(") then None
  else Some (fun text => includes text pattern).

Definition show (message : jsstring) : IO world unit :=
  fun w => (Return tt, mkWorld (files w) (folders w) (binaries w)
                           (notices w ++ [message]) (clipboard w)).

Definition copyText (text : jsstring) : IO world unit :=
  fun w => (Return tt, mkWorld (files w) (folders w) (binaries w) (notices w) (Some text)).

Lemma paths_complete w p :
  is_Some (getAbstractFileByPath w p) -> In p (paths w).
Proof.
  unfold getAbstractFileByPath, paths, lookupFile. intros Hsome.
  destruct (List.find _ (files w)) as [[f c]|] eqn:Hfind.
  - apply List.find_some in Hfind as [Hin Hp].
    apply bool_decide_eq_true in Hp. simpl in Hp. subst p.
    apply in_or_app. left.
    apply (in_map (fun e => path (fst e))) in Hin. exact Hin.
  - apply in_or_app. right. apply in_or_app.
    destruct (bool_decide (p ∈ folders w)) eqn:Hfold.
    + left. apply bool_decide_eq_true in Hfold. by apply list_elem_of_In.
    + right. destruct (bool_decide (p ∈ List.map fst (binaries w))) eqn:Hbin.
      * apply bool_decide_eq_true in Hbin. by apply list_elem_of_In.
      * by destruct Hsome.
Qed.

#[global] Instance host : Host world := {|
  new_RegExp := compile;
  vault_read := read;
  vault_cachedRead := read;
  vault_readBinary := readBinary;
  vault_modify := modifyFile;
  vault_create := create;
  vault_createFolder := createFolder;
  vault_createBinary := createBinary;
  vault_getAbstractFileByPath := getAbstractFileByPath;
  vault_paths := paths;
  vault_paths_complete := paths_complete;
  getFirstLinkpathDest := resolve;
  decompressFromBase64 := Some;
  Elements := jsstring;
  parse_elements := Some;
  Blob := list N;
  exportToBlob := fun elements _ w => (Return (Some elements), w);
  blob_arrayBuffer := fun blob w => (Return blob, w);
  detectFile := fun _ => None;
  btoa := fun s => s;
  date_now := fun w => (Return 0, w);
  notice := show;
  notice_hide := fun w => (Return tt, w);
  clipboard_writeText := copyText
|}.

(** A vault holding the given notes (path and content) and nothing else. *)
Definition vaultOf (notes : list (jsstring * jsstring)) (dirs : list jsstring) : world :=
  mkWorld (List.map (fun n => (fileOf (fst n), snd n)) notes) dirs [] [] None.

Definition start (w : world) : NoteCopier.Run world :=
  NoteCopier.mkRun (w, ExcalidrawUtil.mkFields [] []) (mkResult ∅ ∅ []) ∅ ∅ [].

End MemHost.

(** ** Notions used by the statements *)

(** [p] occurs in [s]; [s] begins with [p]. *)
Definition contains (s p : jsstring) : Prop := exists a b, s = a ++ p ++ b.
Definition hasPrefix (s p : jsstring) : Prop := exists b, s = p ++ b.

(** A computation that never runs out of fuel. *)
Definition total {S A} (m : M S A) : Prop := forall s, fst (m s) <> Starved.

(** The names tried for the image of a drawing: [base.png], [base_1.png],
    [base_2.png], ..., and their paths in the image folder. *)
Definition candidate (baseName : jsstring) (j : nat) : jsstring :=
  match j with
  | O => JS.concat [baseName; js ".png"]
  | S _ => JS.concat [baseName; js "_"; ofNat j; js ".png"]
  end.

Definition candidatePath (imageFolderPath baseName : jsstring) (j : nat) : jsstring :=
  JS.concat [imageFolderPath; js "/"; candidate baseName j].

(** The exclusion filter in the words of the specification: a pattern
    excludes a link text when it compiles to a regular expression that
    matches the text, or does not compile and occurs in the text. *)
Definition excludes {World : Type} `{Host World} (pattern linkText : jsstring) : Prop :=
  match new_RegExp pattern with
  | Some regex_test => regex_test linkText = true
  | None => contains linkText pattern
  end.

(** *** The URL in the words of the specification *)

(** The length of the run of white space at the start of a text. *)
Fixpoint spaces (s : jsstring) : nat :=
  match s with
  | c :: t => if isWhiteSpace c then S (spaces t) else O
  | [] => O
  end.

(** The length of the run at the start of a text that consists of an
    ampersand and the white space around it, if the text starts with one. *)
Definition ampersandRun (s : jsstring) : option nat :=
  let before := spaces s in
  match skipn before s with
  | c :: rest => if c =? cu "&" then Some (before + 1 + spaces rest)%nat else None
  | [] => None
  end.

(** The length of the run of white space at the start of a text, if there
    is one. *)
Definition spaceRun (s : jsstring) : option nat :=
  match spaces s with
  | O => None
  | S n => Some (S n)
  end.

(** Scan a text from left to right and put [rep] in place of every run that
    [run] finds; [fuel] bounds the number of steps. *)
Fixpoint replaceRuns (run : jsstring -> option nat) (rep : jsstring) (fuel : nat)
    (s : jsstring) : jsstring :=
  match fuel with
  | O => s
  | S fuel' =>
      match run s with
      | Some n => rep ++ replaceRuns run rep fuel' (skipn n s)
      | None =>
          match s with
          | [] => []
          | c :: t => c :: replaceRuns run rep fuel' t
          end
      end
  end.

(** A segment in the words of the specification: the runs of white space
    around an ampersand become [--and--], then the remaining runs of white
    space become a hyphen. *)
Definition friendlySegment (segment : jsstring) : jsstring :=
  let s1 := replaceRuns ampersandRun (js "--and--") (length segment) segment in
  replaceRuns spaceRun (js "-") (length s1) s1.

(** The state reached by the greedy [\s*] before a continuation [k]: the
    longest run first, then shorter ones. *)
Fixpoint greedySpaces (k : mstate -> option mstate) (i : nat) (rest : jsstring)
    (caps : list (nat * (nat * nat))) : option mstate :=
  match rest with
  | x :: t =>
      if isWhiteSpace x then orElse (greedySpaces k (S i) t caps) (k (MState i rest caps))
      else k (MState i rest caps)
  | [] => k (MState i [] caps)
  end.

(** The span of a match, or nothing. *)
Definition span (m : option rmatch) : option (nat * nat) :=
  option_map (fun m => (r_start m, r_end m)) m.

(** The public URL in the words of the specification: nothing without a
    base URL; otherwise the source path without a trailing [.md], split on
    [/], every segment rewritten by [friendlySegment] and percent-encoded on
    its own, joined with [/] and put after the base URL and a [/]. *)
Definition stripMd (p : jsstring) : jsstring :=
  if endsWith p (js ".md") then firstn (length p - 3) p else p.

Definition publicUrl (baseUrl sourcePath : jsstring) : outcome (option jsstring) :=
  match baseUrl with
  | [] => Ok None
  | _ :: _ =>
      let segments := split (cu "/") (stripMd sourcePath) in
      match NoteCopier.mapJoin
              (fun seg => URI.encodeURIComponent (friendlySegment seg))
              segments with
      | Some encoded => Ok (Some (baseUrl ++ js "/" ++ join (cu "/") encoded))
      | None => Throw (js "URI malformed")
      end
  end.

(** *** Notions about the walk *)

(** The paths copied and the paths skipped, in the order of the trace. *)
Definition materialized (tr : list NoteCopier.event) : list jsstring :=
  List.concat (List.map (fun e => match e with
                                  | NoteCopier.Materialize p _ => [p]
                                  | NoteCopier.Skip _ _ => []
                                  end) tr).

Definition skips (tr : list NoteCopier.event) : list jsstring :=
  List.concat (List.map (fun e => match e with
                                  | NoteCopier.Materialize _ _ => []
                                  | NoteCopier.Skip p _ => [p]
                                  end) tr).

(** An event of a call at depth [d] lies within the bound when it is a
    copy and beyond it when it is a skip. *)
Definition event_ok (maxDepth d : Z) (e : NoteCopier.event) : Prop :=
  match e with
  | NoteCopier.Materialize _ k => (d <= k <= maxDepth)%Z
  | NoteCopier.Skip _ k => (d <= k)%Z /\ (maxDepth < k)%Z
  end.

(** [q] is reached from [p] by exactly [n] links of the graph [links],
    which gives the documents a document links to, by path. *)
Inductive reach (links : jsstring -> list TFile) : nat -> jsstring -> jsstring -> Prop :=
| reach_here p : reach links 0 p p
| reach_step n p f q :
    In f (links p) -> reach links n (path f) q -> reach links (S n) p q.


Section WalkNotions.
Context {World : Type} `{Host World}.
Variable settings : NSPublishSettings.t.

(** What a call leaves alone and what it only extends. *)
Definition extends (r r' : NoteCopier.Run World) : Prop :=
  NoteCopier.processing r' = NoteCopier.processing r
  /\ NoteCopier.visited r ⊆ NoteCopier.visited r'
  /\ publishedFiles (NoteCopier.result r) ⊆ publishedFiles (NoteCopier.result r')
  /\ skippedFiles (NoteCopier.result r) ⊆ skippedFiles (NoteCopier.result r').

(** What a call at depth [d] adds to the trace and to the result. *)
Definition records (maxDepth d : Z) (r r' : NoteCopier.Run World) : Prop :=
  exists new,
    NoteCopier.trace r' = NoteCopier.trace r ++ new
    /\ Forall (event_ok maxDepth d) new
    /\ skippedFiles (NoteCopier.result r')
       = list_to_set (skips new) ∪ skippedFiles (NoteCopier.result r)
    /\ publishedFiles (NoteCopier.result r')
       ⊆ list_to_set (materialized new) ∪ publishedFiles (NoteCopier.result r).

(** No path is copied twice, and every path copied so far is visited or on
    the stack. *)
Definition copiedOnce (r : NoteCopier.Run World) : Prop :=
  NoDup (materialized (NoteCopier.trace r))
  /\ forall p, In p (materialized (NoteCopier.trace r)) -> NoteCopier.seen p r.




End WalkNotions.

Section Exploration.
Context {World : Type} `{Host World}.
Variable maxDepth : Z.
Variable Inv : World * ExcalidrawUtil.fields -> Prop.
Variable links : jsstring -> list TFile.


End Exploration.

(** The state in which [publishNoteWithLinks] starts the walk. *)
Definition fresh {World : Type} (r : NoteCopier.Run World) : NoteCopier.Run World :=
  NoteCopier.mkRun (NoteCopier.dev r) (NoteCopier.result r) ∅ ∅ [].

(** A computation that returns: it neither throws nor starves. *)
Definition returns {S A} (m : M S A) : Prop := forall s, exists a s', m s = (Ok a, s').

(** ** A host that stores nothing

    Notes are given by a table from paths to contents; a link text [n]
    resolves to the note [n.md] of the table.  Every write succeeds and is
    forgotten, no path is found in the vault, no pattern compiles and no
    drawing is rendered.  The link graph of this host is static. *)

Module ScriptHost.

Section Script.
Variable notes : list (jsstring * jsstring).

Definition content (p : jsstring) : jsstring :=
  match List.find (fun e => bool_decide (fst e = p)) notes with
  | Some (_, c) => c
  | None => []
  end.

Definition read (f : TFile) : IO unit jsstring :=
  fun w => (Return (content (path f)), w).

Definition resolve (_ : unit) (linkpath sourcePath : jsstring) : option TFile :=
  let p := linkpath ++ js ".md" in
  if bool_decide (p ∈ List.map fst notes) then Some (MemHost.fileOf p) else None.

Definition done {A} (a : A) : IO unit A := fun w => (Return a, w).

Definition host : Host unit := {|
  new_RegExp := fun _ => None;
  vault_read := read;
  vault_cachedRead := read;
  vault_readBinary := fun _ => done [];
  vault_modify := fun _ _ => done tt;
  vault_create := fun p _ => done (MemHost.fileOf p);
  vault_createFolder := fun _ => done tt;
  vault_createBinary := fun _ _ => done tt;
  vault_getAbstractFileByPath := fun _ _ => None;
  vault_paths := fun _ => [];
  vault_paths_complete := fun _ _ Hsome => match is_Some_None Hsome with end;
  getFirstLinkpathDest := resolve;
  decompressFromBase64 := fun _ => None;
  Elements := unit;
  parse_elements := fun _ => None;
  Blob := unit;
  exportToBlob := fun _ _ => done None;
  blob_arrayBuffer := fun _ => done [];
  detectFile := fun _ => None;
  btoa := fun s => s;
  date_now := done 0;
  notice := fun _ => done tt;
  notice_hide := done tt;
  clipboard_writeText := fun _ => done tt
|}.

(** The link graph of the table. *)
Definition links (settings : NSPublishSettings.t) (p : jsstring) : list TFile :=
  match @WikilinkParser.getLinkedFiles unit host settings (mkTFile p [] [] [] None) tt with
  | (Ok linkedFiles, _) => linkedFiles
  | _ => []
  end.

Definition start : NoteCopier.Run unit :=
  NoteCopier.mkRun (tt, ExcalidrawUtil.mkFields [] []) (mkResult ∅ ∅ []) ∅ ∅ [].

End Script.
End ScriptHost.

(** ** A host that counts

    The world is the number of operations the host has run so far: every
    read, write, folder creation, notice and clipboard operation adds one.
    Nothing is found in the vault and nothing is kept. *)

Module TallyHost.

Definition tick {A} (a : A) : IO nat A := fun n => (Return a, S n).

Definition host : Host nat := {|
  new_RegExp := fun _ => None;
  vault_read := fun _ => tick [];
  vault_cachedRead := fun _ => tick [];
  vault_readBinary := fun _ => tick [];
  vault_modify := fun _ _ => tick tt;
  vault_create := fun p _ => tick (MemHost.fileOf p);
  vault_createFolder := fun _ => tick tt;
  vault_createBinary := fun _ _ => tick tt;
  vault_getAbstractFileByPath := fun _ _ => None;
  vault_paths := fun _ => [];
  vault_paths_complete := fun _ _ Hsome => match is_Some_None Hsome with end;
  getFirstLinkpathDest := fun _ _ _ => None;
  decompressFromBase64 := fun _ => None;
  Elements := unit;
  parse_elements := fun _ => None;
  Blob := unit;
  exportToBlob := fun _ _ => tick None;
  blob_arrayBuffer := fun _ => tick [];
  detectFile := fun _ => None;
  btoa := fun s => s;
  date_now := tick 0;
  notice := fun _ => tick tt;
  notice_hide := tick tt;
  clipboard_writeText := fun _ => tick tt
|}.

(** A state in which the host has run [n] operations. *)
Definition after (n : nat) : NoteCopier.Run nat :=
  NoteCopier.mkRun (n, ExcalidrawUtil.mkFields [] []) (mkResult ∅ ∅ []) ∅ ∅ [].

End TallyHost.

(** ** Concrete vaults *)

Definition settings0 : NSPublishSettings.t :=
  {| NSPublishSettings.targetFolderPath := js "pub";
     NSPublishSettings.includeLinkedNotes := true;
     NSPublishSettings.maxDepth := 5;
     NSPublishSettings.excludePatterns := [];
     NSPublishSettings.preserveFolderStructure := true;
     NSPublishSettings.addPublishPrefix := false;
     NSPublishSettings.publishPrefix := js "published_";
     NSPublishSettings.baseUrl := js "http://x" |}.

Definition optionsDepth (d : Z) : PublishOptions.t := PublishOptions.mk true (Some d) None.

(** The links enumerated for the note at a path in a world of [MemHost]. *)
Definition linksIn (w : MemHost.world) (p : jsstring) : list TFile :=
  match WikilinkParser.getLinkedFiles settings0 (MemHost.fileOf p) w with
  | (Ok linkedFiles, _) => linkedFiles
  | _ => []
  end.

(** [root] links to [a]. *)
Definition vaultPair : MemHost.world :=
  MemHost.vaultOf [(js "root.md", js "see [[a]]"); (js "a.md", js "leaf")] [].


(** [root] links to [a] and [a] to [b]; a folder sits where the copy of [a]
    would be written, so that copy fails. *)
Definition vaultBlocked : MemHost.world :=
  MemHost.vaultOf [(js "root.md", js "see [[a]]"); (js "a.md", js "see [[b]]");
                   (js "b.md", js "leaf")] [js "pub"; js "pub/a.md"].

(** A note that embeds the drawing [d] twice, with a display text holding
    two dollar signs; [d] carries the marker of the drawing plugin. *)
Definition drawingNote : jsstring :=
  js "---" ++ [10] ++ js "excalidraw-plugin: parsed" ++ [10] ++ js "---" ++ [10] ++ js "{}".

Definition vaultDrawing : MemHost.world :=
  MemHost.vaultOf [(js "n.md", js "x ![[d|a$$b]] y"); (js "d.md", drawingNote)] [].

(** The scenario of the specification: [root] links to [a], [a] links back
    to [root] and to [b], and the bound is 1. *)
Definition vaultCycle : MemHost.world :=
  MemHost.vaultOf [(js "root.md", js "[[a]]"); (js "a.md", js "[[root]] [[b]]");
                   (js "b.md", js "leaf")] [].

(** The table of a scripted host: [root] links to [a] and [a] to [b]. *)
Definition chainNotes : list (jsstring * jsstring) :=
  [(js "root.md", js "[[a]]"); (js "a.md", js "[[b]]"); (js "b.md", js "end")].

(** ** Vaults that keep what is written

    Laws of a vault under which the copies and the folders are followed:
    reading changes nothing, a file that was written reads back as written,
    a file handle found at a path has that path, and a folder that was
    created is found at its path. *)

Class LawfulVault (World : Type) `{Host World} : Prop := {
  read_keeps : forall f w, snd (vault_read f w) = w;
  create_read : forall p c w f w',
    vault_create p c w = (Return f, w') ->
    path f = p /\ vault_read f w' = (Return c, w');
  modify_read : forall f c w w',
    vault_modify f c w = (Return tt, w') -> vault_read f w' = (Return c, w');
  found_path : forall w p f,
    vault_getAbstractFileByPath w p = Some (AFile f) -> path f = p;
  createFolder_found : forall p w w',
    vault_createFolder p w = (Return tt, w') ->
    is_Some (vault_getAbstractFileByPath w' p)
}.

(** ** Matches, declaratively

    [spans ic r st st']: the expression [r] matches the input of the state
    [st] up to the state [st'], whatever the order in which a matcher tries
    the alternatives. *)

Inductive spans (ic : bool) : regex -> mstate -> mstate -> Prop :=
| spans_Eps st : spans ic Eps st st
| spans_Chr c st x t :
    m_rest st = x :: t -> canon ic x = canon ic c ->
    spans ic (Chr c) st (Rx.step st t)
| spans_Set neg cs st x t :
    m_rest st = x :: t -> xorb neg (existsb (in_class x) cs) = true ->
    spans ic (Set_ neg cs) st (Rx.step st t)
| spans_Dot st x t :
    m_rest st = x :: t -> isLineTerminator x = false ->
    spans ic Dot st (Rx.step st t)
| spans_Seq r1 r2 st st1 st2 :
    spans ic r1 st st1 -> spans ic r2 st1 st2 -> spans ic (Seq r1 r2) st st2
| spans_Alt_l r1 r2 st st' : spans ic r1 st st' -> spans ic (Alt r1 r2) st st'
| spans_Alt_r r1 r2 st st' : spans ic r2 st st' -> spans ic (Alt r1 r2) st st'
| spans_Star_stop greedy r st : spans ic (Star greedy r) st st
| spans_Star_more greedy r st st1 st2 :
    spans ic r st st1 -> m_pos st1 <> m_pos st ->
    spans ic (Star greedy r) st1 st2 -> spans ic (Star greedy r) st st2
| spans_Group i r st st' :
    spans ic r st st' ->
    spans ic (Group i r) st
      (MState (m_pos st') (m_rest st') ((i, (m_pos st, m_pos st')) :: m_caps st'))
| spans_Bol st : m_pos st = O -> spans ic Bol st st
| spans_Eol st : m_rest st = [] -> spans ic Eol st st
| spans_Ahead r st st' :
    spans ic r st st' ->
    spans ic (Ahead r) st (MState (m_pos st) (m_rest st) (m_caps st')).

(** The capture groups of an expression. *)
Fixpoint groups (r : regex) : list nat :=
  match r with
  | Seq r1 r2 | Alt r1 r2 => groups r1 ++ groups r2
  | Star _ r1 | Ahead r1 => groups r1
  | Group i r1 => i :: groups r1
  | _ => []
  end.

(** A text that does not start with white space. *)
Definition noLead (s : jsstring) : Prop :=
  match s with c :: _ => isWhiteSpace c = false | [] => True end.

(** A computation every run of which moves the state along the relation
    [R], whether it returns or throws. *)
Definition steps {S A} (R : relation S) (m : M S A) : Prop :=
  forall s, R s (snd (m s)).

(** The states with the same component [f]. *)
Definition same {S F} (f : S -> F) : relation S := fun s s' => f s' = f s.

(** The result object only gains errors. *)
Definition errorsGrow {World : Type} : relation (NoteCopier.Run World) :=
  fun r r' =>
    publishedFiles (NoteCopier.result r') = publishedFiles (NoteCopier.result r)
    /\ skippedFiles (NoteCopier.result r') = skippedFiles (NoteCopier.result r)
    /\ exists new, errors (NoteCopier.result r') = errors (NoteCopier.result r) ++ new.

(** What a walk adds, copy by copy: the paths [pubs] that were published
    and the failures [fails], each a path with the error its copy threw;
    together they are the paths copied. *)
Definition accounts {World : Type} (r r' : NoteCopier.Run World) : Prop :=
  exists new pubs fails,
    NoteCopier.trace r' = NoteCopier.trace r ++ new
    /\ publishedFiles (NoteCopier.result r')
       = list_to_set pubs ∪ publishedFiles (NoteCopier.result r)
    /\ errors (NoteCopier.result r')
       = errors (NoteCopier.result r)
         ++ List.map (fun pm : jsstring * jsstring =>
                        js "Error processing " ++ fst pm ++ js ": "
                        ++ js "Failed to copy " ++ fst pm ++ js ": " ++ snd pm) fails
    /\ materialized new ≡ₚ pubs ++ List.map fst fails.

(** A vault in which [d] is three links from [root] through [a] and [x]
    and one link from [root] directly. *)
Definition vaultDeep : MemHost.world :=
  MemHost.vaultOf [(js "root.md", js "[[a]] [[d]]"); (js "a.md", js "[[x]]");
                   (js "x.md", js "[[d]]"); (js "d.md", js "leaf")] [].

(** The state of the walk with bound 2 in that vault after [root] has been
    copied and its first link has been followed. *)
Definition afterFirstLink : NoteCopier.Run MemHost.world :=
  let r1 := NoteCopier.entered (js "root.md") 0 (MemHost.start vaultDeep) in
  match NoteCopier.copyFileToTarget settings0 (MemHost.fileOf (js "root.md"))
          (NoteCopier.dev r1) with
  | (Ok _, dv) =>
      snd (NoteCopier.publishNoteRecursively settings0 3 (MemHost.fileOf (js "a.md")) 1 2
             (NoteCopier.copied (js "root.md") dv r1))
  | _ => r1
  end.

(** *** Notions about the dry-run scan *)

Section ScanNotions.
Context {World : Type} `{Host World}.
Variable settings : NSPublishSettings.t.

(** The link graph is static for the scan: in every state of the host that
    satisfies [Inv], the links enumerated for a document are those of the
    graph, and [Inv] is kept. *)
Definition staticScan (Inv : World -> Prop) (links : jsstring -> list TFile) : Prop :=
  forall file w, Inv w ->
    exists w', WikilinkParser.getLinkedFiles settings file w = (Ok (links (path file)), w')
               /\ Inv w'.

(** Every link of a visited document, the documents of [X] apart, is in
    [allLinkedFiles]. *)
Definition listed (links : jsstring -> list TFile) (X : gset jsstring)
    (s : WikilinkParser.Scan (World := World)) : Prop :=
  forall x, x ∈ WikilinkParser.visited s -> x ∉ X ->
    forall f, In f (links x) -> In f (WikilinkParser.allLinkedFiles s).

(** What a call of the helper on the documents [sources] at depth [d]
    establishes. *)
Definition scanned (Inv : World -> Prop) (links : jsstring -> list TFile)
    (maxDepth d : Z) (sources : list jsstring)
    (s s' : WikilinkParser.Scan (World := World)) : Prop :=
  Inv (WikilinkParser.app s')
  /\ WikilinkParser.visited s ⊆ WikilinkParser.visited s'
  /\ (exists more,
        WikilinkParser.allLinkedFiles s' = WikilinkParser.allLinkedFiles s ++ more
        /\ Forall (fun f => exists p k, In p sources /\ (1 <= k)%nat
                              /\ (d + Z.of_nat k <= maxDepth)%Z
                              /\ reach links k p (path f)) more)
  /\ (NoDup (WikilinkParser.allLinkedFiles s) -> NoDup (WikilinkParser.allLinkedFiles s'))
  /\ (forall X, listed links X s -> listed links X s')
  /\ ((d < maxDepth)%Z -> forall p, In p sources -> p ∈ WikilinkParser.visited s')
  /\ ((d + 1 < maxDepth)%Z -> forall p, In p sources -> p ∉ WikilinkParser.visited s ->
      forall g, In g (links p) -> path g ∈ WikilinkParser.visited s').

End ScanNotions.

(** The table of a scripted host with a cycle: [root] links to [a] and [a]
    links back to [root]. *)
Definition cycleNotes : list (jsstring * jsstring) :=
  [(js "root.md", js "[[a]]"); (js "a.md", js "[[root]]")].

(** *** Notions about the settings *)

(** A pattern as the settings tab stores it: not empty, without a comma and
    without white space at either end. *)
Definition cleanPattern (p : jsstring) : Prop :=
  p <> [] /\ ~ In (cu ",") p /\ trim p = p.

(** The settings that the tab keeps tidy. *)
Definition tidy (s : NSPublishSettings.t) : Prop :=
  (1 <= NSPublishSettings.maxDepth s <= 20)%Z
  /\ trim (NSPublishSettings.targetFolderPath s) = NSPublishSettings.targetFolderPath s
  /\ Forall cleanPattern (NSPublishSettings.excludePatterns s).

(** A store that keeps every object saved, for running the handlers. *)
#[global] Instance LogStorage : Storage (list NSPublishSettings.t) := {|
  saveData := fun s log => (Return tt, log ++ [s])
|}.

(** The decimal digits. *)
Definition isDigit (c : N) : Prop := (48 <= c <= 57)%N.

(** The digits of an identifier of an embedded file: [0-9] and [a-f]. *)
Definition isHexDigit (c : N) : Prop :=
  (cu "a" <= c <= cu "f")%N \/ (cu "0" <= c <= cu "9")%N.

(** An entry of the record of embedded files as the sources build it: it
    sits under its own identifier, which is a hexadecimal numeral, and its
    data URL starts with its media type. *)
Definition embeddedEntry (fileId : jsstring) (e : EmbeddedFileData) : Prop :=
  ef_id e = fileId
  /\ fileId <> [] /\ Forall isHexDigit fileId
  /\ ef_mimeType e <> []
  /\ hasPrefix (ef_dataURL e) (js "data:" ++ ef_mimeType e ++ js ";base64,").

(** The heading of the drawing section on a line of its own: a line break,
    [#] or [##], [ Drawing] and a line break. *)
Definition drawingHeading (marks : jsstring) : jsstring :=
  10 :: marks ++ js " Drawing" ++ [10].

(** A text on one line. *)
Definition oneLine (s : jsstring) : Prop := Forall (fun c => c <> 10 /\ c <> 13) s.

(** The run that the pattern for line breaks finds at the start of a text. *)
Definition lineBreakRun (s : jsstring) : option nat :=
  match s with
  | c :: _ => if (c =? 10) || (c =? 13) then Some 1%nat else None
  | [] => None
  end.

(** The path that the loop of [createFolderRecursively] holds after one more
    part. *)
Definition nextFolder (currentPath part : jsstring) : jsstring :=
  match currentPath with
  | [] => part
  | _ :: _ => JS.concat [currentPath; js "/"; part]
  end.

(** The units of an escaped path: those that [encodeURIComponent] keeps,
    the percent sign of an escape and the slash between the segments. *)
Definition urlUnit (c : N) : bool :=
  URI.unreserved c || (c =? cu "%") || (c =? cu "/").

Definition isSurrogate (c : N) : bool := URI.isLead c || URI.isTrail c.

(** * Properties *)

(** ** Checks of the string and pattern primitives *)

Example split_path : split 47 (js "a/b//c") = [js "a"; js "b"; js ""; js "c"].
Proof. reflexivity. Qed.

Example split_empty : split 47 [] = [[]].
Proof. reflexivity. Qed.

Example trim_spaces : trim (js "  a b  ") = js "a b".
Proof. reflexivity. Qed.

Example ofNat_12 : ofNat 12 = js "12".
Proof. vm_compute. reflexivity. Qed.

Example rx_greedy :
  option_map (matched (js "xaaab")) (exec false (Plus (Chr 97)) (js "xaaab") 0)
  = Some (js "aaa").
Proof. reflexivity. Qed.

Example rx_lazy :
  option_map (matched (js "aaab")) (exec false (Seq (Star false (Chr 97)) (Chr 98)) (js "aaab") 0)
  = Some (js "aaab").
Proof. reflexivity. Qed.

Example rx_replace_spaces :
  replaceAll false (Plus Space) (js "-") (js "a  b c") = js "a-b-c".
Proof. reflexivity. Qed.

Example encode_space : URI.encodeURIComponent (js "a b") = Some (js "a%20b").
Proof. reflexivity. Qed.

(* U+D55C, a Hangul syllable: three octets *)
Example encode_hangul : URI.encodeURIComponent [54620] = Some (js "%ED%95%9C").
Proof. reflexivity. Qed.

(* U+1F600 as a surrogate pair: four octets *)
Example encode_pair : URI.encodeURIComponent [55357; 56832] = Some (js "%F0%9F%98%80").
Proof. reflexivity. Qed.

Example encode_lone : URI.encodeURIComponent [55357] = None.
Proof. reflexivity. Qed.

Example friendly_ampersand : friendlySegment (js "A & B") = js "A--and--B".
Proof. reflexivity. Qed.

Example friendly_spaces : friendlySegment (js "note  name") = js "note-name".
Proof. reflexivity. Qed.

Example friendly_bare_ampersand : friendlySegment (js "a&b c") = js "a--and--b-c".
Proof. reflexivity. Qed.

(** ** Strings *)

Lemma startsWith_spec s p : startsWith s p = true <-> hasPrefix s p.
Proof.
  revert s. induction p as [|c p IH]; intros s; simpl.
  - destruct s; (split; [intros _; by eexists | done]).
  - destruct s as [|d s].
    + split; [done | intros [b Hb]; discriminate].
    + cbn [startsWith]. rewrite andb_true_iff, N.eqb_eq, IH. split.
      * intros [-> [b ->]]. by exists b.
      * intros [b Hb]. simpl in Hb. injection Hb as -> ->. split; [done | by exists b].
Qed.

Lemma includes_spec s p : includes s p = true <-> contains s p.
Proof.
  induction s as [|d s IH].
  - cbn [includes]. rewrite orb_false_r, startsWith_spec. split.
    + intros [b Hb]. by exists [], b.
    + intros [a [b Hab]]. destruct a; simpl in Hab.
      * by exists b.
      * discriminate.
  - cbn [includes]. rewrite orb_true_iff, startsWith_spec, IH. split.
    + intros [[b Hb] | [a [b Hab]]].
      * by exists [], b.
      * exists (d :: a), b. by rewrite Hab.
    + intros [a [b Hab]]. destruct a as [|x a]; simpl in Hab.
      * left. by exists b.
      * right. injection Hab as -> ->. by exists a, b.
Qed.

Lemma endsWith_spec s p : endsWith s p = true <-> exists a, s = a ++ p.
Proof.
  unfold endsWith. rewrite startsWith_spec. unfold hasPrefix. split.
  - intros [b Hb]. exists (rev b). apply (f_equal (@rev N)) in Hb.
    rewrite rev_involutive, rev_app_distr, rev_involutive in Hb. done.
  - intros [a ->]. exists (rev a). by rewrite rev_app_distr.
Qed.

Lemma split_nonempty sep s : split sep s <> [].
Proof.
  destruct s as [|c s]; simpl; [done|].
  destruct (c =? sep); [done|]. by destruct (split sep s).
Qed.

Lemma split_no_sep sep s seg : In seg (split sep s) -> ~ In sep seg.
Proof.
  revert seg. induction s as [|c s IH]; intros seg; simpl.
  - intros [<-|[]]. auto.
  - destruct (N.eqb_spec c sep) as [->|Hne].
    + intros [<-|Hin]; [auto | by apply IH].
    + destruct (split sep s) as [|seg0 segs] eqn:Hs.
      * intros [<-|[]]. intros [?|[]]. congruence.
      * intros [<-|Hin].
        -- intros [?|Hin]; [congruence|]. by apply (IH seg0); [left|].
        -- apply IH. by right.
Qed.

Lemma split_app_sep sep seg rest :
  ~ In sep seg -> split sep (seg ++ sep :: rest) = seg :: split sep rest.
Proof.
  induction seg as [|c seg IH]; intros Hno; simpl.
  - by rewrite N.eqb_refl.
  - destruct (N.eqb_spec c sep) as [->|Hne]; [exfalso; apply Hno; by left|].
    rewrite IH; [done|]. intros Hin. apply Hno. by right.
Qed.

Lemma split_single sep seg : ~ In sep seg -> split sep seg = [seg].
Proof.
  induction seg as [|c seg IH]; intros Hno; simpl; [done|].
  destruct (N.eqb_spec c sep) as [->|Hne]; [exfalso; apply Hno; by left|].
  rewrite IH; [done|]. intros Hin. apply Hno. by right.
Qed.

Lemma split_join sep (segs : list jsstring) :
  segs <> [] -> (forall seg, In seg segs -> ~ In sep seg) ->
  split sep (join sep segs) = segs.
Proof.
  induction segs as [|seg segs IH]; intros Hne Hno; [done|].
  destruct segs as [|seg' segs].
  - simpl. apply split_single. apply Hno. by left.
  - change (join sep (seg :: seg' :: segs)) with (seg ++ sep :: join sep (seg' :: segs)).
    rewrite split_app_sep by (apply Hno; by left).
    f_equal. apply IH; [done|]. intros s Hs. apply Hno. by right.
Qed.

(** [splice] keeps units of the text and of the replacement only. *)
Lemma In_slice (s : jsstring) a b c : In c (slice s a b) -> In c s.
Proof.
  unfold slice. rewrite <- !list_elem_of_In. intros Hin.
  apply (subseteq_drop a s). by apply (subseteq_take (b - a)).
Qed.

Lemma In_splice (s : jsstring) cur ms rep c :
  In c (splice s cur ms rep) -> In c s \/ In c rep.
Proof.
  revert cur. induction ms as [|m ms IH]; intros cur; simpl.
  - rewrite <- !list_elem_of_In. intros Hin. left. by apply (subseteq_drop cur s).
  - intros Hin. apply in_app_or in Hin as [Hin|Hin]; [left; by eapply In_slice|].
    apply in_app_or in Hin as [Hin|Hin]; [by right | by eapply IH].
Qed.

Lemma urlFriendlySegment_no_slash seg :
  ~ In (cu "/") seg -> ~ In (cu "/") (NoteCopier.urlFriendlySegment seg).
Proof.
  intros Hno Hin. unfold NoteCopier.urlFriendlySegment, replaceAll in Hin.
  apply In_splice in Hin as [Hin|Hin].
  - apply In_splice in Hin as [Hin|Hin]; [done|].
    vm_compute in Hin. intuition discriminate.
  - vm_compute in Hin. intuition discriminate.
Qed.

Lemma mapJoin_map f g segs :
  NoteCopier.mapJoin f (List.map g segs) = NoteCopier.mapJoin (fun seg => f (g seg)) segs.
Proof.
  induction segs as [|seg segs IH]; simpl; [done|]. by rewrite IH.
Qed.

Lemma js_inj s1 s2 : js s1 = js s2 -> s1 = s2.
Proof.
  unfold js. intros Heq.
  rewrite <- (string_of_list_ascii_of_string s1), <- (string_of_list_ascii_of_string s2).
  f_equal. revert Heq. generalize (list_ascii_of_string s1), (list_ascii_of_string s2).
  induction l as [|a l IH]; intros [|b l']; cbn; try done.
  intros [= Hab Hl]. f_equal; [|by apply IH].
  rewrite <- (ascii_N_embedding a), <- (ascii_N_embedding b). by rewrite Hab.
Qed.

Lemma ofNat_inj i j : ofNat i = ofNat j -> i = j.
Proof.
  unfold ofNat. intros Heq. apply js_inj in Heq.
  apply (inj pretty) in Heq. lia.
Qed.

Lemma candidate_inj baseName i j : candidate baseName i = candidate baseName j -> i = j.
Proof.
  unfold candidate, JS.concat.
  destruct i as [|i], j as [|j]; cbn [List.concat]; rewrite ?app_nil_r; intros Heq;
    apply app_inv_head in Heq; try done.
  apply app_inv_head in Heq. apply app_inv_tail in Heq. by apply ofNat_inj.
Qed.

Lemma candidatePath_inj folder baseName i j :
  candidatePath folder baseName i = candidatePath folder baseName j -> i = j.
Proof.
  unfold candidatePath, JS.concat. cbn [List.concat]. rewrite !app_nil_r.
  intros Heq. do 2 apply app_inv_head in Heq. by eapply candidate_inj.
Qed.

(** ** Regular expressions of the sources *)

Lemma match_at_md s i :
  match_at false NoteCopier.mdExtensionRegex s i =
  if bool_decide (skipn i s = js ".md") then Some (RMatch i (S (S (S i))) []) else None.
Proof.
  unfold match_at, NoteCopier.mdExtensionRegex. cbn [Cat Lit js List.map list_ascii_of_string run m_rest m_pos m_caps step].
  destruct (skipn i s) as [|a [|b [|c [|d t]]]]; cbn;
    repeat match goal with
    | |- context [N.eqb ?x ?y] => destruct (N.eqb_spec x y); subst; cbn
    end; try done; rewrite ?bool_decide_eq_false_2; try done; try congruence.
Qed.

Lemma search_from_none ic r s from n :
  (forall i, (from <= i <= from + n)%nat -> match_at ic r s i = None) ->
  search_from ic r s from n = None.
Proof.
  revert from. induction n as [|n IH]; intros from Hnone; cbn [search_from].
  - by rewrite Hnone by lia.
  - rewrite Hnone by lia. apply IH. intros i Hi. apply Hnone. lia.
Qed.

Lemma search_from_first ic r s from n i0 m :
  (from <= i0 <= from + n)%nat ->
  (forall i, (from <= i < i0)%nat -> match_at ic r s i = None) ->
  match_at ic r s i0 = Some m ->
  search_from ic r s from n = Some m.
Proof.
  revert from. induction n as [|n IH]; intros from Hi0 Hnone Hm; cbn [search_from].
  - assert (i0 = from) as -> by lia. by rewrite Hm.
  - destruct (decide (i0 = from)) as [->|Hne]; [by rewrite Hm|].
    rewrite Hnone by lia. apply IH; [lia | | done]. intros i Hi. apply Hnone. lia.
Qed.

Lemma replaceFirst_md p :
  replaceFirst false NoteCopier.mdExtensionRegex [] p = stripMd p.
Proof.
  unfold replaceFirst, stripMd, exec.
  assert (Nat.ltb (length p) 0 = false) as -> by (apply Nat.ltb_ge; lia).
  rewrite Nat.sub_0_r.
  destruct (endsWith p (js ".md")) eqn:Hend.
  - apply endsWith_spec in Hend as [a ->].
    rewrite (search_from_first _ _ _ _ _ (length a) (RMatch (length a) (S (S (S (length a)))) [])).
    + cbn [splice r_start r_end]. unfold slice.
      rewrite length_app. change (length (js ".md")) with 3%nat.
      replace (length a + 3 - 3)%nat with (length a) by lia.
      rewrite Nat.sub_0_r. cbn [skipn].
      rewrite (skipn_all2 (n := S (S (S (length a))))).
      * by rewrite !app_nil_r.
      * rewrite length_app. change (length (js ".md")) with 3%nat. lia.
    + rewrite length_app. lia.
    + intros i Hi. rewrite match_at_md. rewrite bool_decide_eq_false_2; [done|].
      intros Heq. apply (f_equal (@length N)) in Heq.
      rewrite length_skipn, length_app in Heq. change (length (js ".md")) with 3%nat in Heq. lia.
    + rewrite match_at_md. rewrite bool_decide_eq_true_2; [done|].
      by rewrite skipn_app, skipn_all, Nat.sub_diag.
  - rewrite search_from_none; [done|]. intros i Hi. rewrite match_at_md.
    rewrite bool_decide_eq_false_2; [done|]. intros Heq.
    assert (endsWith p (js ".md") = true); [|congruence].
    apply endsWith_spec. exists (firstn i p). by rewrite <- Heq, firstn_skipn.
Qed.

(** ** The patterns of the URL are scans from left to right *)

Lemma orElse_None_r {A} (a : option A) : orElse a None = a.
Proof. by destruct a. Qed.

Lemma run_space ic k i rest caps :
  run ic Space (MState i rest caps) k
  = match rest with
    | x :: t => if isWhiteSpace x then k (MState (S i) t caps) else None
    | [] => None
    end.
Proof.
  cbn [run Space m_rest]. destruct rest as [|x t]; [done|].
  cbn. by rewrite orb_false_r.
Qed.

Lemma star_loop_space ic k rest : forall n i caps,
  (length rest < n)%nat ->
  star_loop true (run ic Space) k n (MState i rest caps) = greedySpaces k i rest caps.
Proof.
  induction rest as [|x t IH]; intros n i caps Hn;
    (destruct n as [|n]; [cbn in Hn; lia|]); cbn [star_loop greedySpaces].
  - by rewrite run_space.
  - rewrite run_space. destruct (isWhiteSpace x); [|done].
    cbn [m_pos]. replace (Nat.eqb (S i) i) with false by (symmetry; apply Nat.eqb_neq; lia).
    rewrite IH by (cbn in Hn; lia). done.
Qed.

Lemma run_star_space ic k i rest caps :
  run ic (Star true Space) (MState i rest caps) k = greedySpaces k i rest caps.
Proof. cbn [run m_rest]. apply star_loop_space. lia. Qed.

(** With a continuation that always succeeds the whole run is taken. *)
Lemma greedySpaces_Some i rest caps :
  greedySpaces Some i rest caps
  = Some (MState (i + spaces rest) (skipn (spaces rest) rest) caps).
Proof.
  revert i. induction rest as [|x t IH]; intros i; cbn [greedySpaces spaces].
  - by rewrite Nat.add_0_r.
  - destruct (isWhiteSpace x).
    + rewrite IH. cbn [orElse skipn]. do 2 f_equal. lia.
    + by rewrite Nat.add_0_r.
Qed.

(** With a continuation that fails on white space only the whole run is
    tried with success. *)
Lemma greedySpaces_strict k i rest caps :
  (forall j x t, isWhiteSpace x = true -> k (MState j (x :: t) caps) = None) ->
  greedySpaces k i rest caps
  = k (MState (i + spaces rest) (skipn (spaces rest) rest) caps).
Proof.
  intros Hk. revert i. induction rest as [|x t IH]; intros i; cbn [greedySpaces spaces].
  - by rewrite Nat.add_0_r.
  - destruct (isWhiteSpace x) eqn:Hx.
    + rewrite IH, Hk, orElse_None_r by done. cbn [skipn]. do 2 f_equal. lia.
    + by rewrite Nat.add_0_r.
Qed.


Lemma ampersand_not_space : isWhiteSpace (cu "&") = false.
Proof. reflexivity. Qed.

Lemma match_at_ampersand s i :
  span (match_at false NoteCopier.ampersandRegex s i)
  = option_map (fun n => (i, (i + n)%nat)) (ampersandRun (skipn i s)).
Proof.
  unfold match_at, NoteCopier.ampersandRegex, ampersandRun.
  cbn [Cat]. cbn [run]. fold Space. 
  change (star_loop true (run false Space) ?k (S (length (m_rest ?st))) ?st)
    with (run false (Star true Space) st k).
  rewrite run_star_space.
  rewrite greedySpaces_strict.
  2:{ intros j x t Hx. cbn [m_rest]. unfold canon. cbn [andb].
      destruct (N.eqb_spec x (cu "&")) as [->|Hne]; [|done].
      by rewrite ampersand_not_space in Hx. }
  cbn [m_rest m_pos m_caps].
  destruct (skipn (spaces (skipn i s)) (skipn i s)) as [|c rest]; [done|].
  unfold canon. cbn [andb]. destruct (c =? cu "&"); [|done].
  unfold step. cbn [m_pos m_caps m_rest].
  change (star_loop true (run false Space) Some (S (length rest)) ?st)
    with (run false (Star true Space) (MState (S (i + spaces (skipn i s))) rest []) Some).
  rewrite run_star_space, greedySpaces_Some. cbn. do 2 f_equal. lia.
Qed.

Lemma match_at_spaces s i :
  span (match_at false NoteCopier.spacesRegex s i)
  = option_map (fun n => (i, (i + n)%nat)) (spaceRun (skipn i s)).
Proof.
  unfold match_at, NoteCopier.spacesRegex, Plus, spaceRun.
  cbn [run]. rewrite run_space.
  destruct (skipn i s) as [|x t]; [done|]. cbn [spaces].
  destruct (isWhiteSpace x); [|done].
  change (star_loop true (run false Space) Some (S (length (m_rest ?st))) ?st)
    with (run false (Star true Space) st Some).
  rewrite run_star_space, greedySpaces_Some. cbn. do 2 f_equal. lia.
Qed.

(** ** Global replacement is a scan from left to right *)

Lemma match_at_start ic r s i m : match_at ic r s i = Some m -> r_start m = i.
Proof.
  unfold match_at. destruct (run ic r _ Some); [|done]. by intros [= <-].
Qed.

Lemma search_from_start ic r s from n m :
  search_from ic r s from n = Some m -> (from <= r_start m)%nat.
Proof.
  revert from. induction n as [|n IH]; intros from; cbn [search_from];
    destruct (match_at ic r s from) as [m0|] eqn:Hm.
  - intros [= <-]. apply match_at_start in Hm. lia.
  - done.
  - intros [= <-]. apply match_at_start in Hm. lia.
  - intros Hs. apply IH in Hs. lia.
Qed.

Lemma slice_empty (s : jsstring) a : slice s a a = [].
Proof. unfold slice. by rewrite Nat.sub_diag. Qed.

Lemma slice_cons (s : jsstring) a b c t :
  skipn a s = c :: t -> (S a <= b)%nat -> slice s a b = c :: slice s (S a) b.
Proof.
  intros Hskip Hb. unfold slice. rewrite Hskip.
  replace (b - a)%nat with (S (b - S a)) by lia. cbn [firstn]. f_equal.
  replace (skipn (S a) s) with t; [done|].
  change (S a) with (1 + a)%nat. by rewrite <- skipn_skipn, Hskip.
Qed.

Section Scan.
Variables (ic : bool) (r : regex) (rep : jsstring) (runf : jsstring -> option nat).
Hypothesis Hmatch : forall s i,
  span (match_at ic r s i) = option_map (fun n => (i, (i + n)%nat)) (runf (skipn i s)).
Hypothesis Hrun : forall s n, runf s = Some n -> (0 < n <= length s)%nat.

Lemma scan_positions s : forall d from fuel fuel2,
  (from + d = length s)%nat -> (d < fuel)%nat -> (d <= fuel2)%nat ->
  splice s from (matches_from ic r s from fuel) rep
  = replaceRuns runf rep fuel2 (skipn from s).
Proof using Hmatch Hrun.
  induction d as [d IH] using lt_wf_ind. intros from fuel fuel2 Hlen Hfuel Hfuel2.
  destruct fuel as [|fuel]; [lia|]. cbn [matches_from]. unfold exec.
  replace (Nat.ltb (length s) from) with false by (symmetry; apply Nat.ltb_ge; lia).
  pose proof (Hmatch s from) as Hm.
  destruct (runf (skipn from s)) as [n|] eqn:Hr.
  - (* a run starts here *)
    destruct (Hrun _ _ Hr) as [Hpos Hle]. rewrite length_skipn in Hle.
    destruct (match_at ic r s from) as [m|] eqn:Hat; [|done].
    injection Hm as Hstart Hend.
    assert (search_from ic r s from (length s - from) = Some m) as ->.
    { destruct (length s - from)%nat; cbn [search_from]; by rewrite Hat. }
    replace (Nat.eqb (r_end m) (r_start m)) with false
      by (symmetry; apply Nat.eqb_neq; lia).
    cbn [splice]. rewrite Hstart, slice_empty, Hend. cbn [app].
    destruct fuel2 as [|fuel2]; [lia|]. cbn [replaceRuns]. rewrite Hr. f_equal.
    rewrite skipn_skipn, (Nat.add_comm n from).
    apply (IH (d - n)%nat); lia.
  - (* no run starts here *)
    destruct (match_at ic r s from) as [m|] eqn:Hat; [done|].
    destruct d as [|d].
    + (* the end of the text *)
      replace (length s - from)%nat with O by lia. cbn [search_from]. rewrite Hat.
      cbn [splice]. rewrite skipn_all2 by lia.
      destruct fuel2; cbn [replaceRuns]; [done|].
      destruct (runf []) as [n|] eqn:Hnil; [|done].
      apply Hrun in Hnil. cbn in Hnil. lia.
    + replace (length s - from)%nat with (S d) by lia. cbn [search_from]. rewrite Hat.
      destruct (skipn from s) as [|c t] eqn:Hskip.
      { apply (f_equal (@length N)) in Hskip. rewrite length_skipn in Hskip. cbn in Hskip. lia. }
      assert (skipn (S from) s = t) as Hnext.
      { change (S from) with (1 + from)%nat. by rewrite <- skipn_skipn, Hskip. }
      destruct fuel2 as [|fuel2]; [lia|]. cbn [replaceRuns]. rewrite Hr.
      rewrite <- Hnext, <- (IH d (Nat.lt_succ_diag_r d) (S from) (S fuel) fuel2) by lia.
      cbn [matches_from]. unfold exec.
      replace (Nat.ltb (length s) (S from)) with false by (symmetry; apply Nat.ltb_ge; lia).
      replace (length s - S from)%nat with d by lia.
      destruct (search_from ic r s (S from) d) as [m|] eqn:Hsearch.
      * apply search_from_start in Hsearch. cbn [splice].
        by rewrite (slice_cons s from (r_start m) c t).
      * cbn [splice]. by rewrite Hskip, Hnext.
Qed.

Lemma replaceAll_scan s :
  replaceAll ic r rep s = replaceRuns runf rep (length s) s.
Proof using Hmatch Hrun.
  unfold replaceAll, matchAll.
  rewrite (scan_positions s (length s) 0 (S (length s)) (length s)) by lia. done.
Qed.

End Scan.

Lemma spaces_le s : (spaces s <= length s)%nat.
Proof. induction s as [|c t IH]; cbn; [lia|]. destruct (isWhiteSpace c); cbn; lia. Qed.

Lemma ampersandRun_bounds s n : ampersandRun s = Some n -> (0 < n <= length s)%nat.
Proof.
  unfold ampersandRun. destruct (skipn (spaces s) s) as [|c rest] eqn:Hskip; [done|].
  destruct (c =? cu "&"); [|done]. intros [= <-].
  apply (f_equal (@length N)) in Hskip. rewrite length_skipn in Hskip. cbn in Hskip.
  pose proof (spaces_le rest). lia.
Qed.

Lemma spaceRun_bounds s n : spaceRun s = Some n -> (0 < n <= length s)%nat.
Proof.
  unfold spaceRun. pose proof (spaces_le s). destruct (spaces s); [done|].
  intros [= <-]. lia.
Qed.


Lemma urlFriendlySegment_scan segment :
  NoteCopier.urlFriendlySegment segment = friendlySegment segment.
Proof.
  unfold NoteCopier.urlFriendlySegment, friendlySegment.
  rewrite (replaceAll_scan false NoteCopier.ampersandRegex (js "--and--") ampersandRun
             match_at_ampersand ampersandRun_bounds).
  by rewrite (replaceAll_scan false NoteCopier.spacesRegex (js "-") spaceRun
                match_at_spaces spaceRun_bounds).
Qed.

Lemma mapJoin_ext f g segs :
  (forall seg, f seg = g seg) -> NoteCopier.mapJoin f segs = NoteCopier.mapJoin g segs.
Proof.
  intros Hfg. induction segs as [|seg segs IH]; cbn [NoteCopier.mapJoin]; [done|].
  by rewrite Hfg, IH.
Qed.

(** ** Computations that do not starve *)

Section Total.
Context {S : Type}.

Lemma total_ret {A} (a : A) : total (S := S) (ret a).
Proof. by intros s. Qed.

Lemma total_throw {A} e : total (S := S) (A := A) (throw e).
Proof. by intros s. Qed.

Lemma total_gets {A} (f : S -> A) : total (gets f).
Proof. by intros s. Qed.

Lemma total_modify (f : S -> S) : total (modify f).
Proof. by intros s. Qed.

Lemma total_lift {A} (m : IO S A) : total (lift m).
Proof. intros s. unfold lift. by destruct (m s) as [[a|e] s']. Qed.

Lemma total_bind {A B} (m : M S A) (k : A -> M S B) :
  total m -> (forall a, total (k a)) -> total (bind m k).
Proof.
  intros Hm Hk s. unfold bind. specialize (Hm s).
  destruct (m s) as [[a|e|] s']; [apply Hk | done | done].
Qed.

Lemma total_try_catch {A} (m : M S A) (h : jsstring -> M S A) :
  total m -> (forall e, total (h e)) -> total (try_catch m h).
Proof.
  intros Hm Hh s. unfold try_catch. specialize (Hm s).
  destruct (m s) as [[a|e|] s']; [done | apply Hh | done].
Qed.

Lemma total_finally {A} (m : M S A) (f : M S unit) :
  total m -> total f -> total (finally m f).
Proof.
  intros Hm Hf s. unfold finally. specialize (Hm s).
  destruct (m s) as [[a|e|] s']; [| |done]; specialize (Hf s');
    by destruct (f s') as [[[]|e'|] s''].
Qed.

Lemma total_zoom {T A} (proj : T -> S) (inj : S -> T -> T) (m : M S A) :
  total m -> total (zoom proj inj m).
Proof.
  intros Hm t. unfold zoom. specialize (Hm (proj t)). by destruct (m (proj t)).
Qed.

Lemma total_for_fold {A B} (xs : list A) (acc : B) (body : B -> A -> M S B) :
  (forall b a, total (body b a)) -> total (for_fold xs acc body).
Proof.
  intros Hbody. revert acc. induction xs as [|x xs IH]; intros acc; cbn [for_fold].
  - apply total_ret.
  - apply total_bind; [apply Hbody | apply IH].
Qed.

Lemma total_for_each {A} (xs : list A) (body : A -> M S unit) :
  (forall a, total (body a)) -> total (for_each xs body).
Proof.
  intros Hbody. induction xs as [|x xs IH]; cbn [for_each].
  - apply total_ret.
  - apply total_bind; [apply Hbody | intros _; apply IH].
Qed.

End Total.

Create HintDb total discriminated.
#[global] Hint Resolve total_ret total_throw total_gets total_modify total_lift
  total_bind total_try_catch total_finally total_zoom total_for_fold total_for_each : total.

Ltac total_step :=
  first
    [ apply total_ret | apply total_throw | apply total_gets | apply total_modify
    | apply total_lift | apply total_zoom | apply total_for_fold | apply total_for_each
    | apply total_bind | apply total_try_catch | apply total_finally ].

Ltac total_auto :=
  repeat (intros; first
    [ total_step
    | match goal with
      | |- total (match ?x with _ => _ end) => destruct x
      | |- total (if ?b then _ else _) => destruct b
      | |- total (let _ := _ in _) => cbv zeta
      end ]).

(** ** The names tried for an image file *)

Section Naming.
Context {World : Type} `{Host World}.

Lemma freeImageName_none fuel w baseName folder j :
  ExcalidrawUtil.freeImageName fuel w baseName folder (candidate baseName j)
    (candidatePath folder baseName j) (Datatypes.S j) = None ->
  forall i, (j <= i <= j + fuel)%nat ->
    is_Some (vault_getAbstractFileByPath w (candidatePath folder baseName i)).
Proof.
  revert j. induction fuel as [|fuel IH]; intros j; cbn [ExcalidrawUtil.freeImageName].
  - destruct (vault_getAbstractFileByPath w (candidatePath folder baseName j)) eqn:Hj; [|done].
    intros _ i Hi. assert (i = j) as -> by lia. by rewrite Hj.
  - destruct (vault_getAbstractFileByPath w (candidatePath folder baseName j)) eqn:Hj; [|done].
    intros Hnone i Hi. destruct (decide (i = j)) as [->|Hne]; [by rewrite Hj|].
    apply (IH (Datatypes.S j)); [exact Hnone | lia].
Qed.

(** The search finds a free name: the names tried are pairwise different
    and the vault holds finitely many paths. *)
Lemma freeImageName_some w baseName folder :
  ExcalidrawUtil.freeImageName (length (vault_paths w)) w baseName folder
    (JS.concat [baseName; js ".png"])
    (JS.concat [folder; js "/"; JS.concat [baseName; js ".png"]]) 1 <> None.
Proof.
  intros Hnone. pose proof (freeImageName_none _ w baseName folder 0%nat Hnone) as Hall.
  set (n := length (vault_paths w)) in *.
  set (cands := List.map (candidatePath folder baseName) (seq 0 (Datatypes.S n))).
  assert (NoDup cands) as Hnd.
  { apply NoDup_fmap_2; [|apply NoDup_seq]. intros i j. apply candidatePath_inj. }
  assert (cands ⊆ vault_paths w) as Hsub.
  { intros p Hp. apply list_elem_of_fmap in Hp as [i [-> Hi]].
    apply elem_of_seq in Hi. apply list_elem_of_In, vault_paths_complete, Hall. lia. }
  apply NoDup_submseteq in Hsub; [|done].
  apply submseteq_length in Hsub. unfold cands in Hsub.
  rewrite length_map, length_seq in Hsub. lia.
Qed.

(** The name found is the first of the candidates that is not in the
    vault. *)
Lemma freeImageName_first fuel w baseName folder j imageFileName filePath :
  ExcalidrawUtil.freeImageName fuel w baseName folder (candidate baseName j)
    (candidatePath folder baseName j) (S j) = Some (imageFileName, filePath) ->
  exists i, (j <= i)%nat
    /\ imageFileName = candidate baseName i
    /\ filePath = candidatePath folder baseName i
    /\ vault_getAbstractFileByPath w filePath = None
    /\ forall i', (j <= i' < i)%nat ->
         is_Some (vault_getAbstractFileByPath w (candidatePath folder baseName i')).
Proof.
  revert j. induction fuel as [|fuel IH]; intros j; cbn [ExcalidrawUtil.freeImageName];
    destruct (vault_getAbstractFileByPath w (candidatePath folder baseName j)) eqn:Hj.
  - done.
  - intros [= <- <-]. exists j. repeat split; [lia | done | intros i' Hi'; lia].
  - intros Hfound. destruct (IH (S j) Hfound) as (i & Hi & Hname & Hpath & Hfree & Hbefore).
    exists i. repeat split; [lia | done..|].
    intros i' Hi'. destruct (decide (i' = j)) as [->|Hne]; [by rewrite Hj|].
    apply Hbefore. lia.
  - intros [= <- <-]. exists j. repeat split; [lia | done | intros i' Hi'; lia].
Qed.

End Naming.

(** ** The exclusion filter *)

Section Excl.
Context {World : Type} `{Host World}.
Variable settings : NSPublishSettings.t.


Lemma patternMatches_spec linkText pattern :
  WikilinkParser.patternMatches linkText pattern = true <-> excludes pattern linkText.
Proof.
  unfold WikilinkParser.patternMatches, excludes.
  destruct (new_RegExp pattern); [done | apply includes_spec].
Qed.

Lemma isExcluded_iff linkText :
  WikilinkParser.isExcluded settings linkText = true <->
  exists pattern, In pattern (NSPublishSettings.excludePatterns settings)
                  /\ excludes pattern linkText.
Proof.
  unfold WikilinkParser.isExcluded. rewrite existsb_exists.
  split; intros [p [Hin Hp]]; exists p; (split; [done|]); by apply patternMatches_spec.
Qed.

Lemma bind_ret {S A B} (a : A) (k : A -> M S B) s : bind (ret a) k s = k a s.
Proof. reflexivity. Qed.

Lemma followLink_excluded file acc linkText :
  WikilinkParser.isExcluded settings linkText = true ->
  WikilinkParser.followLink settings file acc linkText = ret acc.
Proof. unfold WikilinkParser.followLink. by intros ->. Qed.

Lemma for_fold_excluded file texts acc w :
  for_fold texts acc (WikilinkParser.followLink settings file) w =
  for_fold (List.filter (fun t => negb (WikilinkParser.isExcluded settings t)) texts) acc
           (WikilinkParser.followLink settings file) w.
Proof.
  revert acc w. induction texts as [|t texts IH]; intros acc w; [done|].
  cbn [for_fold List.filter].
  destruct (WikilinkParser.isExcluded settings t) eqn:Hex; cbn [negb for_fold].
  - rewrite followLink_excluded by done. rewrite bind_ret. apply IH.
  - unfold bind. destruct (WikilinkParser.followLink settings file acc t w) as [[a|e|] w']; [apply IH|done..].
Qed.

Lemma followLink_allowed file acc t w acc' w' :
  WikilinkParser.followLink settings file acc t w = (Ok acc', w') ->
  forall f, In f acc' -> In f acc \/
    (WikilinkParser.isExcluded settings t = false
     /\ getFirstLinkpathDest w t (path file) = Some f
     /\ extension f = js "md").
Proof.
  unfold WikilinkParser.followLink.
  destruct (WikilinkParser.isExcluded settings t) eqn:Hex.
  - intros [= <- <-]. auto.
  - unfold bind, gets, ret.
    destruct (getFirstLinkpathDest w t (path file)) as [lf|] eqn:Hres; [|intros [= <- <-]; auto].
    destruct (bool_decide (extension lf = js "md")) eqn:Hext; [|intros [= <- <-]; auto].
    apply bool_decide_eq_true in Hext.
    destruct (WikilinkParser.isExcalidrawFile lf file w) as [[[]|e|] w1]; intros [= <- <-]; auto.
    intros f Hf. apply in_app_or in Hf as [Hf|[<-|[]]]; auto.
Qed.
End Excl.

(** ** The copy and the link enumeration do not starve *)

Section CopyTotal.
Context {World : Type} `{Host World}.
Variable settings : NSPublishSettings.t.

Lemma total_exportExcalidrawToImage fileName currentFile :
  total (ExcalidrawUtil.exportExcalidrawToImage fileName currentFile).
Proof.
  unfold ExcalidrawUtil.exportExcalidrawToImage.
  apply total_bind; [apply total_gets|]. intros [file|]; [|apply total_ret].
  apply total_try_catch; [|intros; apply total_ret].
  apply total_bind; [total_auto|]. intros excalidrawContent.
  destruct (ExcalidrawUtil.decompressExcalidrawContent excalidrawContent) as [[|c dc]|];
    try apply total_ret.
  destruct (parse_elements (c :: dc)) as [elements|]; [|apply total_throw].
  apply total_bind; [unfold ExcalidrawUtil.getExcalidrawEmbeddedFiles; total_auto|].
  intros embeddedFiles.
  apply total_bind; [total_auto|]. intros [blob|]; [|apply total_ret].
  apply total_bind; [apply total_gets|]. intros tfp.
  apply total_bind; [total_auto|].
  intros _ st. unfold bind at 1, gets at 1.
  match goal with
  | |- context [ExcalidrawUtil.freeImageName ?f ?w ?b ?d ?n ?p ?c] =>
      pose proof (freeImageName_some w b d) as Hfree;
      destruct (ExcalidrawUtil.freeImageName f w b d n p c) as [[nm fp]|]
  end; [|done].
  match goal with |- fst (?m ?s) <> Starved => generalize s; change (total m) end.
  total_auto.
Qed.

Lemma total_processNoteContent content currentFile :
  total (ExcalidrawUtil.processNoteContent content currentFile).
Proof.
  unfold ExcalidrawUtil.processNoteContent.
  apply total_for_fold. intros processedContent m.
  apply total_try_catch; [|intros; apply total_ret].
  apply total_bind; [unfold ExcalidrawUtil.isExcalidrawFile; total_auto|].
  intros [|]; [|apply total_ret].
  apply total_bind; [apply total_exportExcalidrawToImage|]. total_auto.
Qed.

Lemma total_copyFileToTarget file : total (NoteCopier.copyFileToTarget settings file).
Proof.
  unfold NoteCopier.copyFileToTarget.
  apply total_try_catch; [|intros; apply total_throw].
  apply total_bind; [total_auto|]. intros content.
  apply total_bind; [unfold NoteCopier.ensureTargetFolderExists; total_auto|]. intros _.
  apply total_bind; [apply total_gets|]. intros existingFile.
  apply total_bind; [total_auto|]. intros targetFile.
  unfold NoteCopier.processExcalidrawContent.
  apply total_try_catch; [|intros; apply total_ret].
  apply total_bind; [total_auto|]. intros _.
  apply total_bind; [total_auto|]. intros c.
  apply total_bind; [apply total_processNoteContent|]. total_auto.
Qed.

(** [copyFileToTarget] returns or throws. *)
Lemma copyFileToTarget_cases file dv :
  (exists dv', NoteCopier.copyFileToTarget settings file dv = (Ok tt, dv'))
  \/ (exists message dv', NoteCopier.copyFileToTarget settings file dv = (Throw message, dv')).
Proof.
  pose proof (total_copyFileToTarget file dv) as Htot.
  destruct (NoteCopier.copyFileToTarget settings file dv) as [[[]|message|] dv'];
    [left | right | done]; eauto.
Qed.

(** [copyFileToTarget] wraps what it throws. *)
Lemma copyFileToTarget_message file dv message dv' :
  NoteCopier.copyFileToTarget settings file dv = (Throw message, dv') ->
  exists inner, message = JS.concat [js "Failed to copy "; path file; js ": "; inner].
Proof.
  unfold NoteCopier.copyFileToTarget, try_catch.
  match goal with |- context [match ?m dv with _ => _ end] => destruct (m dv) as [[a|e|] s'] end;
    try done.
  unfold throw. intros [= <- <-]. by exists e.
Qed.

(** [getLinkedFiles] always returns a list. *)
Lemma getLinkedFiles_returns file w :
  exists linkedFiles w', WikilinkParser.getLinkedFiles settings file w = (Ok linkedFiles, w').
Proof.
  assert (total (WikilinkParser.getLinkedFiles settings file)) as Htot.
  { unfold WikilinkParser.getLinkedFiles, WikilinkParser.followLink,
      WikilinkParser.isExcalidrawFile. total_auto. }
  specialize (Htot w). revert Htot.
  unfold WikilinkParser.getLinkedFiles, try_catch.
  match goal with |- context [match ?m w with _ => _ end] => destruct (m w) as [[a|e|] s'] end;
    [eauto | unfold ret; eauto | done].
Qed.

End CopyTotal.

(** ** The walk function computes the walk relation *)

Ltac walk_unfold :=
  cbv beta iota zeta delta
    [bind ret gets modify finally try_catch zoom NoteCopier.log NoteCopier.set_result
     NoteCopier.on_dev NoteCopier.on_app ExcalidrawUtil.on_app];
  cbn [NoteCopier.dev NoteCopier.result NoteCopier.visited NoteCopier.processing
       NoteCopier.trace fst snd].

Tactic Notation "walk_unfold" "in" hyp(H) :=
  cbv beta iota zeta delta
    [bind ret gets modify finally try_catch zoom NoteCopier.log NoteCopier.set_result
     NoteCopier.on_dev NoteCopier.on_app ExcalidrawUtil.on_app] in H;
  cbn [NoteCopier.dev NoteCopier.result NoteCopier.visited NoteCopier.processing
       NoteCopier.trace fst snd] in H.

Section WalkRun.
Context {World : Type} `{Host World}.
Variable settings : NSPublishSettings.t.
Variable maxDepth : Z.

Abbreviation walkfn := (NoteCopier.publishNoteRecursively settings).

Lemma walk_each_run (step : TFile -> M (NoteCopier.Run World) unit) d :
  (forall file r, exists r', step file r = (Ok tt, r')
                             /\ NoteCopier.walk settings maxDepth file d r r') ->
  forall files r, exists r', for_each files step r = (Ok tt, r')
                             /\ NoteCopier.walk_each settings maxDepth files d r r'.
Proof.
  intros Hstep files. induction files as [|file files IH]; intros r.
  - exists r. split; [done | constructor].
  - destruct (Hstep file r) as [r1 [Hrun1 Hwalk1]].
    destruct (IH r1) as [r2 [Hrun2 Hwalk2]].
    exists r2. split; [|by econstructor].
    cbn [for_each]. unfold bind. by rewrite Hrun1.
Qed.

Lemma seen_decide p (r : NoteCopier.Run World) :
  bool_decide (p ∈ NoteCopier.visited r) || bool_decide (p ∈ NoteCopier.processing r) = true
  <-> NoteCopier.seen p r.
Proof.
  unfold NoteCopier.seen. rewrite orb_true_iff, !bool_decide_eq_true. done.
Qed.

Lemma walk_run fuel file d r :
  (Z.to_nat (maxDepth + 1 - d) < fuel)%nat ->
  exists r', walkfn fuel file d maxDepth r = (Ok tt, r')
             /\ NoteCopier.walk settings maxDepth file d r r'.
Proof.
  revert file d r. induction fuel as [|fuel IH]; intros file d r Hfuel; [lia|].
  cbn [NoteCopier.publishNoteRecursively].
  unfold bind at 1, gets at 1.
  destruct (bool_decide (path file ∈ NoteCopier.visited r)
            || bool_decide (path file ∈ NoteCopier.processing r)) eqn:Hseen.
  { apply seen_decide in Hseen. exists r. split; [done | by constructor]. }
  assert (~ NoteCopier.seen (path file) r) as Hfresh.
  { rewrite <- seen_decide. by rewrite Hseen. }
  destruct (Z.ltb_spec maxDepth d) as [Hdeep|Hin].
  { exists (NoteCopier.skipped (path file) d r).
    split; [reflexivity | by apply NoteCopier.walk_skip]. }
  set (p := path file).
  destruct (copyFileToTarget_cases settings file (NoteCopier.dev r))
    as [[dv Hcopy] | [message [dv Hcopy]]].
  - destruct (getLinkedFiles_returns settings file (fst dv)) as [linkedFiles [w Hlinks]].
    destruct (walk_each_run (fun linkedFile => walkfn fuel linkedFile (d + 1)%Z maxDepth)
                (d + 1)%Z) with (files := linkedFiles)
        (r := NoteCopier.copied p (w, snd dv) (NoteCopier.entered p d r))
      as [r' [Hrun Hwalk]].
    { intros f r0. apply IH. lia. }
    exists (NoteCopier.finished p r'). split; [|by eapply NoteCopier.walk_ok].
    walk_unfold. rewrite Hcopy. walk_unfold. rewrite Hlinks. walk_unfold.
    unfold NoteCopier.copied, NoteCopier.entered in Hrun. walk_unfold in Hrun.
    fold p. rewrite Hrun. reflexivity.
  - exists (NoteCopier.finished p (NoteCopier.failed p message dv (NoteCopier.entered p d r))).
    split; [|by eapply NoteCopier.walk_fail].
    walk_unfold. rewrite Hcopy. reflexivity.
Qed.

End WalkRun.

(** ** Invariants of the walk *)

#[local] Set Warnings "-clear-no-such-hyp".

Lemma materialized_app t1 t2 : materialized (t1 ++ t2) = materialized t1 ++ materialized t2.
Proof. unfold materialized. by rewrite map_app, concat_app. Qed.

Lemma skips_app t1 t2 : skips (t1 ++ t2) = skips t1 ++ skips t2.
Proof. unfold skips. by rewrite map_app, concat_app. Qed.

Lemma event_ok_weaken maxDepth d d' e :
  (d <= d')%Z -> event_ok maxDepth d' e -> event_ok maxDepth d e.
Proof. destruct e; cbn; lia. Qed.

(** Beyond the bound nothing is copied. *)
Lemma materialized_beyond maxDepth d new :
  (maxDepth < d)%Z -> Forall (event_ok maxDepth d) new -> materialized new = [].
Proof.
  intros Hd Hok. induction Hok as [|e new He _ IH]; [done|].
  destruct e as [p k|p k]; [cbn in He; lia | exact IH].
Qed.

Section WalkFacts.
Context {World : Type} `{Host World}.
Variable settings : NSPublishSettings.t.
Variable maxDepth : Z.

Abbreviation Walk := (NoteCopier.walk settings maxDepth).
Abbreviation WalkEach := (NoteCopier.walk_each settings maxDepth).

Lemma walk_extends :
  (forall file d r r', Walk file d r r' -> extends r r')
  /\ (forall files d r r', WalkEach files d r r' -> extends r r').
Proof.
  apply NoteCopier.walk_mutind; unfold extends, NoteCopier.seen.
  - done.
  - intros file d r Hfresh _. cbn. repeat split; set_solver.
  - intros file d r message dv Hfresh _ _. cbn. repeat split; set_solver.
  - intros file d r dv linkedFiles w r' Hfresh _ _ _ _ IH. cbn in *.
    destruct IH as (Hproc & Hvis & Hpub & Hskip). repeat split; set_solver.
  - done.
  - intros file files d r r1 r2 _ IH1 _ IH2.
    destruct IH1 as (Hproc1 & Hvis1 & Hpub1 & Hskip1).
    destruct IH2 as (Hproc2 & Hvis2 & Hpub2 & Hskip2).
    repeat split; [congruence | set_solver..].
Qed.


Lemma walk_records :
  (forall file d r r', Walk file d r r' -> records maxDepth d r r')
  /\ (forall files d r r', WalkEach files d r r' -> records maxDepth d r r').
Proof.
  apply NoteCopier.walk_mutind; unfold records.
  - intros file d r _. exists []. rewrite app_nil_r. cbn.
    repeat split; [constructor | set_solver..].
  - intros file d r _ Hdeep. exists [NoteCopier.Skip (path file) d]. cbn.
    repeat split; [|set_solver..]. repeat constructor; lia.
  - intros file d r message dv _ Hin _. exists [NoteCopier.Materialize (path file) d]. cbn.
    repeat split; [|set_solver..]. repeat constructor; lia.
  - intros file d r dv linkedFiles w r' _ Hin _ _ _ (new & Htr & Hok & Hsk & Hpub).
    cbn in *. exists (NoteCopier.Materialize (path file) d :: new). cbn.
    repeat split.
    + by rewrite Htr, <- app_assoc.
    + constructor; [cbn; lia|].
      eapply Forall_impl; [exact Hok|]. intros e. apply event_ok_weaken. lia.
    + rewrite Hsk. set_solver.
    + set_solver.
  - intros d r. exists []. rewrite app_nil_r. cbn.
    repeat split; [constructor | set_solver..].
  - intros file files d r r1 r2 _ (new1 & Htr1 & Hok1 & Hsk1 & Hpub1)
      _ (new2 & Htr2 & Hok2 & Hsk2 & Hpub2).
    exists (new1 ++ new2). repeat split.
    + by rewrite Htr2, Htr1, app_assoc.
    + by apply Forall_app.
    + rewrite Hsk2, Hsk1, skips_app, list_to_set_app_L. set_solver.
    + rewrite materialized_app, list_to_set_app_L. set_solver.
Qed.

Lemma walk_copiedOnce :
  (forall file d r r', Walk file d r r' -> copiedOnce r -> copiedOnce r')
  /\ (forall files d r r', WalkEach files d r r' -> copiedOnce r -> copiedOnce r').
Proof.
  assert (forall p d (r : NoteCopier.Run World), ~ NoteCopier.seen p r -> copiedOnce r ->
                        copiedOnce (NoteCopier.entered p d r)) as Henter.
  { intros p d r Hfresh [Hnd Hseen]. unfold copiedOnce, NoteCopier.seen in *.
    cbn [NoteCopier.entered NoteCopier.trace NoteCopier.visited NoteCopier.processing].
    rewrite materialized_app. change (materialized [NoteCopier.Materialize p d]) with [p]. split.
    - apply NoDup_app. split; [done|]. split; [|apply NoDup_singleton].
      intros q Hq Hq'. apply list_elem_of_In in Hq, Hq'. destruct Hq' as [<-|[]].
      by apply Hfresh, Hseen.
    - intros q Hq. apply in_app_or in Hq as [Hq|[<-|[]]]; [|set_solver].
      destruct (Hseen q Hq); set_solver. }
  assert (forall p (r : NoteCopier.Run World),
            copiedOnce r -> copiedOnce (NoteCopier.finished p r)) as Hfinish.
  { intros p r [Hnd Hseen]. unfold copiedOnce, NoteCopier.seen in *.
    cbn [NoteCopier.finished NoteCopier.trace NoteCopier.visited NoteCopier.processing].
    split; [done|].
    intros q Hq. destruct (decide (q = p)) as [->|Hne]; [set_solver|].
    destruct (Hseen q Hq); set_solver. }
  apply NoteCopier.walk_mutind.
  - done.
  - intros file d r _ _ [Hnd Hseen]. unfold copiedOnce, NoteCopier.seen in *.
    cbn [NoteCopier.skipped NoteCopier.trace NoteCopier.visited NoteCopier.processing].
    rewrite materialized_app.
    change (materialized [NoteCopier.Skip (path file) d]) with (@nil jsstring).
    by rewrite app_nil_r.
  - intros file d r message dv Hfresh _ _ Hinv. apply Hfinish.
    exact (Henter (path file) d r Hfresh Hinv).
  - intros file d r dv linkedFiles w r' Hfresh _ _ _ _ IH Hinv. apply Hfinish, IH.
    exact (Henter (path file) d r Hfresh Hinv).
  - done.
  - intros file files d r r1 r2 _ IH1 _ IH2 Hinv. by apply IH2, IH1.
Qed.

(** The relation is a function of the state before the call. *)
Lemma walk_deterministic :
  (forall file d r r1, Walk file d r r1 -> forall r2, Walk file d r r2 -> r1 = r2)
  /\ (forall files d r r1, WalkEach files d r r1 -> forall r2, WalkEach files d r r2 -> r1 = r2).
Proof.
  apply NoteCopier.walk_mutind.
  - intros file d r Hseen r2 Hw. inversion Hw; subst; done.
  - intros file d r Hfresh Hdeep r2 Hw. inversion Hw; subst; try done; lia.
  - intros file d r message dv Hfresh Hin Hcopy r2 Hw.
    inversion Hw; subst; try done; try lia; congruence.
  - intros file d r dv linkedFiles w r' Hfresh Hin Hcopy Hlinks _ IH r2 Hw.
    inversion Hw as [| | |? ? ? dv2 linkedFiles2 w2 r2' ? ? Hcopy2 Hlinks2 Heach2];
      subst; try done; try lia; try congruence.
    rewrite Hcopy in Hcopy2. injection Hcopy2 as <-.
    rewrite Hlinks in Hlinks2. injection Hlinks2 as <- <-.
    by rewrite (IH _ Heach2).
  - intros d r r2 Hw. by inversion Hw.
  - intros file files d r r1 r2 _ IH1 _ IH2 r3 Hw.
    inversion Hw as [|? ? ? ? r1' ? Hw1 Hw2]; subst.
    apply IH1 in Hw1. subst r1'. by apply IH2.
Qed.

End WalkFacts.

(** ** The walk over a static link graph *)


Section Static.
Context {World : Type} `{Host World}.
Variable settings : NSPublishSettings.t.
Variable maxDepth : Z.
Variable Inv : World * ExcalidrawUtil.fields -> Prop.
Variable links : jsstring -> list TFile.
Abbreviation Walk := (NoteCopier.walk settings maxDepth).
Abbreviation WalkEach := (NoteCopier.walk_each settings maxDepth).


End Static.

(** ** The walk started by [publishNoteWithLinks] *)

Section TopLevel.
Context {World : Type} `{Host World}.
Variable settings : NSPublishSettings.t.

Lemma publishNoteWithLinks_run file options r :
  exists r',
    NoteCopier.publishNoteWithLinks settings file options r = (Ok tt, r')
    /\ NoteCopier.walk settings (NoteCopier.effectiveMaxDepth settings options)
         file 0 (fresh r) r'.
Proof.
  unfold NoteCopier.publishNoteWithLinks, NoteCopier.walkFuel.
  set (md := NoteCopier.effectiveMaxDepth settings options).
  destruct (walk_run settings md (S (Z.to_nat (md + 1))) file 0 (fresh r))
    as (r' & Hrun & Hwalk); [lia|].
  exists r'. split; [|done]. walk_unfold. exact Hrun.
Qed.

Lemma fresh_copiedOnce (r : NoteCopier.Run World) : copiedOnce (fresh r).
Proof. split; [constructor | intros p []]. Qed.

Section Reachable.
Variable Inv : World * ExcalidrawUtil.fields -> Prop.
Variable links : jsstring -> list TFile.



End Reachable.
End TopLevel.

(** ** Single steps of the walk *)

Section Steps.
Context {World : Type} `{Host World}.
Variable settings : NSPublishSettings.t.

Abbreviation walkfn := (NoteCopier.publishNoteRecursively settings).

Lemma walk_step_seen fuel file d maxDepth (r : NoteCopier.Run World) :
  NoteCopier.seen (path file) r ->
  walkfn (S fuel) file d maxDepth r = (Ok tt, r).
Proof.
  intros Hseen. apply seen_decide in Hseen.
  cbn [NoteCopier.publishNoteRecursively]. unfold bind at 1, gets at 1. by rewrite Hseen.
Qed.

Lemma walk_step_skip fuel file d maxDepth (r : NoteCopier.Run World) :
  ~ NoteCopier.seen (path file) r -> (maxDepth < d)%Z ->
  walkfn (S fuel) file d maxDepth r = (Ok tt, NoteCopier.skipped (path file) d r).
Proof.
  intros Hfresh Hdeep. rewrite <- seen_decide in Hfresh. apply not_true_is_false in Hfresh.
  cbn [NoteCopier.publishNoteRecursively]. unfold bind at 1, gets at 1. rewrite Hfresh.
  apply Z.ltb_lt in Hdeep. by rewrite Hdeep.
Qed.

Lemma walk_step_fail fuel file d maxDepth (r : NoteCopier.Run World) message dv :
  ~ NoteCopier.seen (path file) r -> (d <= maxDepth)%Z ->
  NoteCopier.copyFileToTarget settings file (NoteCopier.dev r) = (Throw message, dv) ->
  walkfn (S fuel) file d maxDepth r
  = (Ok tt, NoteCopier.finished (path file)
              (NoteCopier.failed (path file) message dv
                 (NoteCopier.entered (path file) d r))).
Proof.
  intros Hfresh Hin Hcopy. rewrite <- seen_decide in Hfresh. apply not_true_is_false in Hfresh.
  cbn [NoteCopier.publishNoteRecursively]. unfold bind at 1, gets at 1. rewrite Hfresh.
  apply Z.ltb_ge in Hin. rewrite Hin.
  walk_unfold. rewrite Hcopy. reflexivity.
Qed.

End Steps.


(** ** Computations that return *)

Section Returns.
Context {S : Type}.

Lemma returns_ret {A} (a : A) : returns (S := S) (ret a).
Proof. intros s. by eexists _, _. Qed.

Lemma returns_gets {A} (f : S -> A) : returns (gets f).
Proof. intros s. by eexists _, _. Qed.

Lemma returns_modify (f : S -> S) : returns (modify f).
Proof. intros s. by eexists _, _. Qed.

Lemma returns_bind {A B} (m : M S A) (k : A -> M S B) :
  returns m -> (forall a, returns (k a)) -> returns (bind m k).
Proof.
  intros Hm Hk s. destruct (Hm s) as (a & s' & Hms). destruct (Hk a s') as (b & s'' & Hks).
  exists b, s''. unfold bind. by rewrite Hms.
Qed.

Lemma returns_zoom {T A} (proj : T -> S) (inj : S -> T -> T) (m : M S A) :
  returns m -> returns (zoom proj inj m).
Proof.
  intros Hm t. destruct (Hm (proj t)) as (a & s' & Hms).
  exists a, (inj s' t). unfold zoom. by rewrite Hms.
Qed.

Lemma returns_for_fold {A B} (xs : list A) (acc : B) (body : B -> A -> M S B) :
  (forall b a, returns (body b a)) -> returns (for_fold xs acc body).
Proof.
  intros Hbody. revert acc. induction xs as [|x xs IH]; intros acc; cbn [for_fold].
  - apply returns_ret.
  - apply returns_bind; [apply Hbody | apply IH].
Qed.

(** A [try] whose handler returns, around a body that does not starve. *)
Lemma returns_try_catch {A} (m : M S A) (h : jsstring -> M S A) :
  total m -> (forall e, returns (h e)) -> returns (try_catch m h).
Proof.
  intros Hm Hh s. unfold try_catch. specialize (Hm s).
  destruct (m s) as [[a|e|] s']; [by eexists _, _ | apply Hh | done].
Qed.


End Returns.

Ltac returns_step :=
  first
    [ apply returns_ret | apply returns_gets | apply returns_modify
    | apply returns_zoom | apply returns_for_fold | apply returns_bind ].

Ltac returns_auto :=
  repeat (intros; first
    [ returns_step
    | match goal with
      | |- returns (match ?x with _ => _ end) => destruct x
      | |- returns (if ?b then _ else _) => destruct b
      end ]).

(** ** The scripted host has a static link graph *)

Section Scripted.
Variable notes : list (jsstring * jsstring).
Variable settings : NSPublishSettings.t.

Abbreviation scripted := (ScriptHost.host notes).




Lemma scripted_links_static file w :
  @WikilinkParser.getLinkedFiles unit scripted settings file w
  = (Ok (ScriptHost.links notes settings (path file)), tt).
Proof.
  unfold ScriptHost.links. destruct w. destruct file as [p n b e par]. cbn [path].
  change (@WikilinkParser.getLinkedFiles unit scripted settings (mkTFile p n b e par) tt)
    with (@WikilinkParser.getLinkedFiles unit scripted settings (mkTFile p [] [] [] None) tt).
  destruct (@getLinkedFiles_returns unit scripted settings (mkTFile p [] [] [] None) tt)
    as (ls & [] & ->).
  reflexivity.
Qed.


End Scripted.

(** ** The claims *)

(** C10. [isValidTargetPath] accepts exactly the paths that are not empty,
    hold neither [..] nor a backslash nor a colon, and do not start with a
    slash. *)
Theorem isValidTargetPath_spec (folderPath : jsstring) :
  NoteCopier.isValidTargetPath folderPath = true <->
  folderPath <> [] /\ ~ contains folderPath (js "..") /\ ~ contains folderPath (js "\")
  /\ ~ hasPrefix folderPath (js "/") /\ ~ contains folderPath (js ":").
Proof.
  rewrite <- !includes_spec, <- startsWith_spec.
  unfold NoteCopier.isValidTargetPath.
  destruct folderPath as [|c rest].
  - split; [discriminate | intros [Hne _]; congruence].
  - change [cu "\"] with (js "\").
    destruct (includes (c :: rest) (js "..")), (includes (c :: rest) (js "\")),
      (startsWith (c :: rest) (js "/")), (includes (c :: rest) (js ":")); simpl;
      intuition (try discriminate; try congruence).
Qed.

(** C8. The exclusion check is true exactly when some configured pattern
    excludes the link text (as a regular expression when it compiles, as a
    substring when it does not); it is false for the empty list and decided
    by the first pattern that matches; and the links of a note are
    enumerated as if the excluded link texts were not in the note, so every
    file enumerated was resolved from a link text that is not excluded. *)
Theorem exclusion_filter_spec {World : Type} `{Host World} (settings : NSPublishSettings.t) :
  (forall linkText,
     WikilinkParser.isExcluded settings linkText = true <->
     exists pattern, In pattern (NSPublishSettings.excludePatterns settings)
                     /\ excludes pattern linkText)
  /\ (forall tf il md pf ap pp bu linkText,
        WikilinkParser.isExcluded (NSPublishSettings.mk tf il md [] pf ap pp bu) linkText = false)
  /\ (forall tf il md pattern patterns pf ap pp bu linkText,
        WikilinkParser.isExcluded
          (NSPublishSettings.mk tf il md (pattern :: patterns) pf ap pp bu) linkText
        = if WikilinkParser.patternMatches linkText pattern then true
          else WikilinkParser.isExcluded
                 (NSPublishSettings.mk tf il md patterns pf ap pp bu) linkText)
  /\ (forall file texts acc w,
        for_fold texts acc (WikilinkParser.followLink settings file) w
        = for_fold (List.filter (fun t => negb (WikilinkParser.isExcluded settings t)) texts)
                   acc (WikilinkParser.followLink settings file) w)
  /\ (forall file w linkedFiles w',
        WikilinkParser.getLinkedFiles settings file w = (Ok linkedFiles, w') ->
        forall f, In f linkedFiles ->
        exists content linkText w0,
          In linkText (WikilinkParser.linkTexts content)
          /\ WikilinkParser.isExcluded settings linkText = false
          /\ getFirstLinkpathDest w0 linkText (path file) = Some f
          /\ extension f = js "md").
Proof.
  split; [apply isExcluded_iff|]. split; [done|]. split; [done|].
  split; [apply for_fold_excluded|].
  intros file w linkedFiles w'. unfold WikilinkParser.getLinkedFiles, try_catch, bind.
  destruct (lift (vault_read file) w) as [[content|e|] w1] eqn:Hread;
    [|unfold ret; intros [= <- <-] f []|done].
  assert (forall texts acc w2 acc' w3,
            for_fold texts acc (WikilinkParser.followLink settings file) w2 = (Ok acc', w3) ->
            forall f, In f acc' -> In f acc \/
              exists linkText w0, In linkText texts
                /\ WikilinkParser.isExcluded settings linkText = false
                /\ getFirstLinkpathDest w0 linkText (path file) = Some f
                /\ extension f = js "md") as Hloop.
  { induction texts as [|t texts IH]; intros acc w2 acc' w3; cbn [for_fold].
    - intros [= <- <-]. auto.
    - unfold bind.
      destruct (WikilinkParser.followLink settings file acc t w2) as [[acc1|e|] w2'] eqn:Hstep;
        [|done..].
      intros Hrest f Hf. destruct (IH _ _ _ _ Hrest f Hf) as [Hf1|(lt & w0 & Hin & Hrest')].
      + destruct (followLink_allowed settings _ _ _ _ _ _ Hstep f Hf1) as [Hacc|(Hex & Hres & Hext)];
          [by left|].
        right. exists t, w2. repeat split; [by left | done..].
      + right. exists lt, w0. split; [by right | done]. }
  destruct (for_fold _ _ _ w1) as [[acc'|e|] w3] eqn:Hfold;
    [|unfold ret; intros [= <- <-] f []|done].
  intros [= <- <-] f Hf.
  destruct (Hloop _ _ _ _ _ Hfold f Hf) as [[]|(lt & w0 & Hin & Hrest)].
  by exists content, lt, w0.
Qed.

(** C9. A publish call that fails validation (no file, an extension other
    than [md], or no target folder) returns at once: the result holds no
    published and no skipped path and exactly one of the three validation
    messages, and the host, like the rest of the state, is as it was
    before the call, for every host. *)
Theorem publishNote_validation_failure {World : Type} `{Host World}
    (settings : NSPublishSettings.t) (file : option TFile) (options : PublishOptions.t)
    (r : NoteCopier.Run World) :
  file = None
  \/ (exists f, file = Some f /\ extension f <> js "md")
  \/ NSPublishSettings.targetFolderPath settings = [] ->
  exists message,
    In message [js "No file provided"; js "Can only publish markdown files";
                js "Please configure target folder path in settings"]
    /\ NoteCopier.publishNote settings file options r
       = (Ok (mkResult ∅ ∅ [message]),
          NoteCopier.mkRun (NoteCopier.dev r) (mkResult ∅ ∅ [message])
            (NoteCopier.visited r) (NoteCopier.processing r) (NoteCopier.trace r)).
Proof.
  intros Hinvalid. unfold NoteCopier.publishNote, NoteCopier.validatePublishPrerequisites.
  destruct file as [f|].
  - destruct (decide (extension f = js "md")) as [Hmd|Hmd].
    + rewrite bool_decide_eq_true_2 by done. cbn [negb].
      destruct (NSPublishSettings.targetFolderPath settings) as [|c t] eqn:Htarget.
      * eexists. split; [right; right; left; reflexivity | reflexivity].
      * exfalso. destruct Hinvalid as [?|[(f' & [= <-] & Hne)|?]]; done.
    + rewrite bool_decide_eq_false_2 by done.
      eexists. split; [right; left; reflexivity | reflexivity].
  - eexists. split; [left; reflexivity | reflexivity].
Qed.

(** On the counting host a valid publish call runs operations of the host
    and a call that fails validation runs none. *)
Example tally_of_a_valid_call :
  fst (NoteCopier.dev (snd
    (@NoteCopier.publishNote nat TallyHost.host settings0
       (Some (MemHost.fileOf (js "root.md"))) (optionsDepth 3) (TallyHost.after 0))))
  = 10%nat.
Proof. vm_compute. reflexivity. Qed.

Lemma publishNote_validation_failure_witness :
  exists message,
    In message [js "No file provided"; js "Can only publish markdown files";
                js "Please configure target folder path in settings"]
    /\ @NoteCopier.publishNote nat TallyHost.host settings0
         (Some (MemHost.fileOf (js "drawing.png"))) (optionsDepth 3) (TallyHost.after 0)
       = (Ok (mkResult ∅ ∅ [message]),
          NoteCopier.mkRun (NoteCopier.dev (TallyHost.after 0)) (mkResult ∅ ∅ [message])
            (NoteCopier.visited (TallyHost.after 0))
            (NoteCopier.processing (TallyHost.after 0))
            (NoteCopier.trace (TallyHost.after 0))).
Proof.
  apply (@publishNote_validation_failure nat TallyHost.host settings0
           (Some (MemHost.fileOf (js "drawing.png")))).
  right. left. eexists. split; [reflexivity|]. vm_compute. discriminate.
Defined.

(** C6. The public URL is the one the specification describes: nothing
    without a base URL; otherwise it is computed from the source path of
    the document alone (the target folder plays no part): a trailing [.md]
    is removed, the path is split on [/], in every segment white space
    around an ampersand becomes [--and--] and the other runs of white space
    a hyphen, every segment is percent-encoded on its own, and the segments
    are joined with [/] after the base URL and a [/].  The path
    [A & B/note name.md] with the base URL [http://x] gives
    [http://x/A--and--B/note-name], whatever the other settings. *)
Theorem generatePublishedUrl_spec :
  (forall (settings : NSPublishSettings.t) (file : TFile),
     NoteCopier.generatePublishedUrl settings file
     = publicUrl (NSPublishSettings.baseUrl settings) (path file))
  /\ (forall settings file,
        NoteCopier.generatePublishedUrl settings file = Ok None
        <-> NSPublishSettings.baseUrl settings = [])
  /\ (forall tf il md ex pf ap pp nm bn ext par,
        NoteCopier.generatePublishedUrl
          (NSPublishSettings.mk tf il md ex pf ap pp (js "http://x"))
          (mkTFile (js "A & B/note name.md") nm bn ext par)
        = Ok (Some (js "http://x/A--and--B/note-name"))).
Proof.
  assert (forall (settings : NSPublishSettings.t) (file : TFile),
            NoteCopier.generatePublishedUrl settings file
            = publicUrl (NSPublishSettings.baseUrl settings) (path file)) as Hspec.
  { intros settings file. unfold NoteCopier.generatePublishedUrl, publicUrl.
    destruct (NSPublishSettings.baseUrl settings) as [|c base]; [done|].
    rewrite replaceFirst_md. rewrite split_join.
    - rewrite mapJoin_map.
      rewrite (mapJoin_ext _ (fun seg => URI.encodeURIComponent (friendlySegment seg)))
        by (intros seg; by rewrite urlFriendlySegment_scan).
      destruct (NoteCopier.mapJoin _ _); [|done].
      unfold JS.concat. cbn [List.concat]. by rewrite app_nil_r.
    - destruct (split (cu "/") (stripMd (path file))) eqn:Hs;
        [by apply split_nonempty in Hs | done].
    - intros seg Hin. apply in_map_iff in Hin as [seg0 [<- Hin0]].
      apply urlFriendlySegment_no_slash. by eapply split_no_sep. }
  split; [exact Hspec|]. split.
  - intros settings file. rewrite Hspec. unfold publicUrl.
    destruct (NSPublishSettings.baseUrl settings) as [|c base]; [done|].
    split; [|done]. by destruct (NoteCopier.mapJoin _ _).
  - intros. rewrite Hspec. vm_compute. reflexivity.
Qed.

(** C3 (the code departs from the claim). [options.maxDepth || settings.maxDepth]
    takes the configured depth when the option is 0: with the option 0 and
    the configured depth 5, publishing [root], which links to [a], also
    publishes [a] and skips nothing. *)
Theorem maxDepth_zero_falls_back :
  (forall settings il ex,
     NoteCopier.effectiveMaxDepth settings (PublishOptions.mk il (Some 0%Z) ex)
     = NSPublishSettings.maxDepth settings)
  /\ fst (NoteCopier.publishNote settings0 (Some (MemHost.fileOf (js "root.md")))
            (PublishOptions.mk true (Some 0%Z) None) (MemHost.start vaultPair))
     = Ok (mkResult {[js "root.md"; js "a.md"]} ∅ []).
Proof.
  split; [done|]. vm_compute. reflexivity.
Qed.

(** C7 (the code departs from the claim). The link token is replaced with
    [String.prototype.replace] on a string pattern, which reads [$$] in the
    new link as one dollar sign and replaces the first occurrence of the
    token's text: the display text [a$$b] of a drawing link comes out as
    [a$b], and a drawing link whose text also occurs inside an earlier link
    to a note is left as it is while that earlier link is changed. *)
Theorem drawing_link_replacement_slips :
  fst (ExcalidrawUtil.processNoteContent (js "x ![[d|a$$b]] y") (MemHost.fileOf (js "n.md"))
         (vaultDrawing, ExcalidrawUtil.mkFields [] (js "pub")))
  = Ok (js "x ![[d.png|a$b]] y")
  /\ fst (ExcalidrawUtil.processNoteContent (js "[[x|[[d]] [[d]]") (MemHost.fileOf (js "n.md"))
            (vaultDrawing, ExcalidrawUtil.mkFields [] (js "pub")))
     = Ok (js "[[x|![[d.png]] [[d]]").
Proof. split; vm_compute; reflexivity. Qed.

(** C4, as amended. When the copy of a node fails, the call returns
    normally, so the loop of the parent goes on with the siblings; the
    error ["Error processing <path>: <message>"] is appended, the path is
    not added to the published files, it is visited and no longer on the
    stack, and the host is left in the state in which the failed copy left
    it: the links of the failed node are not enumerated. *)
Theorem copy_failure_recorded {World : Type} `{Host World}
    (settings : NSPublishSettings.t) (fuel : nat) (file : TFile) (depth maxDepth : Z)
    (r : NoteCopier.Run World) (message : jsstring) (dv : World * ExcalidrawUtil.fields)
    (siblings : list TFile) :
  ~ NoteCopier.seen (path file) r ->
  (depth <= maxDepth)%Z ->
  NoteCopier.copyFileToTarget settings file (NoteCopier.dev r) = (Throw message, dv) ->
  exists r',
    NoteCopier.publishNoteRecursively settings (S fuel) file depth maxDepth r = (Ok tt, r')
    /\ for_each (file :: siblings)
         (fun f => NoteCopier.publishNoteRecursively settings (S fuel) f depth maxDepth) r
       = for_each siblings
           (fun f => NoteCopier.publishNoteRecursively settings (S fuel) f depth maxDepth) r'
    /\ errors (NoteCopier.result r')
       = errors (NoteCopier.result r)
         ++ [JS.concat [js "Error processing "; path file; js ": "; message]]
    /\ publishedFiles (NoteCopier.result r') = publishedFiles (NoteCopier.result r)
    /\ skippedFiles (NoteCopier.result r') = skippedFiles (NoteCopier.result r)
    /\ NoteCopier.visited r' = {[path file]} ∪ NoteCopier.visited r
    /\ NoteCopier.processing r' = NoteCopier.processing r
    /\ NoteCopier.dev r' = dv
    /\ NoteCopier.trace r' = NoteCopier.trace r ++ [NoteCopier.Materialize (path file) depth].
Proof.
  intros Hfresh Hin Hcopy.
  pose proof (walk_step_fail settings fuel file depth maxDepth r message dv Hfresh Hin Hcopy)
    as Hstep.
  eexists. split; [exact Hstep|]. split.
  { cbn [for_each]. unfold bind at 1. by rewrite Hstep. }
  cbn. repeat split. unfold NoteCopier.seen in Hfresh. set_solver.
Qed.

Lemma copy_failure_recorded_witness :
  exists r',
    NoteCopier.publishNoteRecursively settings0 1 (MemHost.fileOf (js "a.md")) 1 5
      (MemHost.start vaultBlocked) = (Ok tt, r')
    /\ for_each [MemHost.fileOf (js "a.md"); MemHost.fileOf (js "b.md")]
         (fun f => NoteCopier.publishNoteRecursively settings0 1 f 1 5)
         (MemHost.start vaultBlocked)
       = for_each [MemHost.fileOf (js "b.md")]
           (fun f => NoteCopier.publishNoteRecursively settings0 1 f 1 5) r'
    /\ errors (NoteCopier.result r')
       = errors (NoteCopier.result (MemHost.start vaultBlocked))
         ++ [JS.concat [js "Error processing "; js "a.md"; js ": ";
                        js "Failed to copy a.md: File already exists."]]
    /\ publishedFiles (NoteCopier.result r')
       = publishedFiles (NoteCopier.result (MemHost.start vaultBlocked))
    /\ skippedFiles (NoteCopier.result r')
       = skippedFiles (NoteCopier.result (MemHost.start vaultBlocked))
    /\ NoteCopier.visited r' = {[js "a.md"]} ∪ NoteCopier.visited (MemHost.start vaultBlocked)
    /\ NoteCopier.processing r' = NoteCopier.processing (MemHost.start vaultBlocked)
    /\ NoteCopier.dev r' = (vaultBlocked, ExcalidrawUtil.mkFields [] [])
    /\ NoteCopier.trace r'
       = NoteCopier.trace (MemHost.start vaultBlocked)
         ++ [NoteCopier.Materialize (js "a.md") 1].
Proof.
  apply (copy_failure_recorded settings0 0 (MemHost.fileOf (js "a.md")) 1 5
           (MemHost.start vaultBlocked)
           (js "Failed to copy a.md: File already exists.")
           (vaultBlocked, ExcalidrawUtil.mkFields [] [])
           [MemHost.fileOf (js "b.md")]).
  - unfold NoteCopier.seen. cbn. set_solver.
  - lia.
  - vm_compute. reflexivity.
Defined.

(** C4, as stated, fails: [root] links to [a] and [a] to [b], the copy of
    [a] fails, and [b], a link of the failed node well within the depth
    bound, is neither copied nor visited nor skipped. *)
Lemma failed_node_links_not_followed :
  fst (NoteCopier.publishNoteWithLinks settings0 (MemHost.fileOf (js "root.md"))
         (optionsDepth 5) (MemHost.start vaultBlocked)) = Ok tt
  /\ linksIn vaultBlocked (js "a.md") = [MemHost.fileOf (js "b.md")]
  /\ errors (NoteCopier.result
       (snd (NoteCopier.publishNoteWithLinks settings0 (MemHost.fileOf (js "root.md"))
               (optionsDepth 5) (MemHost.start vaultBlocked))))
     = [js "Error processing a.md: Failed to copy a.md: File already exists."]
  /\ NoteCopier.trace
       (snd (NoteCopier.publishNoteWithLinks settings0 (MemHost.fileOf (js "root.md"))
               (optionsDepth 5) (MemHost.start vaultBlocked)))
     = [NoteCopier.Materialize (js "root.md") 0; NoteCopier.Materialize (js "a.md") 1]
  /\ NoteCopier.visited
       (snd (NoteCopier.publishNoteWithLinks settings0 (MemHost.fileOf (js "root.md"))
               (optionsDepth 5) (MemHost.start vaultBlocked)))
     = {[js "root.md"; js "a.md"]}
  /\ publishedFiles (NoteCopier.result
       (snd (NoteCopier.publishNoteWithLinks settings0 (MemHost.fileOf (js "root.md"))
               (optionsDepth 5) (MemHost.start vaultBlocked))))
     = {[js "root.md"]}
  /\ skippedFiles (NoteCopier.result
       (snd (NoteCopier.publishNoteWithLinks settings0 (MemHost.fileOf (js "root.md"))
               (optionsDepth 5) (MemHost.start vaultBlocked))))
     = ∅.
Proof. repeat split; vm_compute; reflexivity. Qed.

(** The scenario of the specification: with a cycle between [root] and [a]
    and the bound 1, [root] and [a] are published and [b] is skipped. *)
Example cycle_scenario :
  fst (NoteCopier.publishNote settings0 (Some (MemHost.fileOf (js "root.md")))
         (optionsDepth 1) (MemHost.start vaultCycle))
  = Ok (mkResult {[js "root.md"; js "a.md"]} {[js "b.md"]} []).
Proof. vm_compute. reflexivity. Qed.

(** C2. For every host, and so for every link graph, with or without
    cycles, the walk started by [publishNoteWithLinks] returns; more fuel
    gives the same state; no path is copied twice; and a path is only added
    to the published files after a copy of it. *)
Theorem walk_terminates_copies_once {World : Type} `{Host World}
    (settings : NSPublishSettings.t) (file : TFile) (options : PublishOptions.t)
    (r : NoteCopier.Run World) :
  exists r',
    NoteCopier.publishNoteWithLinks settings file options r = (Ok tt, r')
    /\ (forall fuel,
          (NoteCopier.walkFuel (NoteCopier.effectiveMaxDepth settings options) <= fuel)%nat ->
          NoteCopier.publishNoteRecursively settings fuel file 0
            (NoteCopier.effectiveMaxDepth settings options) (fresh r) = (Ok tt, r'))
    /\ NoDup (materialized (NoteCopier.trace r'))
    /\ publishedFiles (NoteCopier.result r')
       ⊆ list_to_set (materialized (NoteCopier.trace r')) ∪ publishedFiles (NoteCopier.result r).
Proof.
  destruct (publishNoteWithLinks_run settings file options r) as (r' & Hrun & Hwalk).
  set (md := NoteCopier.effectiveMaxDepth settings options) in *.
  exists r'. split; [done|]. split; [|split].
  - intros fuel Hfuel.
    destruct (walk_run settings md fuel file 0 (fresh r)) as (r2 & Hrun2 & Hwalk2).
    + unfold NoteCopier.walkFuel in Hfuel. lia.
    + rewrite Hrun2. f_equal.
      exact (proj1 (walk_deterministic settings md) _ _ _ _ Hwalk2 _ Hwalk).
  - apply (proj1 (walk_copiedOnce settings md) _ _ _ _ Hwalk (fresh_copiedOnce r)).
  - destruct (proj1 (walk_records settings md) _ _ _ _ Hwalk) as (new & Htr & _ & _ & Hpub).
    cbn in Htr, Hpub. by rewrite Htr.
Qed.

(** C5. For a call that passes the guard against cycles and duplicates:
    at depth [maxDepth + 1] the path is recorded as skipped and nothing else
    changes (nothing is copied); at depth [maxDepth] the document is copied,
    and published exactly when the copy succeeds.  In every walk the paths
    added to the skipped files are those of the skip events, which all lie
    beyond the bound, and copies only happen within it; a call stopped by
    the guard changes nothing. *)
Theorem depth_bound_spec {World : Type} `{Host World}
    (settings : NSPublishSettings.t) (maxDepth : Z) (file : TFile)
    (r : NoteCopier.Run World) :
  ~ NoteCopier.seen (path file) r ->
  (forall fuel,
     NoteCopier.publishNoteRecursively settings (S fuel) file (maxDepth + 1) maxDepth r
     = (Ok tt, NoteCopier.skipped (path file) (maxDepth + 1) r))
  /\ (forall fuel, exists r',
        NoteCopier.publishNoteRecursively settings (S (S fuel)) file maxDepth maxDepth r
        = (Ok tt, r')
        /\ In (NoteCopier.Materialize (path file) maxDepth) (NoteCopier.trace r')
        /\ ((exists dv, NoteCopier.copyFileToTarget settings file (NoteCopier.dev r)
                        = (Ok tt, dv)) ->
            publishedFiles (NoteCopier.result r')
            = {[path file]} ∪ publishedFiles (NoteCopier.result r))
        /\ ((exists message dv, NoteCopier.copyFileToTarget settings file (NoteCopier.dev r)
                                = (Throw message, dv)) ->
            publishedFiles (NoteCopier.result r') = publishedFiles (NoteCopier.result r)))
  /\ (forall d fuel, (Z.to_nat (maxDepth + 1 - d) < fuel)%nat ->
        exists r',
          NoteCopier.publishNoteRecursively settings fuel file d maxDepth r = (Ok tt, r')
          /\ records maxDepth d r r')
  /\ (forall f d fuel r0,
        NoteCopier.seen (path f) r0 ->
        NoteCopier.publishNoteRecursively settings (S fuel) f d maxDepth r0 = (Ok tt, r0)).
Proof.
  intros Hfresh. split; [|split; [|split]].
  - intros fuel. apply walk_step_skip; [done | lia].
  - intros fuel.
    destruct (walk_run settings maxDepth (S (S fuel)) file maxDepth r) as (r' & Hrun & Hwalk);
      [lia|].
    exists r'. split; [done|].
    inversion Hwalk as [| |? ? ? message dv _ _ Hcopy
                        |? ? ? dv linkedFiles w r2 _ _ Hcopy Hlinks Heach]; subst;
      try done; try lia.
    + split; [|split].
      * cbn. apply in_or_app. right. by left.
      * intros (dv' & Hok). congruence.
      * intros _. reflexivity.
    + destruct (proj2 (walk_records settings maxDepth) _ _ _ _ Heach)
        as (new & Htr & Hok & _ & Hpub).
      pose proof (proj2 (walk_extends settings maxDepth) _ _ _ _ Heach) as (_ & _ & Hext & _).
      rewrite (materialized_beyond maxDepth (maxDepth + 1) new) in Hpub by (done || lia).
      cbn in Htr, Hpub, Hext. split; [|split].
      * cbn. rewrite Htr. apply in_or_app. left. apply in_or_app. right. by left.
      * intros _. cbn. set_solver.
      * intros (message & dv' & Hthrow). congruence.
  - intros d fuel Hfuel.
    destruct (walk_run settings maxDepth fuel file d r) as (r' & Hrun & Hwalk); [done|].
    exists r'. split; [done|]. exact (proj1 (walk_records settings maxDepth) _ _ _ _ Hwalk).
  - intros f d fuel r0. apply walk_step_seen.
Qed.

Lemma depth_bound_spec_witness :
  (forall fuel,
     NoteCopier.publishNoteRecursively settings0 (S fuel) (MemHost.fileOf (js "a.md")) (1 + 1) 1
       (MemHost.start vaultPair)
     = (Ok tt, NoteCopier.skipped (js "a.md") (1 + 1) (MemHost.start vaultPair)))
  /\ (forall fuel, exists r',
        NoteCopier.publishNoteRecursively settings0 (S (S fuel)) (MemHost.fileOf (js "a.md")) 1 1
          (MemHost.start vaultPair)
        = (Ok tt, r')
        /\ In (NoteCopier.Materialize (js "a.md") 1) (NoteCopier.trace r')
        /\ ((exists dv, NoteCopier.copyFileToTarget settings0 (MemHost.fileOf (js "a.md"))
                          (NoteCopier.dev (MemHost.start vaultPair)) = (Ok tt, dv)) ->
            publishedFiles (NoteCopier.result r')
            = {[js "a.md"]} ∪ publishedFiles (NoteCopier.result (MemHost.start vaultPair)))
        /\ ((exists message dv,
               NoteCopier.copyFileToTarget settings0 (MemHost.fileOf (js "a.md"))
                 (NoteCopier.dev (MemHost.start vaultPair)) = (Throw message, dv)) ->
            publishedFiles (NoteCopier.result r')
            = publishedFiles (NoteCopier.result (MemHost.start vaultPair))))
  /\ (forall d fuel, (Z.to_nat (1 + 1 - d) < fuel)%nat ->
        exists r',
          NoteCopier.publishNoteRecursively settings0 fuel (MemHost.fileOf (js "a.md")) d 1
            (MemHost.start vaultPair) = (Ok tt, r')
          /\ records 1 d (MemHost.start vaultPair) r')
  /\ (forall f d fuel (r0 : NoteCopier.Run MemHost.world),
        NoteCopier.seen (path f) r0 ->
        NoteCopier.publishNoteRecursively settings0 (S fuel) f d 1 r0 = (Ok tt, r0)).
Proof.
  apply (depth_bound_spec settings0 1 (MemHost.fileOf (js "a.md")) (MemHost.start vaultPair)).
  unfold NoteCopier.seen. cbn. set_solver.
Defined.




(** * Further properties of the code *)

(** ** The matcher finds declarative matches *)

Lemma star_loop_sound ic greedy r
    (once : mstate -> (mstate -> option mstate) -> option mstate) k :
  (forall st k' res, once st k' = Some res ->
     exists st', spans ic r st st' /\ k' st' = Some res) ->
  forall n st0 res,
    star_loop greedy once k n st0 = Some res ->
    exists st', spans ic (Star greedy r) st0 st' /\ k st' = Some res.
Proof.
  intros Honce. induction n as [|n IH]; intros st0 res; cbn [star_loop].
  - intros Hk. exists st0. split; [constructor | done].
  - assert (forall res, once st0 (fun st' =>
              if Nat.eqb (m_pos st') (m_pos st0) then None
              else star_loop greedy once k n st') = Some res ->
            exists st', spans ic (Star greedy r) st0 st' /\ k st' = Some res) as Hagain.
    { intros res' Hres. apply Honce in Hres as (st1 & Hsp & Hres).
      destruct (Nat.eqb_spec (m_pos st1) (m_pos st0)) as [|Hne]; [done|].
      apply IH in Hres as (st2 & Hsp2 & Hk). exists st2. split; [|done].
      by eapply spans_Star_more. }
    assert (forall res, k st0 = Some res ->
            exists st', spans ic (Star greedy r) st0 st' /\ k st' = Some res) as Hstop.
    { intros res' Hres. exists st0. split; [constructor | done]. }
    destruct greedy; unfold orElse.
    + destruct (once st0 _) as [res'|] eqn:Ha.
      * intros [= <-]. by apply Hagain.
      * apply Hstop.
    + destruct (k st0) as [res'|] eqn:Hk.
      * intros [= <-]. by apply Hstop.
      * apply Hagain.
Qed.

Lemma run_sound ic r : forall st k res,
  run ic r st k = Some res -> exists st', spans ic r st st' /\ k st' = Some res.
Proof.
  induction r as [|c|neg cs| |r1 IH1 r2 IH2|r1 IH1 r2 IH2|greedy r1 IH1|i r1 IH1| | |r1 IH1];
    intros st k res; cbn [run].
  - intros Hk. exists st. split; [constructor | done].
  - destruct (m_rest st) as [|x t] eqn:Hrest; [done|].
    destruct (N.eqb_spec (canon ic x) (canon ic c)) as [Heq|]; [|done].
    intros Hk. exists (Rx.step st t). split; [by econstructor | done].
  - destruct (m_rest st) as [|x t] eqn:Hrest; [done|].
    destruct (xorb neg (existsb (in_class x) cs)) eqn:Hin; [|done].
    intros Hk. exists (Rx.step st t). split; [by econstructor | done].
  - destruct (m_rest st) as [|x t] eqn:Hrest; [done|].
    destruct (isLineTerminator x) eqn:Hlt; [done|].
    intros Hk. exists (Rx.step st t). split; [by econstructor | done].
  - intros Hrun. apply IH1 in Hrun as (st1 & Hsp1 & Hrun).
    apply IH2 in Hrun as (st2 & Hsp2 & Hk). exists st2. split; [by econstructor | done].
  - unfold orElse. destruct (run ic r1 st k) as [res'|] eqn:H1.
    + intros [= <-]. apply IH1 in H1 as (st' & Hsp & Hk). exists st'. split; [by constructor | done].
    + intros H2. apply IH2 in H2 as (st' & Hsp & Hk). exists st'.
      split; [by apply spans_Alt_r | done].
  - apply star_loop_sound. intros st0 k' res'. apply IH1.
  - intros Hrun. apply IH1 in Hrun as (st' & Hsp & Hk). eexists. split; [by constructor | done].
  - destruct (Nat.eqb_spec (m_pos st) 0) as [Hpos|]; [|done].
    intros Hk. exists st. split; [by constructor | done].
  - destruct (m_rest st) as [|x t] eqn:Hrest; [|done].
    intros Hk. exists st. split; [by constructor | done].
  - destruct (run ic r1 st Some) as [st1|] eqn:H1; [|done].
    apply IH1 in H1 as (st' & Hsp & [= <-]).
    intros Hk. eexists. split; [by constructor | done].
Qed.

(** What a match consumes and which groups it records. *)
Lemma spans_consumes ic r st st' :
  spans ic r st st' ->
  exists consumed new,
    m_rest st = consumed ++ m_rest st'
    /\ m_pos st' = (m_pos st + length consumed)%nat
    /\ m_caps st' = new ++ m_caps st
    /\ Forall (fun e => In (fst e) (groups r)) new.
Proof.
  induction 1 as [st|c st x t Hrest _|neg cs st x t Hrest _|st x t Hrest _
                  |r1 r2 st st1 st2 _ IH1 _ IH2|r1 r2 st st' _ IH|r1 r2 st st' _ IH
                  |greedy r st|greedy r st st1 st2 _ IH1 _ _ IH2|i r st st' _ IH
                  |st _|st _|r st st' _ IH]; cbn [groups].
  - exists [], []. cbn. split_and!; [done | lia | done | constructor].
  - exists [x], []. cbn. rewrite Hrest. split_and!; [done | lia | done | constructor].
  - exists [x], []. cbn. rewrite Hrest. split_and!; [done | lia | done | constructor].
  - exists [x], []. cbn. rewrite Hrest. split_and!; [done | lia | done | constructor].
  - destruct IH1 as (c1 & n1 & Hr1 & Hp1 & Hc1 & Hg1), IH2 as (c2 & n2 & Hr2 & Hp2 & Hc2 & Hg2).
    exists (c1 ++ c2), (n2 ++ n1). rewrite Hr1, Hr2, Hp2, Hp1, Hc2, Hc1, length_app, <- !app_assoc.
    split_and!; [done | lia | done |].
    apply Forall_app. split; eapply Forall_impl; eauto; cbn; intros e He; apply in_or_app; auto.
  - destruct IH as (c1 & n1 & Hr1 & Hp1 & Hc1 & Hg1). exists c1, n1. split_and!; try done.
    eapply Forall_impl; eauto; cbn; intros e He; apply in_or_app; auto.
  - destruct IH as (c1 & n1 & Hr1 & Hp1 & Hc1 & Hg1). exists c1, n1. split_and!; try done.
    eapply Forall_impl; eauto; cbn; intros e He; apply in_or_app; auto.
  - exists [], []. cbn. split_and!; [done | lia | done | constructor].
  - destruct IH1 as (c1 & n1 & Hr1 & Hp1 & Hc1 & Hg1), IH2 as (c2 & n2 & Hr2 & Hp2 & Hc2 & Hg2).
    exists (c1 ++ c2), (n2 ++ n1). rewrite Hr1, Hr2, Hp2, Hp1, Hc2, Hc1, length_app, <- !app_assoc.
    split_and!; [done | lia | done |].
    apply Forall_app. split; done.
  - destruct IH as (c1 & n1 & Hr1 & Hp1 & Hc1 & Hg1).
    exists c1, ((i, (m_pos st, m_pos st')) :: n1). cbn [m_rest m_pos m_caps]. rewrite Hc1.
    split_and!; [done | done | done |].
    constructor; [by left|]. eapply Forall_impl; eauto; cbn; intros e He; by right.
  - exists [], []. cbn. split_and!; [done | lia | done | constructor].
  - exists [], []. cbn. split_and!; [done | lia | done | constructor].
  - destruct IH as (c1 & n1 & Hr1 & Hp1 & Hc1 & Hg1). exists [], n1. cbn.
    split_and!; [done | lia | done | done].
Qed.

(** Inversion of [spans]. *)
Lemma spans_Seq_inv ic r1 r2 st st2 :
  spans ic (Seq r1 r2) st st2 -> exists st1, spans ic r1 st st1 /\ spans ic r2 st1 st2.
Proof. inversion 1; subst. eauto. Qed.

Lemma spans_Alt_inv ic r1 r2 st st' :
  spans ic (Alt r1 r2) st st' -> spans ic r1 st st' \/ spans ic r2 st st'.
Proof. inversion 1; subst; auto. Qed.

Lemma spans_Group_inv ic i r st st2 :
  spans ic (Group i r) st st2 ->
  exists st', spans ic r st st'
    /\ st2 = MState (m_pos st') (m_rest st') ((i, (m_pos st, m_pos st')) :: m_caps st').
Proof. inversion 1; subst. eauto. Qed.

Lemma spans_Chr_inv ic c st st' :
  spans ic (Chr c) st st' ->
  exists x t, m_rest st = x :: t /\ canon ic x = canon ic c /\ st' = Rx.step st t.
Proof. inversion 1; subst. eauto. Qed.

Lemma spans_Set_inv ic neg cs st st' :
  spans ic (Set_ neg cs) st st' ->
  exists x t, m_rest st = x :: t /\ xorb neg (existsb (in_class x) cs) = true
              /\ st' = Rx.step st t.
Proof. inversion 1; subst. eauto. Qed.

Lemma spans_Bol_inv ic st st' : spans ic Bol st st' -> m_pos st = O /\ st' = st.
Proof. inversion 1; subst. eauto. Qed.

Lemma spans_Eps_inv ic st st' : spans ic Eps st st' -> st' = st.
Proof. by inversion 1. Qed.

(** A literal consumes its text and records nothing. *)
Lemma spans_Lit p : forall st st',
  spans false (Lit p) st st' ->
  m_rest st = p ++ m_rest st' /\ m_pos st' = (m_pos st + length p)%nat
  /\ m_caps st' = m_caps st.
Proof.
  induction p as [|c p IH]; intros st st'.
  - intros ->%spans_Eps_inv. cbn. split_and!; [done | lia | done].
  - destruct p as [|d p].
    + intros (x & t & Hrest & Hx & ->)%spans_Chr_inv. cbn in Hx. subst x.
      cbn. rewrite Hrest. split_and!; [done | lia | done].
    + change (Lit (c :: d :: p)) with (Seq (Chr c) (Lit (d :: p))).
      intros (st1 & (x & t & Hrest & Hx & ->)%spans_Chr_inv & Hsp)%spans_Seq_inv.
      cbn in Hx. subst x. apply IH in Hsp as (Hr & Hp & Hc).
      cbn [Rx.step m_rest m_pos m_caps] in Hr, Hp, Hc.
      rewrite Hrest, Hr, Hp, Hc. cbn [length]. split_and!; [done | lia | done].
Qed.

(** An expression without groups records nothing. *)
Lemma spans_nogroups ic r st st' :
  groups r = [] -> spans ic r st st' ->
  exists consumed, m_rest st = consumed ++ m_rest st'
    /\ m_pos st' = (m_pos st + length consumed)%nat /\ m_caps st' = m_caps st.
Proof.
  intros Hg (consumed & new & Hr & Hp & Hc & Hnew)%spans_consumes.
  exists consumed. split_and!; try done. rewrite Hg in Hnew.
  destruct new as [|e new]; [done|]. by apply Forall_cons in Hnew as [[] _].
Qed.

(** A repetition of a character class consumes units of the class. *)
Lemma spans_Star_class ic greedy neg cs st st' :
  spans ic (Star greedy (Set_ neg cs)) st st' ->
  exists consumed, m_rest st = consumed ++ m_rest st'
    /\ m_pos st' = (m_pos st + length consumed)%nat /\ m_caps st' = m_caps st
    /\ Forall (fun x => xorb neg (existsb (in_class x) cs) = true) consumed.
Proof.
  remember (Star greedy (Set_ neg cs)) as r eqn:Hr. intros Hsp.
  induction Hsp as [| | | | | | |g r0 st|g r0 st st1 st2 H1 _ Hne _ IH| | | |]; try discriminate.
  - exists []. cbn. split_and!; [done | lia | done | constructor].
  - injection Hr as -> ->. destruct (IH eq_refl) as (c2 & Hr2 & Hp2 & Hc2 & Hall).
    apply spans_Set_inv in H1 as (x & t & Hrest & Hx & ->).
    cbn [Rx.step m_rest m_pos m_caps] in *.
    exists (x :: c2). rewrite Hrest, Hr2, Hp2, Hc2. cbn [length].
    split_and!; [done | lia | done | by constructor].
Qed.

Lemma spans_Plus_class ic neg cs st st' :
  spans ic (Plus (Set_ neg cs)) st st' ->
  exists consumed, consumed <> [] /\ m_rest st = consumed ++ m_rest st'
    /\ m_pos st' = (m_pos st + length consumed)%nat /\ m_caps st' = m_caps st
    /\ Forall (fun x => xorb neg (existsb (in_class x) cs) = true) consumed.
Proof.
  unfold Plus.
  intros (st1 & (x & t & Hrest & Hx & ->)%spans_Set_inv
              & (c2 & Hr2 & Hp2 & Hc2 & Hall)%spans_Star_class)%spans_Seq_inv.
  cbn [Rx.step m_rest m_pos m_caps] in *.
  exists (x :: c2). rewrite Hrest, Hr2, Hp2, Hc2. cbn [length].
  split_and!; [done | done | lia | done | by constructor].
Qed.

(** A match found by a search is a match at some index. *)
Lemma search_from_some ic r s from n m :
  search_from ic r s from n = Some m ->
  exists i, (from <= i <= from + n)%nat /\ match_at ic r s i = Some m.
Proof.
  revert from. induction n as [|n IH]; intros from; cbn [search_from];
    destruct (match_at ic r s from) as [m0|] eqn:Hm; try done.
  - intros [= <-]. exists from. split; [lia | done].
  - intros [= <-]. exists from. split; [lia | done].
  - intros (i & Hi & Hat)%IH. exists i. split; [lia | done].
Qed.

Lemma exec_some ic r s from m :
  exec ic r s from = Some m ->
  exists i, (from <= i <= length s)%nat /\ match_at ic r s i = Some m.
Proof.
  unfold exec. destruct (Nat.ltb_spec (length s) from); [done|].
  intros (i & Hi & Hat)%search_from_some. exists i. split; [lia | done].
Qed.

Lemma matches_from_some ic r s m : forall fuel from,
  In m (matches_from ic r s from fuel) ->
  exists i, (i <= length s)%nat /\ match_at ic r s i = Some m.
Proof.
  induction fuel as [|fuel IH]; intros from; cbn [matches_from]; [done|].
  destruct (exec ic r s from) as [m0|] eqn:Hexec; [|done].
  intros [<-|Hin].
  - apply exec_some in Hexec as (i & Hi & Hat). exists i. split; [lia | done].
  - by eapply IH.
Qed.

Lemma matchAll_some ic r s m :
  In m (matchAll ic r s) -> exists i, (i <= length s)%nat /\ match_at ic r s i = Some m.
Proof. apply matches_from_some. Qed.

Lemma match_at_spans ic r s i m :
  match_at ic r s i = Some m ->
  exists st', spans ic r (MState i (skipn i s) []) st'
    /\ m = RMatch i (m_pos st') (m_caps st').
Proof.
  unfold match_at. destruct (run ic r _ Some) as [st|] eqn:Hrun; [|done].
  intros [= <-]. apply run_sound in Hrun as (st' & Hsp & [= <-]). eauto.
Qed.

Lemma slice_prefix (s : jsstring) i (a b c : jsstring) :
  skipn i s = a ++ b ++ c ->
  slice s (i + length a) (i + length a + length b) = b.
Proof.
  intros Hskip. unfold slice.
  replace (i + length a + length b - (i + length a))%nat with (length b) by lia.
  rewrite (Nat.add_comm i), <- skipn_skipn, Hskip, skipn_app, skipn_all, Nat.sub_diag.
  rewrite skipn_O. cbn [app].
  by rewrite firstn_app, firstn_all, Nat.sub_diag, firstn_O, app_nil_r.
Qed.

(** *** The link pattern of [getLinkedFiles] *)

Lemma parser_wikilink_match content i m :
  match_at false WikilinkParser.wikilinkRegex content i = Some m ->
  exists text tail,
    skipn i content = js "[[" ++ text ++ tail
    /\ text <> []
    /\ Forall (fun x => x <> cu "]" /\ x <> cu "|") text
    /\ capture content m 1 = Some text.
Proof.
  intros (st' & Hsp & ->)%match_at_spans.
  unfold WikilinkParser.wikilinkRegex in Hsp. cbn [Cat] in Hsp.
  apply spans_Seq_inv in Hsp as (st1 & (Hr1 & Hp1 & Hc1)%spans_Lit & Hsp).
  apply spans_Seq_inv in Hsp as (st2 & (st2' & Hplus & ->)%spans_Group_inv & Hsp).
  apply spans_Plus_class in Hplus as (text & Hne & Hr2 & Hp2 & Hc2 & Hall).
  apply spans_Seq_inv in Hsp as (st3 & Hopt & (Hr4 & Hp4 & Hc4)%spans_Lit).
  apply spans_nogroups in Hopt as (alias & Hr3 & Hp3 & Hc3); [|done].
  cbn [m_rest m_pos m_caps] in *.
  exists text, (alias ++ js "]]" ++ m_rest st'). split_and!.
  - by rewrite Hr1, Hr2, Hr3, Hr4.
  - done.
  - eapply Forall_impl; [exact Hall|]. intros x Hx.
    split; intros ->; vm_compute in Hx; discriminate.
  - unfold capture. cbn [r_caps]. rewrite Hc4, Hc3. cbn [List.find fst Nat.eqb].
    f_equal. rewrite Hp2, Hp1. change (length (js "[[")) with 2%nat.
    apply (slice_prefix content i (js "[[") text (alias ++ js "]]" ++ m_rest st')).
    by rewrite Hr1, Hr2, Hr3, Hr4.
Qed.

(** ** Trimming *)

Lemma trimStart_In x s : In x (trimStart s) -> In x s.
Proof.
  induction s as [|c s IH]; cbn [trimStart]; [done|].
  destruct (isWhiteSpace c); [|done]. intros Hin. right. auto.
Qed.

Lemma trim_In x s : In x (trim s) -> In x s.
Proof.
  unfold trim. rewrite <- in_rev. intros Hin%trimStart_In.
  apply in_rev in Hin. by apply trimStart_In.
Qed.

Lemma trimStart_noLead s : noLead (trimStart s).
Proof.
  induction s as [|c s IH]; cbn [trimStart]; [done|].
  destruct (isWhiteSpace c) eqn:Hc; [done|]. exact Hc.
Qed.

Lemma noLead_trimStart s : noLead s -> trimStart s = s.
Proof. destruct s as [|c s]; cbn; [done|]. by intros ->. Qed.

Lemma trimStart_suffix s : exists a, s = a ++ trimStart s.
Proof.
  induction s as [|c s [a IH]]; cbn [trimStart]; [by exists []|].
  destruct (isWhiteSpace c); [|by exists []]. exists (c :: a). cbn. by rewrite <- IH.
Qed.

Lemma trim_ends s : noLead (trim s) /\ noLead (rev (trim s)).
Proof.
  unfold trim. rewrite rev_involutive. split; [|apply trimStart_noLead].
  destruct (trimStart_suffix (rev (trimStart s))) as [a Ha].
  apply (f_equal (@rev N)) in Ha. rewrite rev_involutive, rev_app_distr in Ha.
  pose proof (trimStart_noLead s) as Hlead. rewrite Ha in Hlead.
  by destruct (rev (trimStart (rev (trimStart s)))).
Qed.

Lemma trim_fixed s : noLead s -> noLead (rev s) -> trim s = s.
Proof.
  intros H1 H2. unfold trim. by rewrite (noLead_trimStart s), (noLead_trimStart (rev s)), rev_involutive.
Qed.

Lemma trim_trim s : trim (trim s) = trim s.
Proof. destruct (trim_ends s). by apply trim_fixed. Qed.

(** ** The link texts of a note *)

Lemma linkTexts_match content t :
  In t (WikilinkParser.linkTexts content) ->
  exists text, t = trim text /\ text <> []
    /\ Forall (fun x => x <> cu "]" /\ x <> cu "|") text
    /\ contains content (js "[[" ++ text).
Proof.
  unfold WikilinkParser.linkTexts. intros (m & <- & Hin)%in_map_iff.
  apply matchAll_some in Hin as (i & Hi & Hat).
  apply parser_wikilink_match in Hat as (text & tail & Hskip & Hne & Hall & ->).
  exists text. split_and!; try done.
  exists (firstn i content), tail. rewrite <- (firstn_skipn i content) at 1.
  by rewrite Hskip, <- app_assoc.
Qed.

(** X1. Every link text that [getLinkedFiles] checks against the exclude
    patterns and hands to the resolver is the trimmed text that follows an
    opening pair of brackets in the note: it holds neither a closing
    bracket nor a vertical bar (an alias is cut off) and has no white space
    at either end. *)
Theorem link_texts_are_clean (content : jsstring) :
  Forall (fun t => ~ In (cu "]") t /\ ~ In (cu "|") t /\ trim t = t
                   /\ exists text, t = trim text /\ contains content (js "[[" ++ text))
         (WikilinkParser.linkTexts content).
Proof.
  apply List.Forall_forall. intros t (text & -> & Hne & Hall & Hcont)%linkTexts_match.
  rewrite List.Forall_forall in Hall.
  split_and!.
  - intros Hin%trim_In. by destruct (Hall _ Hin).
  - intros Hin%trim_In. by destruct (Hall _ Hin).
  - apply trim_trim.
  - eauto.
Qed.

(** ** Computations that move the state along a relation *)

#[global] Instance same_preorder {S F} (f : S -> F) : PreOrder (same f).
Proof. split; [done|]. intros s1 s2 s3 H12 H23. unfold same in *. congruence. Qed.

(** Apply a lemma and find the instances it needs. *)
Tactic Notation "iapply" uconstr(L) := apply L; try typeclasses eauto.

Lemma steps_ret {S} (R : relation S) `{!PreOrder R} {A} (a : A) : steps R (ret a).
Proof. intros s. reflexivity. Qed.

Lemma steps_throw {S} (R : relation S) `{!PreOrder R} {A} e : steps R (A := A) (throw e).
Proof. intros s. reflexivity. Qed.

Lemma steps_starve {S} (R : relation S) `{!PreOrder R} {A} : steps R (A := A) starve.
Proof. intros s. reflexivity. Qed.

Lemma steps_gets {S} (R : relation S) `{!PreOrder R} {A} (g : S -> A) : steps R (gets g).
Proof. intros s. reflexivity. Qed.

Lemma steps_modify {S} (R : relation S) `{!PreOrder R} (g : S -> S) : (forall s, R s (g s)) -> steps R (modify g).
Proof. intros Hg s. apply Hg. Qed.

Lemma steps_bind {S} (R : relation S) `{!PreOrder R} {A B} (m : M S A) (k : A -> M S B) :
  steps R m -> (forall a, steps R (k a)) -> steps R (bind m k).
Proof.
  intros Hm Hk s. unfold bind. specialize (Hm s).
  destruct (m s) as [[a|e|] s']; cbn [snd] in *; [|done..].
  etrans; [exact Hm | apply Hk].
Qed.

Lemma steps_try_catch {S} (R : relation S) `{!PreOrder R} {A} (m : M S A) (h : jsstring -> M S A) :
  steps R m -> (forall e, steps R (h e)) -> steps R (try_catch m h).
Proof.
  intros Hm Hh s. unfold try_catch. specialize (Hm s).
  destruct (m s) as [[a|e|] s']; cbn [snd] in *; [done| |done].
  etrans; [exact Hm | apply Hh].
Qed.

Lemma steps_finally {S} (R : relation S) `{!PreOrder R} {A} (m : M S A) (f : M S unit) :
  steps R m -> steps R f -> steps R (finally m f).
Proof.
  intros Hm Hf s. unfold finally. specialize (Hm s).
  destruct (m s) as [[a|e|] s']; cbn [snd] in *; [| |done]; specialize (Hf s');
    destruct (f s') as [[[]|e'|] s'']; cbn [snd] in *; by etrans.
Qed.

Lemma steps_for_fold {S} (R : relation S) `{!PreOrder R} {A B} (xs : list A) (acc : B) (body : B -> A -> M S B) :
  (forall b a, steps R (body b a)) -> steps R (for_fold xs acc body).
Proof.
  intros Hbody. revert acc. induction xs as [|x xs IH]; intros acc; cbn [for_fold].
  - iapply steps_ret.
  - iapply steps_bind; [apply Hbody | apply IH].
Qed.

Lemma steps_for_each {S} (R : relation S) `{!PreOrder R} {A} (xs : list A) (body : A -> M S unit) :
  (forall a, steps R (body a)) -> steps R (for_each xs body).
Proof.
  intros Hbody. induction xs as [|x xs IH]; cbn [for_each].
  - iapply steps_ret.
  - iapply steps_bind; [apply Hbody | intros; apply IH].
Qed.


(** An operation of the host leaves the fields of the drawing utility as
    they are. *)
Lemma steps_on_app {World A} (m : M World A) :
  steps (same (S := ExcalidrawUtil.St) snd) (ExcalidrawUtil.on_app m).
Proof. intros st. unfold ExcalidrawUtil.on_app, zoom, same. by destruct (m (fst st)). Qed.

Lemma steps_io {World A} (m : IO World A) :
  steps (same (S := ExcalidrawUtil.St) snd) (ExcalidrawUtil.io m).
Proof. iapply steps_on_app. Qed.

Ltac steps_step :=
  first
    [ iapply steps_ret | iapply steps_throw | iapply steps_starve | iapply steps_gets
    | iapply steps_io | iapply steps_on_app
    | iapply steps_for_fold | iapply steps_for_each
    | iapply steps_bind | iapply steps_try_catch | iapply steps_finally ].

Ltac steps_auto :=
  repeat (intros; first
    [ steps_step
    | match goal with
      | |- steps _ (match ?x with _ => _ end) => destruct x
      | |- steps _ (if ?b then _ else _) => destruct b
      | |- steps _ (let _ := _ in _) => cbv zeta
      end ]).

Section DrawingSteps.
Context {World : Type} `{Host World}.

Lemma steps_createFolderRecursively folderPath :
  steps (same snd) (ExcalidrawUtil.createFolderRecursively folderPath).
Proof. unfold ExcalidrawUtil.createFolderRecursively. steps_auto. Qed.

Lemma steps_ensureImageFolderExists imageFolderPath :
  steps (same snd) (ExcalidrawUtil.ensureImageFolderExists imageFolderPath).
Proof.
  unfold ExcalidrawUtil.ensureImageFolderExists.
  iapply steps_bind; [iapply steps_gets|]. intros [e|]; [iapply steps_ret|].
  iapply steps_createFolderRecursively.
Qed.

Lemma steps_isExcalidrawFile fileName currentFile :
  steps (same snd) (ExcalidrawUtil.isExcalidrawFile fileName currentFile).
Proof. unfold ExcalidrawUtil.isExcalidrawFile. steps_auto. Qed.

Lemma steps_getExcalidrawEmbeddedFiles content :
  steps (same snd) (ExcalidrawUtil.getExcalidrawEmbeddedFiles content).
Proof. unfold ExcalidrawUtil.getExcalidrawEmbeddedFiles. steps_auto. Qed.

End DrawingSteps.

(** ** The image of a drawing *)

Section ImageExport.
Context {World : Type} `{Host World}.

(** One step of a sequence: either the first computation throws, and the
    fields are as before, or it returns and the rest runs. *)
Lemma bind_same_inv {A B} (m : M (@ExcalidrawUtil.St World) A)
    (k : A -> M (@ExcalidrawUtil.St World) B) st o st' :
  steps (same snd) m -> bind m k st = (o, st') ->
  (exists e, o = Throw e /\ snd st' = snd st)
  \/ (o = Starved /\ fst (m st) = Starved)
  \/ (exists a st1, m st = (Ok a, st1) /\ snd st1 = snd st /\ k a st1 = (o, st')).
Proof.
  intros Hm. unfold bind. specialize (Hm st). unfold same in Hm.
  destruct (m st) as [[a|e|] st1]; cbn [snd fst] in *.
  - intros Hk. right. right. by exists a, st1.
  - intros [= <- <-]. left. by exists e.
  - intros [= <- <-]. right. by left.
Qed.

Lemma exportExcalidrawToImage_outcome fileName currentFile (st : @ExcalidrawUtil.St World) :
  exists res st',
    ExcalidrawUtil.exportExcalidrawToImage fileName currentFile st = (Ok res, st')
    /\ ExcalidrawUtil.targetFolderPath (snd st') = ExcalidrawUtil.targetFolderPath (snd st)
    /\ match res with
       | None => ExcalidrawUtil.createdImages (snd st') = ExcalidrawUtil.createdImages (snd st)
       | Some imageFileName =>
           exists file j,
             getFirstLinkpathDest (fst st) fileName (path currentFile) = Some file
             /\ imageFileName = candidate (basename file) j
             /\ ExcalidrawUtil.createdImages (snd st')
                = ExcalidrawUtil.createdImages (snd st)
                  ++ [candidatePath
                        (match ExcalidrawUtil.targetFolderPath (snd st) with
                         | [] => js "_Image"
                         | _ :: _ => ExcalidrawUtil.targetFolderPath (snd st) ++ js "/_Image"
                         end) (basename file) j]
       end.
Proof.
  pose proof (total_exportExcalidrawToImage fileName currentFile st) as Htot.
  destruct (ExcalidrawUtil.exportExcalidrawToImage fileName currentFile st)
    as [o st''] eqn:Hrun. cbn [fst] in Htot.
  unfold ExcalidrawUtil.exportExcalidrawToImage in Hrun.
  unfold bind at 1, gets at 1 in Hrun.
  destruct (getFirstLinkpathDest (fst st) fileName (path currentFile)) as [file|] eqn:Hfile;
    [|injection Hrun as <- <-; by exists None, st].
  unfold try_catch at 1 in Hrun.
  match type of Hrun with match ?m st with _ => _ end = _ =>
    destruct (m st) as [[res|e|] st'] eqn:Hbody end;
    [injection Hrun as <- <- | injection Hrun as <- <- | by injection Hrun as <- _].
  2:{ (* the body throws: the fields are as they were *)
    exists None, st'. split; [done|].
    assert (snd st' = snd st) as ->; [|done].
    apply bind_same_inv in Hbody as [(e' & _ & Hs)|[[? _]|(c & st1 & _ & Hs1 & Hbody)]];
      [done | done | | iapply steps_io].
    destruct (ExcalidrawUtil.decompressExcalidrawContent c) as [[|d dc]|]; try done.
    destruct (parse_elements (d :: dc)) as [elements|]; [|by injection Hbody as _ <-].
    apply bind_same_inv in Hbody as [(e' & _ & Hs)|[[? _]|(ef & st2 & _ & Hs2 & Hbody)]];
      [congruence | done | | iapply steps_getExcalidrawEmbeddedFiles].
    apply bind_same_inv in Hbody as [(e' & _ & Hs)|[[? _]|(blob & st3 & _ & Hs3 & Hbody)]];
      [congruence | done | | iapply steps_io].
    destruct blob as [blob|]; [|done].
    unfold bind at 1, gets at 1 in Hbody.
    apply bind_same_inv in Hbody as [(e' & _ & Hs)|[[? _]|([] & st4 & _ & Hs4 & Hbody)]];
      [congruence | done | | iapply steps_ensureImageFolderExists].
    unfold bind at 1, gets at 1 in Hbody.
    destruct (ExcalidrawUtil.freeImageName _ _ _ _ _ _ _) as [[nm fp]|]; [|done].
    apply bind_same_inv in Hbody as [(e' & _ & Hs)|[[? _]|(buf & st5 & _ & Hs5 & Hbody)]];
      [congruence | done | | iapply steps_io].
    apply bind_same_inv in Hbody as [(e' & _ & Hs)|[[? _]|([] & st6 & _ & Hs6 & Hbody)]];
      [congruence | done | | iapply steps_io].
    done. }
  (* the body returns *)
  exists res, st'. split; [done|].
  apply bind_same_inv in Hbody as [(e' & ? & Hs)|[[? _]|(c & st1 & _ & Hs1 & Hbody)]];
    [done | done | | iapply steps_io].
  destruct (ExcalidrawUtil.decompressExcalidrawContent c) as [[|d dc]|];
    try (injection Hbody as <- <-; by rewrite Hs1).
  destruct (parse_elements (d :: dc)) as [elements|]; [|done].
  apply bind_same_inv in Hbody as [(e' & ? & Hs)|[[? _]|(ef & st2 & _ & Hs2 & Hbody)]];
    [done | done | | iapply steps_getExcalidrawEmbeddedFiles].
  apply bind_same_inv in Hbody as [(e' & ? & Hs)|[[? _]|(blob & st3 & _ & Hs3 & Hbody)]];
    [done | done | | iapply steps_io].
  destruct blob as [blob|]; [|injection Hbody as <- <-; by rewrite Hs3, Hs2, Hs1].
  unfold bind at 1, gets at 1 in Hbody.
  apply bind_same_inv in Hbody as [(e' & ? & Hs)|[[? _]|([] & st4 & _ & Hs4 & Hbody)]];
    [done | done | | iapply steps_ensureImageFolderExists].
  unfold bind at 1, gets at 1 in Hbody.
  assert (snd st3 = snd st) as Hfields by congruence.
  rewrite Hfields in Hbody.
  set (folder := match ExcalidrawUtil.targetFolderPath (snd st) with
                 | [] => js "_Image"
                 | _ :: _ => ExcalidrawUtil.targetFolderPath (snd st) ++ js "/_Image"
                 end).
  assert (match ExcalidrawUtil.targetFolderPath (snd st) with
          | [] => js "_Image"
          | _ :: _ => JS.concat [ExcalidrawUtil.targetFolderPath (snd st); js "/_Image"]
          end = folder) as Hfolder.
  { unfold folder, JS.concat. destruct (ExcalidrawUtil.targetFolderPath (snd st)); [done|].
    cbn [List.concat]. by rewrite app_nil_r. }
  rewrite Hfolder in Hbody.
  destruct (ExcalidrawUtil.freeImageName _ _ _ _ _ _ _) as [[nm fp]|] eqn:Hfree; [|done].
  apply (freeImageName_first _ _ (basename file) folder 0) in Hfree
    as (j & _ & -> & -> & _ & _).
  apply bind_same_inv in Hbody as [(e' & ? & Hs)|[[? _]|(buf & st5 & _ & Hs5 & Hbody)]];
    [done | done | | iapply steps_io].
  apply bind_same_inv in Hbody as [(e' & ? & Hs)|[[? _]|([] & st6 & _ & Hs6 & Hbody)]];
    [done | done | | iapply steps_io].
  injection Hbody as <- <-. cbn [snd ExcalidrawUtil.targetFolderPath ExcalidrawUtil.createdImages].
  assert (snd st6 = snd st) as -> by congruence.
  split; [done|]. by exists file, j.
Qed.

End ImageExport.

(** ** The rewrite pass over a note *)

Lemma matchAll_nil ic r s :
  (forall i m, match_at ic r s i <> Some m) -> matchAll ic r s = [].
Proof.
  intros Hnone. destruct (matchAll ic r s) as [|m ms] eqn:Hall; [done|].
  destruct (matchAll_some ic r s m) as (i & _ & Hat); [rewrite Hall; by left|].
  by destruct (Hnone i m).
Qed.

Lemma contains_skipn (s : jsstring) i a b c :
  skipn i s = a ++ b ++ c -> contains s b.
Proof.
  intros Hskip. exists (firstn i s ++ a), c.
  rewrite <- (firstn_skipn i s) at 1. by rewrite Hskip, <- !app_assoc.
Qed.

(** A link token of a note holds an opening [[[]. *)
Lemma util_wikilink_match content i m :
  match_at false ExcalidrawUtil.wikilinkRegex content i = Some m ->
  contains content (js "[[").
Proof.
  intros (st' & Hsp & ->)%match_at_spans.
  unfold ExcalidrawUtil.wikilinkRegex in Hsp. cbn [Cat] in Hsp.
  apply spans_Group_inv in Hsp as (st1 & Hsp & _).
  apply spans_Seq_inv in Hsp as (st2 & (bang & Hr1 & _)%spans_nogroups & Hsp); [|done].
  apply spans_Seq_inv in Hsp as (st3 & (Hr2 & _)%spans_Lit & _).
  cbn [m_rest] in Hr1. rewrite Hr2 in Hr1. by eapply contains_skipn.
Qed.

Section Rewrite.
Context {World : Type} `{Host World}.

Lemma isExcalidrawFile_returns fileName currentFile :
  returns (ExcalidrawUtil.isExcalidrawFile fileName currentFile).
Proof.
  unfold ExcalidrawUtil.isExcalidrawFile.
  apply returns_bind; [apply returns_gets|]. intros [file|]; [|apply returns_ret].
  apply returns_try_catch; [total_auto | intros; apply returns_ret].
Qed.

(** One step of the loop of [processNoteContent]: it returns, the target
    folder stays, the list of images grows, and the text changes only when
    an image was written. *)
Lemma processNoteContent_step content currentFile m processedContent
    (st : @ExcalidrawUtil.St World) :
  let body := fun processedContent m =>
    let fullMatch := default [] (capture content m 1) in
    let fileName := default [] (capture content m 2) in
    let displayText := capture content m 3 in
    try_catch
      (isDrawing <- ExcalidrawUtil.isExcalidrawFile fileName currentFile ;;
       if isDrawing then
         imageFileName <- ExcalidrawUtil.exportExcalidrawToImage fileName currentFile ;;
         match imageFileName with
         | Some (c :: n) =>
             let imageFileName := c :: n in
             let imageLink :=
               match displayText with
               | Some (d :: t) =>
                   JS.concat [js "![["; imageFileName; js "|"; d :: t; js "]]"]
               | _ => JS.concat [js "![["; imageFileName; js "]]"]
               end in
             ret (ExcalidrawUtil.replaceString processedContent fullMatch imageLink)
         | _ => ret processedContent
         end
       else ret processedContent)
      (fun _ => ret processedContent) in
  exists out st' new,
    body processedContent m st = (Ok out, st')
    /\ ExcalidrawUtil.targetFolderPath (snd st') = ExcalidrawUtil.targetFolderPath (snd st)
    /\ ExcalidrawUtil.createdImages (snd st') = ExcalidrawUtil.createdImages (snd st) ++ new
    /\ (new = [] -> out = processedContent).
Proof.
  intros body. unfold body. unfold try_catch, bind at 1.
  destruct (isExcalidrawFile_returns (default [] (capture content m 2)) currentFile st)
    as ([|] & st1 & Hdraw); rewrite Hdraw.
  2:{ exists processedContent, st1, [].
      pose proof (steps_isExcalidrawFile (default [] (capture content m 2)) currentFile st) as Hfr.
      rewrite Hdraw in Hfr. unfold same in Hfr. cbn [snd] in Hfr. rewrite Hfr, app_nil_r. done. }
  pose proof (steps_isExcalidrawFile (default [] (capture content m 2)) currentFile st) as Hfr.
  rewrite Hdraw in Hfr. unfold same in Hfr. cbn [snd] in Hfr.
  unfold bind.
  destruct (exportExcalidrawToImage_outcome (default [] (capture content m 2)) currentFile st1)
    as (res & st2 & Hexp & Htfp & Hres). rewrite Hexp. rewrite Hfr in Htfp, Hres.
  destruct res as [[|c n]|].
  - destruct Hres as (file & j & _ & Hname & _). exfalso.
    unfold candidate, JS.concat in Hname. destruct j; cbn [List.concat] in Hname;
      apply (f_equal (@length N)) in Hname; rewrite !length_app in Hname; cbn in Hname; lia.
  - destruct Hres as (file & j & _ & _ & Himg).
    eexists _, st2, _. split; [reflexivity|]. split; [done|]. split; [exact Himg|]. done.
  - exists processedContent, st2, []. rewrite app_nil_r. done.
Qed.

Lemma processNoteContent_outcome content currentFile (st : @ExcalidrawUtil.St World) :
  exists out st' new,
    ExcalidrawUtil.processNoteContent content currentFile st = (Ok out, st')
    /\ ExcalidrawUtil.targetFolderPath (snd st') = ExcalidrawUtil.targetFolderPath (snd st)
    /\ ExcalidrawUtil.createdImages (snd st') = ExcalidrawUtil.createdImages (snd st) ++ new
    /\ (new = [] -> out = content).
Proof.
  unfold ExcalidrawUtil.processNoteContent.
  generalize (matchAll false ExcalidrawUtil.wikilinkRegex content) as ms.
  intros ms. generalize content at 1 6 as acc. revert st.
  induction ms as [|m ms IH]; intros st acc; cbn [for_fold].
  - exists acc, st, []. by rewrite app_nil_r.
  - unfold bind at 1.
    destruct (processNoteContent_step content currentFile m acc st)
      as (out1 & st1 & new1 & Hstep & Htfp1 & Himg1 & Hout1).
    cbv zeta in Hstep. rewrite Hstep.
    destruct (IH st1 out1) as (out & st' & new & Hrest & Htfp & Himg & Hout).
    exists out, st', (new1 ++ new). split; [exact Hrest|]. split; [congruence|].
    split; [by rewrite Himg, Himg1, app_assoc|].
    intros [-> ->]%app_eq_nil. rewrite Hout, Hout1; done.
Qed.

End Rewrite.

(** X2. The rewrite pass [processNoteContent] always returns a text,
    whatever the host does; it leaves the target folder of the utility as
    it is and only appends to the list of created images; the text it
    returns differs from the note only if an image was written; and a note
    without an opening pair of brackets is returned as it is, with no
    operation of the host. *)
Theorem processNoteContent_changes_only_with_images {World : Type} `{Host World}
    (content : jsstring) (currentFile : TFile) (st : @ExcalidrawUtil.St World) :
  exists out st' new,
    ExcalidrawUtil.processNoteContent content currentFile st = (Ok out, st')
    /\ ExcalidrawUtil.targetFolderPath (snd st') = ExcalidrawUtil.targetFolderPath (snd st)
    /\ ExcalidrawUtil.createdImages (snd st') = ExcalidrawUtil.createdImages (snd st) ++ new
    /\ (new = [] -> out = content)
    /\ (includes content (js "[[") = false -> out = content /\ st' = st).
Proof.
  destruct (processNoteContent_outcome content currentFile st)
    as (out & st' & new & Hrun & Htfp & Himg & Hout).
  exists out, st', new. split_and!; try done.
  intros Hno. revert Hrun. unfold ExcalidrawUtil.processNoteContent.
  rewrite matchAll_nil; [cbn [for_fold]; by intros [= <- <-]|].
  intros i m Hat%util_wikilink_match. apply includes_spec in Hat. congruence.
Qed.

(** ** Target paths *)

(** The text after the last slash determines the split. *)
Lemma last_segment_inj (a b f1 f2 : jsstring) :
  ~ In (cu "/") f1 -> ~ In (cu "/") f2 ->
  a ++ cu "/" :: f1 = b ++ cu "/" :: f2 -> a = b /\ f1 = f2.
Proof.
  revert b. induction a as [|x a IH]; intros b H1 H2 Heq.
  - destruct b as [|y b]; cbn in Heq.
    + by injection Heq as ->.
    + injection Heq as <- ->. destruct H1. apply in_or_app. right. by left.
  - destruct b as [|y b]; cbn in Heq.
    + injection Heq as -> <-. destruct H2. apply in_or_app. right. by left.
    + injection Heq as -> Heq. destruct (IH b H1 H2 Heq) as [-> ->]. done.
Qed.

Section TargetPath.
Variable settings : NSPublishSettings.t.

(** The file name of the copy, and the target path as a folder, a slash and
    that name. *)
Lemma getTargetPath_split file :
  exists folder fileName,
    NoteCopier.getTargetPath settings file = folder ++ cu "/" :: fileName
    /\ fileName = (if NSPublishSettings.addPublishPrefix settings
                   then NSPublishSettings.publishPrefix settings ++ name file
                   else name file)
    /\ folder = (if NSPublishSettings.preserveFolderStructure settings
                 then match default [] (parent file) with
                      | [] => NSPublishSettings.targetFolderPath settings
                      | _ :: _ => NSPublishSettings.targetFolderPath settings
                                  ++ cu "/" :: default [] (parent file)
                      end
                 else NSPublishSettings.targetFolderPath settings).
Proof.
  eexists _, _. split; [|split; reflexivity].
  unfold NoteCopier.getTargetPath, JS.concat.
  destruct (NSPublishSettings.addPublishPrefix settings),
    (NSPublishSettings.preserveFolderStructure settings), (parent file) as [[|c p]|];
    cbn [default from_option List.concat]; unfold id; change (js "/") with [cu "/"];
    rewrite ?app_nil_r, <- ?app_assoc; cbn [app]; try done.
Qed.

End TargetPath.

(** X3. Two files whose names hold no slash (nor does the publish prefix)
    are copied to the same target path exactly when they have the same name
    and, if the folder structure is preserved, the same folder: with the
    flat layout, notes of the same name from different folders are written
    over each other. *)
Theorem getTargetPath_collisions (settings : NSPublishSettings.t) (f1 f2 : TFile) :
  ~ In (cu "/") (name f1) -> ~ In (cu "/") (name f2) ->
  ~ In (cu "/") (NSPublishSettings.publishPrefix settings) ->
  (NoteCopier.getTargetPath settings f1 = NoteCopier.getTargetPath settings f2
   <-> name f1 = name f2
       /\ (NSPublishSettings.preserveFolderStructure settings = true ->
           default [] (parent f1) = default [] (parent f2))).
Proof.
  intros Hn1 Hn2 Hp.
  destruct (getTargetPath_split settings f1) as (d1 & n1 & -> & Hname1 & Hdir1).
  destruct (getTargetPath_split settings f2) as (d2 & n2 & -> & Hname2 & Hdir2).
  assert (~ In (cu "/") n1 /\ ~ In (cu "/") n2) as [Hs1 Hs2].
  { subst n1 n2. destruct (NSPublishSettings.addPublishPrefix settings); [|done].
    split; intros [|]%in_app_or; done. }
  assert (n1 = n2 <-> name f1 = name f2) as Hnames.
  { subst n1 n2. destruct (NSPublishSettings.addPublishPrefix settings); [|done].
    split; [apply app_inv_head | by intros ->]. }
  assert (d1 = d2 <-> (NSPublishSettings.preserveFolderStructure settings = true ->
                       default [] (parent f1) = default [] (parent f2))) as Hdirs.
  { subst d1 d2. destruct (NSPublishSettings.preserveFolderStructure settings); [|done].
    destruct (default [] (parent f1)) as [|c1 p1], (default [] (parent f2)) as [|c2 p2].
    - done.
    - split; [|intros Heq; by specialize (Heq eq_refl)].
      intros Heq. apply (f_equal (@length N)) in Heq. rewrite length_app in Heq. cbn in Heq. lia.
    - split; [|intros Heq; by specialize (Heq eq_refl)].
      intros Heq. apply (f_equal (@length N)) in Heq. rewrite length_app in Heq. cbn in Heq. lia.
    - split.
      + intros Heq%app_inv_head _. by injection Heq as -> ->.
      + intros Heq. by rewrite (Heq eq_refl). }
  rewrite <- Hnames, <- Hdirs. split.
  - intros [-> ->]%last_segment_inj; done.
  - by intros [-> ->].
Qed.

Lemma getTargetPath_collisions_witness :
  NoteCopier.getTargetPath settings0 (MemHost.fileOf (js "a/n.md"))
  = NoteCopier.getTargetPath settings0 (MemHost.fileOf (js "b/n.md"))
  <-> name (MemHost.fileOf (js "a/n.md")) = name (MemHost.fileOf (js "b/n.md"))
      /\ (NSPublishSettings.preserveFolderStructure settings0 = true ->
          default [] (parent (MemHost.fileOf (js "a/n.md")))
          = default [] (parent (MemHost.fileOf (js "b/n.md")))).
Proof.
  apply (getTargetPath_collisions settings0 (MemHost.fileOf (js "a/n.md"))
           (MemHost.fileOf (js "b/n.md"))); vm_compute; intuition discriminate.
Defined.

(** ** Publishing one note *)

Section Single.
Context {World : Type} `{Host World}.
Variable settings : NSPublishSettings.t.

Lemma publishSingleNote_cases file (r : NoteCopier.Run World) :
  (exists dv,
     NoteCopier.copyFileToTarget settings file (NoteCopier.dev r) = (Ok tt, dv)
     /\ NoteCopier.publishSingleNote settings file r
        = (Ok tt, NoteCopier.mkRun dv (NoteCopier.add_published (path file) (NoteCopier.result r))
                    (NoteCopier.visited r) (NoteCopier.processing r) (NoteCopier.trace r)))
  \/ (exists inner dv,
        NoteCopier.copyFileToTarget settings file (NoteCopier.dev r)
        = (Throw (JS.concat [js "Failed to copy "; path file; js ": "; inner]), dv)
        /\ NoteCopier.publishSingleNote settings file r
           = (Ok tt, NoteCopier.mkRun dv
                       (NoteCopier.push_error
                          (JS.concat [js "Failed to copy "; path file; js ": ";
                                      JS.concat [js "Failed to copy "; path file; js ": "; inner]])
                          (NoteCopier.result r))
                       (NoteCopier.visited r) (NoteCopier.processing r) (NoteCopier.trace r))).
Proof.
  destruct (copyFileToTarget_cases settings file (NoteCopier.dev r))
    as [[dv Hcopy] | [message [dv Hcopy]]].
  - left. exists dv. split; [done|].
    unfold NoteCopier.publishSingleNote. walk_unfold. by rewrite Hcopy.
  - right. destruct (copyFileToTarget_message settings file _ _ _ Hcopy) as [inner ->].
    exists inner, dv. split; [done|].
    unfold NoteCopier.publishSingleNote. walk_unfold. by rewrite Hcopy.
Qed.

End Single.

(** X4. [publishSingleNote] never throws and never touches skippedFiles:
    either the copy succeeds and the path is added to publishedFiles with no
    error, or one error is appended and publishedFiles stays as it is; that
    error carries the prefix [Failed to copy <path>: ] twice, once from
    [copyFileToTarget] and once from [publishSingleNote]. *)
Theorem publishSingleNote_outcome {World : Type} `{Host World}
    (settings : NSPublishSettings.t) (file : TFile) (r : NoteCopier.Run World) :
  exists r',
    NoteCopier.publishSingleNote settings file r = (Ok tt, r')
    /\ skippedFiles (NoteCopier.result r') = skippedFiles (NoteCopier.result r)
    /\ ((publishedFiles (NoteCopier.result r')
         = {[path file]} ∪ publishedFiles (NoteCopier.result r)
         /\ errors (NoteCopier.result r') = errors (NoteCopier.result r))
        \/ (publishedFiles (NoteCopier.result r') = publishedFiles (NoteCopier.result r)
            /\ exists inner,
                 errors (NoteCopier.result r')
                 = errors (NoteCopier.result r)
                   ++ [js "Failed to copy " ++ path file ++ js ": "
                       ++ js "Failed to copy " ++ path file ++ js ": " ++ inner])).
Proof.
  destruct (publishSingleNote_cases settings file r)
    as [(dv & _ & ->) | (inner & dv & _ & ->)]; eexists; (split; [reflexivity|]);
    cbn [NoteCopier.result NoteCopier.add_published NoteCopier.push_error
         publishedFiles skippedFiles errors]; (split; [done|]).
  - by left.
  - right. split; [done|]. exists inner. unfold JS.concat. cbn [List.concat].
    by rewrite ?app_nil_r, <- ?app_assoc.
Qed.

(** ** Publishing without the links *)

#[global] Instance errorsGrow_preorder {World : Type} : PreOrder (@errorsGrow World).
Proof.
  split.
  - intros r. split_and!; [done..|]. exists []. by rewrite app_nil_r.
  - intros r1 r2 r3 (Hp1 & Hs1 & new1 & He1) (Hp2 & Hs2 & new2 & He2).
    split_and!; [congruence..|]. exists (new1 ++ new2). by rewrite He2, He1, app_assoc.
Qed.

Section Only.
Context {World : Type} `{Host World}.
Variable settings : NSPublishSettings.t.

(** An operation of the host leaves the result object as it is. *)
Lemma on_dev_io_run {A} (m : IO World A) (r : NoteCopier.Run World) :
  exists o dv,
    NoteCopier.on_dev (NoteCopier.io m) r
    = (o, NoteCopier.mkRun dv (NoteCopier.result r) (NoteCopier.visited r)
            (NoteCopier.processing r) (NoteCopier.trace r))
    /\ o <> Starved.
Proof.
  unfold NoteCopier.on_dev, NoteCopier.io, ExcalidrawUtil.io, ExcalidrawUtil.on_app, zoom, lift.
  destruct (m (fst (NoteCopier.dev r))) as [[a|e] w]; eexists _, _; split; done.
Qed.

Lemma steps_on_dev {A} (R : relation (NoteCopier.Run World)) `{!Reflexive R}
    (m : M (@NoteCopier.St World) A) :
  (forall r dv, R r (NoteCopier.mkRun dv (NoteCopier.result r) (NoteCopier.visited r)
                      (NoteCopier.processing r) (NoteCopier.trace r))) ->
  steps R (NoteCopier.on_dev m).
Proof.
  intros HR r. unfold NoteCopier.on_dev, zoom.
  destruct (m (NoteCopier.dev r)) as [o dv]. apply HR.
Qed.

Lemma errorsGrow_on_dev {A} (m : M (@NoteCopier.St World) A) :
  steps errorsGrow (NoteCopier.on_dev m).
Proof.
  iapply steps_on_dev. intros r dv. split_and!; [done..|]. exists []. by rewrite app_nil_r.
Qed.

Lemma errorsGrow_push_error e :
  steps (@errorsGrow World) (NoteCopier.set_result (NoteCopier.push_error e)).
Proof. intros r. split_and!; [done..|]. by exists [e]. Qed.

(** A sequence that returns: both parts return. *)
Lemma bind_Ok_inv {S A B} (m : M S A) (k : A -> M S B) s b s' :
  bind m k s = (Ok b, s') -> exists a s1, m s = (Ok a, s1) /\ k a s1 = (Ok b, s').
Proof.
  unfold bind. destruct (m s) as [[a|e|] s1]; [|done..]. intros Hk. by exists a, s1.
Qed.

Lemma publishNote_only_result file md ex (r : NoteCopier.Run World) res r' :
  NoteCopier.publishNote settings file (PublishOptions.mk false md ex) r = (Ok res, r') ->
  publishedFiles res ⊆ match file with Some f => {[path f]} | None => ∅ end
  /\ skippedFiles res = ∅
  /\ (publishedFiles res = ∅ -> errors res <> [])
  /\ res = NoteCopier.result r'.
Proof.
  unfold NoteCopier.publishNote. cbn [PublishOptions.includeLinked].
  unfold bind at 1, NoteCopier.set_result at 1, modify at 1.
  cbn [NoteCopier.dev NoteCopier.result NoteCopier.visited NoteCopier.processing NoteCopier.trace].
  destruct (negb (NoteCopier.isValid (NoteCopier.validatePublishPrerequisites settings file))) eqn:Hvalid.
  { walk_unfold. intros [= <- <-].
    cbn [NoteCopier.push_error publishedFiles skippedFiles errors NoteCopier.result].
    split_and!; [set_solver | done | | done]. intros _. cbn. done. }
  destruct file as [file|]; [|done].
  set (r0 := NoteCopier.mkRun _ _ _ _ _).
  unfold bind at 1.
  destruct (on_dev_io_run (notice (js "Publishing note...")) r0) as (o1 & dv1 & -> & Ho1).
  destruct o1 as [[]|e1|]; [|done..].
  set (r1 := NoteCopier.mkRun _ _ _ _ _).
  (* the copy *)
  assert (exists r2, NoteCopier.publishSingleNote settings file r1 = (Ok tt, r2)
            /\ publishedFiles (NoteCopier.result r2) ⊆ {[path file]}
            /\ skippedFiles (NoteCopier.result r2) = ∅
            /\ (publishedFiles (NoteCopier.result r2) = ∅ -> errors (NoteCopier.result r2) <> []))
    as (r2 & Hsingle & Hpub & Hskip & Herr).
  { destruct (publishSingleNote_cases settings file r1)
      as [(dv & _ & ->) | (inner & dv & _ & ->)]; eexists; (split; [reflexivity|]);
      cbn [NoteCopier.result NoteCopier.add_published NoteCopier.push_error
           publishedFiles skippedFiles errors r1 r0].
    - split_and!; [set_solver | done | set_solver].
    - split_and!; [set_solver | done |]. intros _. cbn. done. }
  (* what follows only adds errors *)
  match goal with
  | |- (bind (try_catch (bind _ ?k) ?h) ?rest) r1 = _ -> _ =>
      assert (bind (try_catch (bind (NoteCopier.publishSingleNote settings file) k) h) rest r1
              = bind (try_catch (k tt) h) rest r2) as ->;
        [unfold bind at 1 3, try_catch at 1 2, bind at 1; by rewrite Hsingle|];
      assert (steps errorsGrow (bind (try_catch (k tt) h) rest)) as Hsteps
  end.
  { unfold NoteCopier.generatePublishedUrl.
    repeat (intros; first
      [ iapply errorsGrow_on_dev | iapply errorsGrow_push_error | steps_step
      | match goal with
        | |- steps _ (match ?x with _ => _ end) => destruct x
        | |- steps _ (if ?b then _ else _) => destruct b
        | |- steps _ (let _ := _ in _) => cbv zeta
        end ]). }
  intros Hrun.
  assert (errorsGrow r2 r') as (Hp & Hs & new & He).
  { change r' with (snd (Ok res, r')). rewrite <- Hrun. apply Hsteps. }
  assert (res = NoteCopier.result r') as ->.
  { apply bind_Ok_inv in Hrun as (a1 & s1 & _ & Hrun).
    apply bind_Ok_inv in Hrun as (a2 & s2 & _ & Hrun).
    apply bind_Ok_inv in Hrun as (a3 & s3 & _ & Hrun).
    by injection Hrun as <- <-. }
  rewrite Hp, Hs, He. split_and!; [done | done | | done].
  intros Hnone [Hnil _]%app_eq_nil. by apply Herr.
Qed.
End Only.

(** X5. When [publishNote] is called with [includeLinked] false and
    returns a result, the result publishes at most the given file, skips
    nothing, and is never silent: if nothing was published, [errors] is not
    empty. *)
Theorem publishNote_only_publishes_one {World : Type} `{Host World}
    (settings : NSPublishSettings.t) (file : option TFile) (maxDepth : option Z)
    (excludePatterns : option (list jsstring)) (r : NoteCopier.Run World)
    (res : PublishResult) (r' : NoteCopier.Run World) :
  NoteCopier.publishNote settings file (PublishOptions.mk false maxDepth excludePatterns) r
  = (Ok res, r') ->
  publishedFiles res ⊆ match file with Some f => {[path f]} | None => ∅ end
  /\ skippedFiles res = ∅
  /\ (publishedFiles res = ∅ -> errors res <> []).
Proof.
  intros Hrun. destruct (publishNote_only_result settings file _ _ r res r' Hrun)
    as (Hp & Hs & He & _). done.
Qed.

Lemma publishNote_only_publishes_one_witness :
  exists res r',
    NoteCopier.publishNote settings0 (Some (MemHost.fileOf (js "root.md")))
      (PublishOptions.mk false None None) (MemHost.start vaultPair) = (Ok res, r')
    /\ publishedFiles res ⊆ {[js "root.md"]}
    /\ skippedFiles res = ∅
    /\ (publishedFiles res = ∅ -> errors res <> []).
Proof.
  eexists _, _. split; [vm_compute; reflexivity|].
  eapply (publishNote_only_publishes_one settings0 (Some (MemHost.fileOf (js "root.md")))
            None None (MemHost.start vaultPair)).
  vm_compute. reflexivity.
Defined.

(** ** Every copy is accounted for *)

Section Accounts.
Context {World : Type} `{Host World}.
Variable settings : NSPublishSettings.t.
Variable maxDepth : Z.

Lemma accounts_refl (r : NoteCopier.Run World) : accounts r r.
Proof.
  exists [], [], []. cbn. rewrite !app_nil_r. split_and!; [done | set_solver | done | done].
Qed.

Lemma walk_accounts :
  (forall file d r r', NoteCopier.walk settings maxDepth file d r r' -> accounts r r')
  /\ (forall files d r r', NoteCopier.walk_each settings maxDepth files d r r' -> accounts r r').
Proof.
  apply NoteCopier.walk_mutind.
  - intros. apply accounts_refl.
  - intros file d r _ _. exists [NoteCopier.Skip (path file) d], [], []. cbn.
    rewrite !app_nil_r. split_and!; [done | set_solver | done | done].
  - intros file d r message dv _ _ Hcopy.
    destruct (copyFileToTarget_message settings file _ _ _ Hcopy) as [inner ->].
    exists [NoteCopier.Materialize (path file) d], [], [(path file, inner)]. cbn.
    split_and!; [done | set_solver | | done].
    unfold NoteCopier.errorMsg, JS.concat. cbn [List.concat].
    by rewrite ?app_nil_r, <- ?app_assoc.
  - intros file d r dv linkedFiles w r' _ _ _ _ _ (new & pubs & fails & Htr & Hpub & Herr & Hperm).
    cbn in *. exists (NoteCopier.Materialize (path file) d :: new), (path file :: pubs), fails.
    cbn. split_and!.
    + by rewrite Htr, <- app_assoc.
    + rewrite Hpub. set_solver.
    + done.
    + by constructor.
  - intros. apply accounts_refl.
  - intros file files d r r1 r2 _ (new1 & pubs1 & fails1 & Htr1 & Hpub1 & Herr1 & Hperm1)
      _ (new2 & pubs2 & fails2 & Htr2 & Hpub2 & Herr2 & Hperm2).
    exists (new1 ++ new2), (pubs1 ++ pubs2), (fails1 ++ fails2). split_and!.
    + by rewrite Htr2, Htr1, app_assoc.
    + rewrite Hpub2, Hpub1, list_to_set_app_L. set_solver.
    + by rewrite Herr2, Herr1, map_app, app_assoc.
    + rewrite materialized_app, map_app, Hperm1, Hperm2. solve_Permutation.
Qed.

End Accounts.

(** X6. Every copy of a walk is accounted for exactly once:
    [publishNoteWithLinks] returns, the paths it copied are pairwise
    different, and they split into the paths added to publishedFiles and the
    failures; each failure gives one error
    [Error processing <path>: Failed to copy <path>: <message>], in the
    order of the failures, and no other error is added. *)
Theorem every_copy_is_accounted_for {World : Type} `{Host World}
    (settings : NSPublishSettings.t) (file : TFile) (options : PublishOptions.t)
    (r : NoteCopier.Run World) :
  exists r' pubs fails,
    NoteCopier.publishNoteWithLinks settings file options r = (Ok tt, r')
    /\ NoDup (materialized (NoteCopier.trace r'))
    /\ materialized (NoteCopier.trace r') ≡ₚ pubs ++ List.map fst fails
    /\ publishedFiles (NoteCopier.result r')
       = list_to_set pubs ∪ publishedFiles (NoteCopier.result r)
    /\ errors (NoteCopier.result r')
       = errors (NoteCopier.result r)
         ++ List.map (fun pm : jsstring * jsstring =>
                        js "Error processing " ++ fst pm ++ js ": "
                        ++ js "Failed to copy " ++ fst pm ++ js ": " ++ snd pm) fails.
Proof.
  destruct (publishNoteWithLinks_run settings file options r) as (r' & Hrun & Hwalk).
  pose proof (proj1 (walk_copiedOnce settings _) _ _ _ _ Hwalk (fresh_copiedOnce r)) as [Hnd _].
  apply (proj1 (walk_accounts settings _)) in Hwalk
    as (new & pubs & fails & Htr & Hpub & Herr & Hperm).
  cbn in Htr. subst new. by exists r', pubs, fails.
Qed.

(** ** A skipped path is not marked as visited *)

(** X7. Recording a path in skippedFiles does not mark it as visited: when
    a later call reaches the path within the bound and its copy succeeds,
    the path is published, and it stays in skippedFiles, so the two sets of
    the result overlap. *)
Theorem skipped_path_is_published_later {World : Type} `{Host World}
    (settings : NSPublishSettings.t) (fuel : nat) (file : TFile) (d maxDepth : Z)
    (r : NoteCopier.Run World) (dv : World * ExcalidrawUtil.fields) :
  path file ∈ skippedFiles (NoteCopier.result r) ->
  ~ NoteCopier.seen (path file) r ->
  (d <= maxDepth)%Z ->
  (Z.to_nat (maxDepth + 1 - d) < fuel)%nat ->
  NoteCopier.copyFileToTarget settings file (NoteCopier.dev r) = (Ok tt, dv) ->
  exists r',
    NoteCopier.publishNoteRecursively settings fuel file d maxDepth r = (Ok tt, r')
    /\ path file ∈ publishedFiles (NoteCopier.result r')
    /\ path file ∈ skippedFiles (NoteCopier.result r').
Proof.
  intros Hskipped Hfresh Hin Hfuel Hcopy.
  destruct (walk_run settings maxDepth fuel file d r Hfuel) as (r' & Hrun & Hwalk).
  exists r'. split; [done|].
  pose proof (proj1 (walk_extends settings maxDepth) _ _ _ _ Hwalk) as (_ & _ & _ & Hsk).
  split; [|set_solver].
  inversion Hwalk as [| |? ? ? message dv' _ _ Hcopy'
                      |? ? ? dv' linkedFiles w r1 _ _ Hcopy' Hlinks Heach]; subst;
    try done; try lia; try congruence.
  pose proof (proj2 (walk_extends settings maxDepth) _ _ _ _ Heach) as (_ & _ & Hpub & _).
  cbn in *. set_solver.
Qed.

Lemma skipped_path_is_published_later_witness :
  exists r',
    NoteCopier.publishNoteRecursively settings0 3 (MemHost.fileOf (js "d.md")) 1 2
      afterFirstLink = (Ok tt, r')
    /\ path (MemHost.fileOf (js "d.md")) ∈ publishedFiles (NoteCopier.result r')
    /\ path (MemHost.fileOf (js "d.md")) ∈ skippedFiles (NoteCopier.result r').
Proof.
  eapply (skipped_path_is_published_later settings0 3 (MemHost.fileOf (js "d.md")) 1 2
            afterFirstLink).
  - apply (bool_decide_unpack _). vm_compute. exact I.
  - intros Hseen%seen_decide. vm_compute in Hseen. discriminate.
  - lia.
  - vm_compute. lia.
  - vm_compute. reflexivity.
Defined.

(** ** The dry-run scan of the links *)

Lemma set_add_cases (f : TFile) files :
  (In f files /\ WikilinkParser.set_add f files = files)
  \/ (~ In f files /\ WikilinkParser.set_add f files = files ++ [f]).
Proof.
  unfold WikilinkParser.set_add. destruct (bool_decide (f ∈ files)) eqn:Hin.
  - left. apply bool_decide_eq_true in Hin. by apply list_elem_of_In in Hin.
  - right. apply bool_decide_eq_false in Hin. split; [|done].
    intros Hf. by apply Hin, list_elem_of_In.
Qed.

Section ScanRun.
Context {World : Type} `{Host World}.
Variable settings : NSPublishSettings.t.
Variable maxDepth : Z.
Variable Inv : World -> Prop.
Variable links : jsstring -> list TFile.

Abbreviation helper := (WikilinkParser.getAllLinkedFilesRecursivelyHelper settings).
Abbreviation Scan := (WikilinkParser.Scan (World := World)).

Lemma scanned_refl d sources (s : Scan) :
  Inv (WikilinkParser.app s) -> (forall p, In p sources -> p ∈ WikilinkParser.visited s \/ (maxDepth <= d)%Z) ->
  scanned Inv links maxDepth d sources s s.
Proof.
  intros HInv Hvis. split_and!; try done.
  - exists []. by rewrite app_nil_r.
  - intros Hd p Hp. destruct (Hvis p Hp); [done | lia].
  - intros Hd p Hp Hnew. destruct (Hvis p Hp); [done | lia].
Qed.

Lemma scan_run (Hstatic : staticScan settings Inv links) fuel : forall file d (s : Scan),
  (Z.to_nat (maxDepth - d) < fuel)%nat -> Inv (WikilinkParser.app s) ->
  exists s', helper fuel file maxDepth d s = (Ok tt, s')
             /\ scanned Inv links maxDepth d [path file] s s'.
Proof.
  induction fuel as [|fuel IH]; intros file d s Hfuel HInv; [lia|].
  cbn [WikilinkParser.getAllLinkedFilesRecursivelyHelper].
  unfold bind at 1, gets at 1.
  destruct (Z.leb_spec maxDepth d) as [Hstop|Hgo].
  { exists s. split; [done|]. apply scanned_refl; [done|]. intros p _. by right. }
  cbn [orb].
  destruct (bool_decide (path file ∈ WikilinkParser.visited s)) eqn:Hvis.
  { apply bool_decide_eq_true in Hvis. exists s. split; [done|].
    apply scanned_refl; [done|]. intros p [<-|[]]. by left. }
  apply bool_decide_eq_false in Hvis.
  unfold bind at 1, modify at 1.
  set (s1 := WikilinkParser.mkScan _ _ _).
  unfold try_catch, bind at 1, zoom.
  destruct (Hstatic file (WikilinkParser.app s1)) as (w & -> & HInv1); [done|].
  set (s2 := WikilinkParser.mkScan _ _ _).
  (* the loop over the links *)
  assert (forall files (s3 : Scan),
            Inv (WikilinkParser.app s3) ->
            exists s',
              for_each files (fun linkedFile =>
                modify (fun s => WikilinkParser.mkScan (WikilinkParser.app s)
                                   (WikilinkParser.visited s)
                                   (WikilinkParser.set_add linkedFile
                                      (WikilinkParser.allLinkedFiles s))) ;;
                helper fuel linkedFile maxDepth (d + 1)) s3 = (Ok tt, s')
              /\ Inv (WikilinkParser.app s')
              /\ WikilinkParser.visited s3 ⊆ WikilinkParser.visited s'
              /\ (exists more,
                    WikilinkParser.allLinkedFiles s' = WikilinkParser.allLinkedFiles s3 ++ more
                    /\ Forall (fun f => exists g k, In g files /\ (d + 1 + Z.of_nat k <= maxDepth)%Z
                                          /\ reach links k (path g) (path f)) more)
              /\ (NoDup (WikilinkParser.allLinkedFiles s3)
                  -> NoDup (WikilinkParser.allLinkedFiles s'))
              /\ (forall X, listed links X s3 -> listed links X s')
              /\ (forall g, In g files -> In g (WikilinkParser.allLinkedFiles s'))
              /\ ((d + 1 < maxDepth)%Z ->
                  forall g, In g files -> path g ∈ WikilinkParser.visited s')) as Hloop.
  { induction files as [|g files IHf]; intros s3 HInv3; cbn [for_each].
    - exists s3. split_and!; try done. exists []. by rewrite app_nil_r.
    - unfold bind at 1, bind at 1, modify at 1.
      set (s4 := WikilinkParser.mkScan _ _ _).
      destruct (IH g (d + 1)%Z s4) as (s5 & -> & HInv5 & Hv5 & (more5 & Hall5 & Hmore5)
                                         & Hnd5 & Hl5 & Hin5 & _); [lia | done |].
      destruct (IHf s5 HInv5) as (s' & -> & HInv' & Hv' & (more' & Hall' & Hmore')
                                    & Hnd' & Hl' & Hlist' & Hin').
      exists s'. split; [done|].
      assert (exists added, WikilinkParser.allLinkedFiles s4
                            = WikilinkParser.allLinkedFiles s3 ++ added
                            /\ (added = [] \/ added = [g])
                            /\ In g (WikilinkParser.allLinkedFiles s4)
                            /\ (NoDup (WikilinkParser.allLinkedFiles s3)
                                -> NoDup (WikilinkParser.allLinkedFiles s4)))
        as (added & Hall4 & Hadded & Hg4 & Hnd4).
      { cbn [s4 WikilinkParser.allLinkedFiles].
        destruct (set_add_cases g (WikilinkParser.allLinkedFiles s3)) as [[Hg ->]|[Hg ->]].
        - exists []. rewrite app_nil_r. split_and!; auto.
        - exists [g]. split_and!; auto.
          + apply in_or_app. right. by left.
          + intros Hnd. apply NoDup_app. split_and!; [done | | apply NoDup_singleton].
            intros x Hx Hx'. apply list_elem_of_In in Hx, Hx'. destruct Hx' as [<-|[]]. done. }
      split_and!.
      + done.
      + cbn [s4 WikilinkParser.visited] in Hv5. set_solver.
      + exists (added ++ more5 ++ more'). split; [by rewrite Hall', Hall5, Hall4, <- !app_assoc|].
        apply Forall_app. split; [|apply Forall_app; split].
        * destruct Hadded as [->| ->]; [constructor|]. constructor; [|constructor].
          exists g, 0%nat. split_and!; [by left | lia | constructor].
        * eapply Forall_impl; [exact Hmore5|]. cbn. intros f (p & k & [<-|[]] & Hk1 & Hk & Hreach).
          exists g, k. split_and!; [by left | lia | done].
        * eapply Forall_impl; [exact Hmore'|]. cbn. intros f (g' & k & Hg' & Hk & Hreach).
          exists g', k. split_and!; [by right | lia | done].
      + intros Hnd. by apply Hnd', Hnd5, Hnd4.
      + intros X Hl. apply Hl', Hl5. intros x Hx HxX f Hf.
        cbn [s4 WikilinkParser.visited] in Hx. rewrite Hall4. apply in_or_app. left.
        by eapply Hl.
      + intros g' [<-|Hg'].
        * rewrite Hall', Hall5. apply in_or_app. left. apply in_or_app. by left.
        * by apply Hlist'.
      + intros Hd g' [<-|Hg'].
        * apply Hv'. apply Hin5; [lia | by left].
        * by apply Hin'. }
  destruct (Hloop (links (path file)) s2 HInv1)
    as (s' & -> & HInv' & Hv' & (more & Hall & Hmore) & Hnd & Hl & Hlist & Hin).
  exists s'. split; [done|].
  cbn [s2 s1 WikilinkParser.visited WikilinkParser.allLinkedFiles WikilinkParser.app] in *.
  split_and!.
  - done.
  - set_solver.
  - exists more. split; [done|].
    eapply Forall_impl; [exact Hmore|]. cbn. intros f (g & k & Hg & Hk & Hreach).
    exists (path file), (S k). split_and!; [by left | lia | lia | by econstructor].
  - done.
  - intros X HlX. intros x Hx HxX f Hf.
    destruct (decide (x = path file)) as [->|Hne]; [by apply Hlist|].
    assert (listed links (X ∪ {[path file]}) s') as Hls'.
    { apply Hl. intros y Hy HyX g Hg.
      cbn [WikilinkParser.visited WikilinkParser.allLinkedFiles] in *.
      apply (HlX y); [set_solver | set_solver | done]. }
    apply (Hls' x); [done | set_solver | done].
  - intros _ p [<-|[]]. set_solver.
  - intros Hd p [<-|[]] _ g Hg. by apply Hin.
Qed.

End ScanRun.

Section ScanAny.
Context {World : Type} `{Host World}.
Variable settings : NSPublishSettings.t.
Variable maxDepth : Z.

(** On every host the scan returns and keeps [allLinkedFiles] free of
    duplicates. *)
Lemma scan_returns fuel : forall file d (s : WikilinkParser.Scan (World := World)),
  (Z.to_nat (maxDepth - d) < fuel)%nat ->
  exists s', WikilinkParser.getAllLinkedFilesRecursivelyHelper settings fuel file maxDepth d s
             = (Ok tt, s')
             /\ (NoDup (WikilinkParser.allLinkedFiles s)
                 -> NoDup (WikilinkParser.allLinkedFiles s'))
             /\ ((maxDepth <= d)%Z \/ path file ∈ WikilinkParser.visited s -> s' = s).
Proof.
  induction fuel as [|fuel IH]; intros file d s Hfuel; [lia|].
  cbn [WikilinkParser.getAllLinkedFilesRecursivelyHelper].
  unfold bind at 1, gets at 1.
  destruct (Z.leb_spec maxDepth d) as [Hstop|Hgo]; [by exists s|].
  cbn [orb].
  destruct (bool_decide (path file ∈ WikilinkParser.visited s)) eqn:Hvis; [by exists s|].
  apply bool_decide_eq_false in Hvis.
  unfold bind at 1, modify at 1.
  set (s1 := WikilinkParser.mkScan _ _ _).
  unfold try_catch, bind at 1, zoom.
  destruct (getLinkedFiles_returns settings file (WikilinkParser.app s1)) as (files & w & ->).
  set (s2 := WikilinkParser.mkScan _ _ _).
  assert (forall files (s3 : WikilinkParser.Scan (World := World)),
            exists s',
              for_each files (fun linkedFile =>
                modify (fun s => WikilinkParser.mkScan (WikilinkParser.app s)
                                   (WikilinkParser.visited s)
                                   (WikilinkParser.set_add linkedFile
                                      (WikilinkParser.allLinkedFiles s))) ;;
                WikilinkParser.getAllLinkedFilesRecursivelyHelper settings fuel linkedFile
                  maxDepth (d + 1)) s3 = (Ok tt, s')
              /\ (NoDup (WikilinkParser.allLinkedFiles s3)
                  -> NoDup (WikilinkParser.allLinkedFiles s'))) as Hloop.
  { clear files w s2. induction files as [|g files IHf]; intros s3; cbn [for_each].
    - by exists s3.
    - unfold bind at 1, bind at 1, modify at 1.
      set (s4 := WikilinkParser.mkScan _ _ _).
      destruct (IH g (d + 1)%Z s4) as (s5 & -> & Hnd5 & _); [lia|].
      destruct (IHf s5) as (s' & -> & Hnd').
      exists s'. split; [done|]. intros Hnd. apply Hnd', Hnd5.
      cbn [s4 WikilinkParser.allLinkedFiles].
      destruct (set_add_cases g (WikilinkParser.allLinkedFiles s3)) as [[Hg ->]|[Hg ->]]; [done|].
      apply NoDup_app. split_and!; [done | | apply NoDup_singleton].
      intros x Hx Hx'. apply list_elem_of_In in Hx, Hx'. destruct Hx' as [<-|[]]. done. }
  destruct (Hloop files s2) as (s' & -> & Hnd).
  exists s'. split; [done|]. split; [done|]. intros [?|?]; [lia | done].
Qed.

End ScanAny.

Lemma scan_outcome {World : Type} `{Host World}
    (settings : NSPublishSettings.t) (startFile : TFile) (maxDepth : option Z)
    (visited : option (gset jsstring)) (w : World) :
  exists files w',
    WikilinkParser.getAllLinkedFilesRecursively settings startFile maxDepth visited w
    = (Ok files, w')
    /\ NoDup files
    /\ ((default (NSPublishSettings.maxDepth settings) maxDepth <= 0)%Z
        \/ path startFile ∈ default ∅ visited ->
        files = [] /\ w' = w).
Proof.
  unfold WikilinkParser.getAllLinkedFilesRecursively.
  set (md := default (NSPublishSettings.maxDepth settings) maxDepth).
  set (s0 := WikilinkParser.mkScan w (default ∅ visited) []).
  destruct (scan_returns settings md (WikilinkParser.scanFuel md) startFile 0 s0)
    as (s' & Hrun & Hnd & Hstop).
  { unfold WikilinkParser.scanFuel. lia. }
  exists (WikilinkParser.allLinkedFiles s'), (WikilinkParser.app s').
  unfold bind. rewrite Hrun. split; [done|]. split; [apply Hnd; constructor|].
  intros Hcase. rewrite Hstop; [done|]. destruct Hcase; [left; lia | by right].
Qed.

Section ScanStatic.
Context {World : Type} `{Host World}.
Variable settings : NSPublishSettings.t.

Lemma scan_static Inv links startFile maxDepth w :
  staticScan settings Inv links -> Inv w ->
  exists files w',
    WikilinkParser.getAllLinkedFilesRecursively settings startFile (Some maxDepth) None w
    = (Ok files, w')
    /\ Inv w'
    /\ (forall f, In f files ->
          exists k, (1 <= k)%nat /\ (Z.of_nat k <= maxDepth)%Z
                    /\ reach links k (path startFile) (path f))
    /\ ((1 <= maxDepth)%Z -> forall f, In f (links (path startFile)) -> In f files)
    /\ ((2 <= maxDepth)%Z -> forall a, In a (links (path startFile)) ->
          forall f, In f (links (path a)) -> In f files).
Proof.
  intros Hstatic HInv. unfold WikilinkParser.getAllLinkedFilesRecursively. cbn [default from_option].
  unfold id.
  set (s0 := WikilinkParser.mkScan w ∅ []).
  destruct (scan_run settings maxDepth Inv links Hstatic (WikilinkParser.scanFuel maxDepth)
              startFile 0 s0) as (s' & Hrun & HInv' & Hv & (more & Hall & Hmore) & _ & Hl & Hin & Hkids).
  { unfold WikilinkParser.scanFuel. lia. }
  { done. }
  exists (WikilinkParser.allLinkedFiles s'), (WikilinkParser.app s').
  unfold bind. rewrite Hrun. split; [done|]. split; [done|].
  assert (listed links ∅ s') as Hlisted.
  { apply Hl. intros x Hx. cbn in Hx. set_solver. }
  cbn [s0 WikilinkParser.allLinkedFiles app] in Hall. cbn in Hall. subst more.
  split_and!.
  - intros f Hf. rewrite List.Forall_forall in Hmore.
    destruct (Hmore f Hf) as (p & k & [<-|[]] & Hk1 & Hk & Hreach). exists k. split_and!; [done | lia | done].
  - intros Hmd f Hf. apply (Hlisted (path startFile)); [|set_solver | done].
    apply Hin; [lia | by left].
  - intros Hmd a Ha f Hf.
    apply (Hlisted (path a)); [|set_solver | done].
    apply (Hkids ltac:(lia) (path startFile)); [by left | set_solver | done].
Qed.

End ScanStatic.

(** X8. On every host [getAllLinkedFilesRecursively] returns (a cycle of
    links does not keep it running, and it never throws) and the files it
    returns are pairwise different; with a depth bound of 0 or less, or a
    start file that is already in [visited], it returns no file and runs no
    operation of the host. *)
Theorem scan_returns_distinct_files {World : Type} `{Host World}
    (settings : NSPublishSettings.t) (startFile : TFile) (maxDepth : option Z)
    (visited : option (gset jsstring)) (w : World) :
  exists files w',
    WikilinkParser.getAllLinkedFilesRecursively settings startFile maxDepth visited w
    = (Ok files, w')
    /\ NoDup files
    /\ ((default (NSPublishSettings.maxDepth settings) maxDepth <= 0)%Z
        \/ path startFile ∈ default ∅ visited ->
        files = [] /\ w' = w).
Proof. apply scan_outcome. Qed.

(** X9. Over a static link graph the dry-run scan with bound [maxDepth]
    returns only files that are between 1 and [maxDepth] links from the
    start file; it returns every direct link of the start file when the
    bound is at least 1, and every link of those when it is at least 2. *)
Theorem scan_within_bound {World : Type} `{Host World}
    (settings : NSPublishSettings.t) (Inv : World -> Prop)
    (links : jsstring -> list TFile) (startFile : TFile) (maxDepth : Z) (w : World) :
  staticScan settings Inv links -> Inv w ->
  exists files w',
    WikilinkParser.getAllLinkedFilesRecursively settings startFile (Some maxDepth) None w
    = (Ok files, w')
    /\ (forall f, In f files ->
          exists k, (1 <= k)%nat /\ (Z.of_nat k <= maxDepth)%Z
                    /\ reach links k (path startFile) (path f))
    /\ ((1 <= maxDepth)%Z -> forall f, In f (links (path startFile)) -> In f files)
    /\ ((2 <= maxDepth)%Z -> forall a, In a (links (path startFile)) ->
          forall f, In f (links (path a)) -> In f files).
Proof.
  intros Hstatic HInv.
  destruct (scan_static settings Inv links startFile maxDepth w Hstatic HInv)
    as (files & w' & Hrun & _ & Hsound & Hone & Htwo).
  by exists files, w'.
Qed.

Lemma scripted_staticScan notes settings :
  @staticScan unit (ScriptHost.host notes) settings (fun _ => True)
    (ScriptHost.links notes settings).
Proof. intros file w _. exists tt. by rewrite scripted_links_static. Qed.

Lemma scan_within_bound_witness :
  exists files w',
    @WikilinkParser.getAllLinkedFilesRecursively unit (ScriptHost.host chainNotes) settings0
      (MemHost.fileOf (js "root.md")) (Some 2%Z) None tt = (Ok files, w')
    /\ (forall f, In f files ->
          exists k, (1 <= k)%nat /\ (Z.of_nat k <= 2)%Z
                    /\ reach (ScriptHost.links chainNotes settings0) k
                          (path (MemHost.fileOf (js "root.md"))) (path f))
    /\ ((1 <= 2)%Z ->
        forall f, In f (ScriptHost.links chainNotes settings0
                          (path (MemHost.fileOf (js "root.md")))) -> In f files)
    /\ ((2 <= 2)%Z ->
        forall a, In a (ScriptHost.links chainNotes settings0
                          (path (MemHost.fileOf (js "root.md")))) ->
        forall f, In f (ScriptHost.links chainNotes settings0 (path a)) -> In f files).
Proof.
  apply (@scan_within_bound unit (ScriptHost.host chainNotes) settings0 (fun _ => True)
           (ScriptHost.links chainNotes settings0) (MemHost.fileOf (js "root.md")) 2 tt).
  - apply scripted_staticScan.
  - exact I.
Defined.

(** ** The publishing statistics *)

Section Stats.
Context {World : Type} `{Host World}.
Variable settings : NSPublishSettings.t.

(** The loop that adds the sizes of the linked files: it returns, it only
    adds to [estimatedSize]. *)
Lemma sizes_loop files : forall (ws : World * NoteCopier.PublishingStats),
  exists w' n,
    for_each files (fun linkedFile =>
      try_catch
        (content <- NoteCopier.on_host (lift (vault_read linkedFile)) ;;
         NoteCopier.add_size (length content))
        (fun _ => ret tt)) ws
    = (Ok tt, (w', NoteCopier.mkStats (NoteCopier.totalFiles (snd ws))
                     (NoteCopier.linkedFiles (snd ws))
                     (NoteCopier.estimatedSize (snd ws) + n))).
Proof.
  induction files as [|f files IH]; intros [w st]; cbn [for_each].
  - exists w, 0%nat. cbn. rewrite Nat.add_0_r. by destruct st.
  - assert (forall ws0 : World * NoteCopier.PublishingStats, exists w1 n1,
              try_catch
                (content <- NoteCopier.on_host (lift (vault_read f)) ;;
                 NoteCopier.add_size (length content))
                (fun _ => ret tt) ws0
              = (Ok tt, (w1, NoteCopier.mkStats (NoteCopier.totalFiles (snd ws0))
                               (NoteCopier.linkedFiles (snd ws0))
                               (NoteCopier.estimatedSize (snd ws0) + n1)))) as Hone.
    { intros [w0 st0]. unfold try_catch, bind, NoteCopier.on_host, zoom, lift. cbn [fst snd].
      destruct (vault_read f w0) as [[c|e] w1]; cbn [fst snd].
      - by exists w1, (length c).
      - exists w1, 0%nat. unfold ret. rewrite Nat.add_0_r. by destruct st0. }
    unfold bind at 1. destruct (Hone (w, st)) as (w1 & n1 & ->).
    match goal with |- context [for_each files ?body ?ws] =>
      destruct (IH ws) as (w' & n & ->) end.
    exists w', (n1 + n)%nat. cbn [fst snd NoteCopier.totalFiles NoteCopier.linkedFiles
                                 NoteCopier.estimatedSize]. by rewrite Nat.add_assoc.
Qed.

Lemma getPublishingStats_outcome file includeLinked w :
  exists stats w',
    NoteCopier.getPublishingStats settings file includeLinked w = (Ok stats, w')
    /\ match vault_read file w with
       | (Raise _, w1) => stats = NoteCopier.mkStats 1 [] 0 /\ w' = w1
       | (Return content, w1) =>
           if default true includeLinked then
             exists files w2 n,
               WikilinkParser.getAllLinkedFilesRecursively settings file None None w1
               = (Ok files, w2)
               /\ stats = NoteCopier.mkStats (1 + length files) files (length content + n)
           else stats = NoteCopier.mkStats 1 [] (length content) /\ w' = w1
       end.
Proof.
  unfold NoteCopier.getPublishingStats, NoteCopier.with_local.
  unfold bind at 1, try_catch at 1, bind at 1, NoteCopier.on_host at 1, zoom, lift. cbn [fst snd].
  destruct (vault_read file w) as [[content|e] w1]; cbn [fst snd].
  2:{ eexists _, _. split; [reflexivity|]. done. }
  unfold bind at 1, NoteCopier.add_size at 1, modify at 1. cbn [fst snd NoteCopier.totalFiles
    NoteCopier.linkedFiles NoteCopier.estimatedSize].
  destruct (default true includeLinked).
  2:{ eexists _, _. split; [reflexivity|]. done. }
  unfold bind at 1, NoteCopier.on_host at 1, zoom. cbn [fst snd].
  destruct (scan_outcome settings file None None w1) as (files & w2 & Hscan & _).
  rewrite Hscan. unfold bind at 1, modify at 1. cbn [fst snd NoteCopier.totalFiles
    NoteCopier.linkedFiles NoteCopier.estimatedSize].
  match goal with |- context [for_each files ?body ?ws] =>
    destruct (sizes_loop files ws) as (w' & n & Hloop);
    match type of Hloop with ?lhs = _ => change (for_each files body ws) with lhs end
  end.
  rewrite Hloop. cbn [fst snd NoteCopier.totalFiles NoteCopier.linkedFiles
                      NoteCopier.estimatedSize].
  eexists _, _. split; [reflexivity|]. exists files, w2, n. done.
Qed.

End Stats.

(** X10. [getPublishingStats] always returns, whatever the host does:
    [totalFiles] is one more than the number of linked files, which are
    pairwise different and none when [includeLinked] is false; when the
    main file cannot be read the statistics are 1 file, no linked file and
    size 0; when it is read, the estimated size is at least its length. *)
Theorem getPublishingStats_counts {World : Type} `{Host World}
    (settings : NSPublishSettings.t) (file : TFile) (includeLinked : option bool) (w : World) :
  exists stats w',
    NoteCopier.getPublishingStats settings file includeLinked w = (Ok stats, w')
    /\ NoteCopier.totalFiles stats = (1 + length (NoteCopier.linkedFiles stats))%nat
    /\ NoDup (NoteCopier.linkedFiles stats)
    /\ (includeLinked = Some false -> NoteCopier.linkedFiles stats = [])
    /\ (forall e w1, vault_read file w = (Raise e, w1) ->
          stats = NoteCopier.mkStats 1 [] 0 /\ w' = w1)
    /\ (forall content w1, vault_read file w = (Return content, w1) ->
          (length content <= NoteCopier.estimatedSize stats)%nat).
Proof.
  destruct (getPublishingStats_outcome settings file includeLinked w)
    as (stats & w' & Hrun & Hcases).
  exists stats, w'. split; [done|].
  destruct (vault_read file w) as [[content|e] w1].
  - destruct (default true includeLinked) eqn:Hinc.
    + destruct Hcases as (files & w2 & n & Hscan & ->).
      destruct (scan_outcome settings file None None w1) as (files' & w2' & Hscan' & Hnd & _).
      rewrite Hscan in Hscan'. injection Hscan' as <- <-.
      cbn. split_and!; try done.
      * intros ->. done.
      * intros c w3 [= <- <-]. lia.
    + destruct Hcases as [-> ->]. cbn. split_and!; try done.
      * constructor.
      * intros c w3 [= <- <-]. lia.
  - destruct Hcases as [-> ->]. cbn. split_and!; try done.
    + constructor.
    + by intros e0 w2 [= <- <-].
Qed.

(** X11. Over a static link graph with a configured depth of at least 2, when
    the main file is read and links to a note that links back to it, the
    main file is among the linked files of the statistics, so [totalFiles]
    counts it twice. *)
Theorem getPublishingStats_counts_start_again {World : Type} `{Host World}
    (settings : NSPublishSettings.t) (Inv : World -> Prop)
    (links : jsstring -> list TFile) (file a : TFile) (w w1 : World) (content : jsstring) :
  staticScan settings Inv links ->
  vault_read file w = (Return content, w1) -> Inv w1 ->
  (2 <= NSPublishSettings.maxDepth settings)%Z ->
  In a (links (path file)) -> In file (links (path a)) ->
  exists stats w',
    NoteCopier.getPublishingStats settings file None w = (Ok stats, w')
    /\ In file (NoteCopier.linkedFiles stats)
    /\ NoteCopier.totalFiles stats = (1 + length (NoteCopier.linkedFiles stats))%nat.
Proof.
  intros Hstatic Hread HInv Hdepth Ha Hback.
  destruct (getPublishingStats_outcome settings file None w) as (stats & w' & Hrun & Hcases).
  exists stats, w'. split; [done|].
  rewrite Hread in Hcases. cbn [default from_option] in Hcases. unfold id in Hcases.
  destruct Hcases as (files & w2 & n & Hscan & ->).
  destruct (scan_static settings Inv links file (NSPublishSettings.maxDepth settings) w1
              Hstatic HInv) as (files' & w2' & Hscan' & _ & _ & _ & Htwo).
  unfold WikilinkParser.getAllLinkedFilesRecursively in Hscan, Hscan'.
  cbn [default from_option] in Hscan, Hscan'. unfold id in Hscan, Hscan'.
  rewrite Hscan in Hscan'. injection Hscan' as <- <-.
  cbn. split; [|done]. by apply (Htwo Hdepth a).
Qed.

Lemma getPublishingStats_counts_start_again_witness :
  exists stats w',
    @NoteCopier.getPublishingStats unit (ScriptHost.host cycleNotes) settings0
      (MemHost.fileOf (js "root.md")) None tt = (Ok stats, w')
    /\ In (MemHost.fileOf (js "root.md")) (NoteCopier.linkedFiles stats)
    /\ NoteCopier.totalFiles stats = (1 + length (NoteCopier.linkedFiles stats))%nat.
Proof.
  apply (@getPublishingStats_counts_start_again unit (ScriptHost.host cycleNotes) settings0
           (fun _ => True) (ScriptHost.links cycleNotes settings0)
           (MemHost.fileOf (js "root.md")) (MemHost.fileOf (js "a.md")) tt tt (js "[[a]]")).
  - apply scripted_staticScan.
  - reflexivity.
  - exact I.
  - vm_compute. discriminate.
  - vm_compute. by left.
  - vm_compute. by left.
Defined.

(** ** The settings tab *)

Lemma parsePatterns_clean value :
  Forall cleanPattern (SettingsTab.parsePatterns value).
Proof.
  unfold SettingsTab.parsePatterns. apply List.Forall_forall.
  intros p [Hin Hlen]%filter_In. apply in_map_iff in Hin as (seg & <- & Hseg).
  split_and!.
  - intros Hnil. rewrite Hnil in Hlen. done.
  - intros Hc%trim_In. by eapply split_no_sep.
  - apply trim_trim.
Qed.

Lemma trim_after_space p : trim (cu " " :: p) = trim p.
Proof. reflexivity. Qed.

Lemma split_joinWith p ps :
  Forall (fun q => ~ In (cu ",") q) (p :: ps) ->
  split (cu ",") (Global.joinWith (js ", ") (p :: ps))
  = p :: List.map (cons (cu " ")) ps.
Proof.
  revert p. induction ps as [|q ps IH]; intros p Hall.
  - cbn [Global.joinWith List.map]. apply split_single. by inversion Hall.
  - change (Global.joinWith (js ", ") (p :: q :: ps))
      with (p ++ cu "," :: (cu " " :: Global.joinWith (js ", ") (q :: ps))).
    inversion Hall as [|? ? Hp Hrest]; subst.
    rewrite split_app_sep by done. f_equal.
    assert (split (cu ",") (Global.joinWith (js ", ") (q :: ps))
            = q :: List.map (cons (cu " ")) ps) as Hsplit by (by apply IH).
    cbn [List.map]. revert Hsplit.
    generalize (Global.joinWith (js ", ") (q :: ps)) as text. intros text Hsplit.
    cbn [split]. change (cu " " =? cu ",") with false. cbn iota. by rewrite Hsplit.
Qed.

Lemma parsePatterns_shown patterns :
  Forall cleanPattern patterns ->
  SettingsTab.parsePatterns (Global.joinWith (js ", ") patterns) = patterns.
Proof.
  intros Hall. unfold SettingsTab.parsePatterns.
  destruct patterns as [|p ps]; [done|].
  rewrite split_joinWith.
  2:{ eapply Forall_impl; [exact Hall|]. by intros q (_ & Hq & _). }
  cbn [List.map]. rewrite map_map.
  assert (forall qs, Forall cleanPattern qs ->
            List.filter (fun p => Nat.ltb 0 (length p)) (List.map trim qs) = qs) as Hkeep.
  { induction qs as [|q qs IH]; intros Hqs; [done|].
    inversion Hqs as [|? ? (Hne & _ & Htrim) Hrest]; subst. cbn [List.map List.filter].
    rewrite Htrim. destruct q as [|c q]; [done|]. cbn [length Nat.ltb Nat.leb]. f_equal. by apply IH. }
  inversion Hall as [|? ? Hp Hps]; subst.
  change (trim p :: List.map (fun x => trim (cu " " :: x)) ps)
    with (List.map trim (p :: ps)).
  by apply Hkeep.
Qed.

Section Handlers.
Context {World : Type} `{Storage World}.

Lemma assign_then_save f (p : @SettingsTab.Plugin World) :
  snd (snd ((SettingsTab.assign f ;; SettingsTab.saveSettings) p)) = f (snd p).
Proof.
  unfold bind, SettingsTab.assign, modify, SettingsTab.saveSettings, lift. cbn [fst snd].
  by destruct (saveData (f (snd p)) (fst p)) as [[[]|e] w].
Qed.

Lemma onChange_tidy e (p : @SettingsTab.Plugin World) :
  tidy (snd p) -> tidy (snd (snd (SettingsTab.onChange e p))).
Proof.
  intros ([Hd1 Hd2] & Htarget & Hpatterns).
  destruct e as [v|v|v|v|v|v|v|v]; cbn [SettingsTab.onChange];
    unfold SettingsTab.onTargetFolderPath, SettingsTab.onIncludeLinkedNotes,
      SettingsTab.onMaxDepth, SettingsTab.onPreserveFolderStructure,
      SettingsTab.onAddPublishPrefix, SettingsTab.onPublishPrefix,
      SettingsTab.onExcludePatterns, SettingsTab.onBaseUrl;
    try (rewrite assign_then_save; unfold tidy;
         cbn [NSPublishSettings.maxDepth NSPublishSettings.targetFolderPath
              NSPublishSettings.excludePatterns]; split_and!; try done).
  - apply trim_trim.
  - destruct (Global.parseInt v) as [n|]; [|done].
    destruct (Z.ltb_spec 0 n), (Z.leb_spec n 20); cbn [andb]; try done.
    rewrite assign_then_save. unfold tidy.
    cbn [NSPublishSettings.maxDepth NSPublishSettings.targetFolderPath
         NSPublishSettings.excludePatterns]. split_and!; [lia | lia | done..].
  - apply parsePatterns_clean.
Qed.

Lemma after_edits_tidy edits : forall (p : @SettingsTab.Plugin World),
  tidy (snd p) -> tidy (snd (SettingsTab.after_edits edits p)).
Proof.
  induction edits as [|e edits IH]; intros p Hp; [done|].
  cbn [SettingsTab.after_edits fold_left]. apply IH. by apply onChange_tidy.
Qed.

End Handlers.

Lemma default_tidy : tidy DEFAULT_SETTINGS.
Proof. split_and!; [done | done | reflexivity | constructor]. Qed.

(** X12. Whatever is typed into the field of the exclude patterns, the
    patterns stored are not empty, hold no comma and have no white space at
    either end: a regular expression with a comma in it cannot be entered,
    it is cut into pieces at the comma. *)
Theorem exclude_patterns_are_clean {World : Type} `{Storage World}
    (value : jsstring) (p : @SettingsTab.Plugin World) :
  Forall (fun pattern => pattern <> [] /\ ~ In (cu ",") pattern /\ trim pattern = pattern)
         (NSPublishSettings.excludePatterns (snd (snd (SettingsTab.onExcludePatterns value p)))).
Proof.
  unfold SettingsTab.onExcludePatterns. rewrite assign_then_save.
  cbn [NSPublishSettings.excludePatterns]. apply parsePatterns_clean.
Qed.

(** X13. The field of the exclude patterns shows the stored patterns
    joined with a comma and a space; typing that text back stores the same
    patterns again, provided no pattern is empty, holds a comma or has white
    space at either end. *)
Theorem exclude_patterns_round_trip {World : Type} `{Storage World}
    (p : @SettingsTab.Plugin World) :
  Forall cleanPattern (NSPublishSettings.excludePatterns (snd p)) ->
  NSPublishSettings.excludePatterns
    (snd (snd (SettingsTab.onExcludePatterns (SettingsTab.shownPatterns (snd p)) p)))
  = NSPublishSettings.excludePatterns (snd p).
Proof.
  intros Hclean. unfold SettingsTab.onExcludePatterns. rewrite assign_then_save.
  cbn [NSPublishSettings.excludePatterns]. by apply parsePatterns_shown.
Qed.

Lemma exclude_patterns_round_trip_witness :
  NSPublishSettings.excludePatterns
    (snd (snd (SettingsTab.onExcludePatterns
                 (SettingsTab.shownPatterns
                    (NSPublishSettings.mk (js "pub") true 5 [js "template.*"; js "^_.*"]
                       true false (js "published_") (js "http://x")))
                 ([], NSPublishSettings.mk (js "pub") true 5 [js "template.*"; js "^_.*"]
                        true false (js "published_") (js "http://x")))))
  = [js "template.*"; js "^_.*"].
Proof.
  apply (exclude_patterns_round_trip
           ([], NSPublishSettings.mk (js "pub") true 5 [js "template.*"; js "^_.*"]
                  true false (js "published_") (js "http://x"))).
  repeat constructor; try done; vm_compute; intuition discriminate.
Defined.

(** X14. Starting from the default settings, after any sequence of changes
    made in the settings tab (whether or not they could be saved) the
    configured depth is between 1 and 20, and the publish command, which
    passes that depth as an option, walks with exactly that depth: a depth
    of 0 cannot be configured in the tab. *)
Theorem settings_tab_keeps_depth_in_range {World : Type} `{Storage World}
    (edits : list SettingsTab.edit) (w : World) :
  let settings := snd (SettingsTab.after_edits edits (w, DEFAULT_SETTINGS)) in
  (1 <= NSPublishSettings.maxDepth settings <= 20)%Z
  /\ NoteCopier.effectiveMaxDepth settings (Main.linkedOptions settings)
     = NSPublishSettings.maxDepth settings.
Proof.
  intros settings.
  destruct (after_edits_tidy edits (w, DEFAULT_SETTINGS) default_tidy)
    as ([Hd1 Hd2] & Htarget & Hpatterns). fold settings in Hd1, Hd2, Htarget, Hpatterns.
  split_and!; try done.
  unfold NoteCopier.effectiveMaxDepth, Main.linkedOptions. cbn [PublishOptions.maxDepth].
  destruct (NSPublishSettings.maxDepth settings); [lia | done..].
Qed.

(** ** [parseInt] reads the numerals that [String] writes *)

Lemma js_String c s : js (String c s) = N_of_ascii c :: js s.
Proof. reflexivity. Qed.

Lemma digitValue_char d :
  (d < 10)%N -> Global.digitValue 10 (N_of_ascii (pretty_N_char d)) = Some d.
Proof.
  intros Hd.
  destruct d as [|[[[|[]|]|[[]|[]|]|]|[[|[]|]|[[]|[]|]|]|]]; try reflexivity; lia.
Qed.

Lemma digit_step d s rest acc :
  (d < 10)%N ->
  Global.digits 10 (js (String (pretty_N_char d) s) ++ rest) acc
  = Global.digits 10 (js s ++ rest) (Some (10 * default 0 acc + d)%N).
Proof. intros Hd. rewrite js_String. cbn [app Global.digits]. by rewrite digitValue_char. Qed.

Lemma char_isDigit d : (d < 10)%N -> isDigit (N_of_ascii (pretty_N_char d)).
Proof.
  intros Hd. unfold isDigit.
  destruct d as [|[[[|[]|]|[[]|[]|]|]|[[|[]|]|[[]|[]|]|]|]]; try (vm_compute; split; discriminate); lia.
Qed.

(** The numeral of a positive number, followed by [rest], is read as the
    number put after what was read before. *)
Lemma digits_pretty_go x : forall s rest acc,
  (0 < x)%N ->
  (exists p, Global.digits 10 (js (pretty_N_go x s) ++ rest) acc
             = Global.digits 10 (js s ++ rest) (Some (default 0 acc * p + x)%N))
  /\ (Forall isDigit (js s) -> Forall isDigit (js (pretty_N_go x s)))
  /\ exists c t, js (pretty_N_go x s) = c :: t.
Proof.
  induction x as [x IH] using (well_founded_induction N.lt_wf_0). intros s rest acc Hx.
  rewrite pretty_N_go_step by done.
  assert (x `mod` 10 < 10)%N as Hmod by (apply N.mod_lt; lia).
  pose proof (N.div_mod x 10 ltac:(lia)) as Hdm.
  destruct (decide (x `div` 10 = 0)%N) as [Hzero|Hpos].
  - rewrite Hzero, pretty_N_go_0. split_and!.
    + exists 10%N. rewrite digit_step by done. do 2 f_equal. lia.
    + intros Hs. rewrite js_String. constructor; [by apply char_isDigit | done].
    + rewrite js_String. by eexists _, _.
  - destruct (IH (x `div` 10)%N) with (s := String (pretty_N_char (x `mod` 10)) s)
      (rest := rest) (acc := acc) as ((p & Hdigits) & Hall & Hne).
    { apply N.div_lt; lia. }
    { lia. }
    split_and!.
    + exists (p * 10)%N. rewrite Hdigits, digit_step by done. cbn [default from_option].
      unfold id. do 2 f_equal. lia.
    + intros Hs. apply Hall. rewrite js_String. constructor; [by apply char_isDigit | done].
    + done.
Qed.

Lemma isDigit_plain c :
  isDigit c ->
  isWhiteSpace c = false /\ (c =? cu "-")%N = false /\ (c =? cu "+")%N = false
  /\ (c =? cu "x")%N = false /\ (c =? cu "X")%N = false.
Proof.
  unfold isDigit. intros [Hlo Hhi].
  assert (c = 48 \/ c = 49 \/ c = 50 \/ c = 51 \/ c = 52 \/ c = 53 \/ c = 54
          \/ c = 55 \/ c = 56 \/ c = 57)%N as Hc by lia.
  repeat destruct Hc as [->|Hc]; try subst c; by vm_compute.
Qed.

Lemma parseInt_numeral (n : nat) (junk : jsstring) :
  match junk with
  | c :: _ => Global.digitValue 10 c = None /\ c <> cu "x" /\ c <> cu "X"
  | [] => True
  end ->
  Global.parseInt (ofNat n ++ junk) = Some (Z.of_nat n).
Proof.
  intros Hjunk.
  assert (forall m, Global.digits 10 junk (Some m) = Some m) as Hstop.
  { intros m. destruct junk as [|c t]; [done|]. cbn [Global.digits].
    by destruct Hjunk as (-> & _). }
  assert (match junk with
          | b :: _ => ((b =? cu "x")%N || (b =? cu "X")%N) = false
          | [] => True
          end) as Hx.
  { destruct junk as [|b t]; [done|]. destruct Hjunk as (_ & Hx1 & Hx2).
    apply N.eqb_neq in Hx1, Hx2. by rewrite Hx1, Hx2. }
  unfold ofNat, pretty, pretty_N.
  destruct (decide (N.of_nat n = 0)%N) as [Hzero|Hpos].
  - assert (n = 0%nat) as -> by lia. unfold Global.parseInt.
    change (js "0" ++ junk) with (48%N :: junk). cbn [trimStart].
    change (isWhiteSpace 48) with false. cbn iota.
    change (48 =? cu "-")%N with false. change (48 =? cu "+")%N with false. cbn iota.
    assert (match junk with
            | b :: t => if (48 =? cu "0")%N && ((b =? cu "x")%N || (b =? cu "X")%N)
                        then (16%N, t) else (10%N, 48%N :: junk)
            | [] => (10%N, 48%N :: junk)
            end = (10%N, 48%N :: junk)) as ->.
    { destruct junk as [|b t]; [done|]. by rewrite Hx. }
    cbn [Global.digits]. change (Global.digitValue 10 48) with (Some 0%N).
    cbn [default from_option]. by rewrite Hstop.
  - destruct (digits_pretty_go (N.of_nat n) "" junk None) as ((p & Hdigits) & Hall & c & t & Hjs);
      [lia|].
    specialize (Hall ltac:(constructor)).
    change (js "" ++ junk) with junk in Hdigits. cbn [default from_option] in Hdigits.
    unfold id in Hdigits. rewrite N.mul_0_l, N.add_0_l, Hstop in Hdigits.
    unfold Global.parseInt. revert Hdigits. rewrite Hjs in Hall |- *.
    cbn [app trimStart]. intros Hdigits.
    inversion Hall as [|? ? Hc Ht]; subst.
    destruct (isDigit_plain c Hc) as (-> & -> & -> & _ & _).
    cbn iota.
    assert (match t ++ junk with
            | b :: t0 => if (c =? cu "0")%N && ((b =? cu "x")%N || (b =? cu "X")%N)
                         then (16%N, t0) else (10%N, c :: t ++ junk)
            | [] => (10%N, c :: t ++ junk)
            end = (10%N, c :: t ++ junk)) as ->.
    { destruct t as [|b t].
      - cbn [app]. destruct junk as [|b t0]; [done|]. by rewrite Hx, andb_false_r.
      - cbn [app]. inversion Ht as [|? ? Hb _]; subst.
        destruct (isDigit_plain b Hb) as (_ & _ & _ & -> & ->). by rewrite andb_false_r. }
    rewrite Hdigits. cbn [option_map]. f_equal. lia.
Qed.

(** X15. The depth field reads the decimal numeral at the start of the text
    (what follows is ignored when it starts with neither a digit nor the
    letter x): a number from 1 to 20 becomes the configured depth, which is
    what typing back the value that the field shows does, and 0 or a number
    above 20 changes nothing and saves nothing. *)
Theorem maxDepth_field_reads_numeral {World : Type} `{Storage World}
    (n : nat) (junk : jsstring) (p : @SettingsTab.Plugin World) :
  match junk with
  | c :: _ => Global.digitValue 10 c = None /\ c <> cu "x" /\ c <> cu "X"
  | [] => True
  end ->
  ((1 <= n <= 20)%nat ->
   NSPublishSettings.maxDepth (snd (snd (SettingsTab.onMaxDepth (ofNat n ++ junk) p)))
   = Z.of_nat n)
  /\ ((n = 0 \/ 20 < n)%nat -> SettingsTab.onMaxDepth (ofNat n ++ junk) p = (Ok tt, p)).
Proof.
  intros Hjunk. unfold SettingsTab.onMaxDepth. rewrite parseInt_numeral by done. split.
  - intros Hn. destruct (Z.ltb_spec 0 (Z.of_nat n)); [|lia].
    destruct (Z.leb_spec (Z.of_nat n) 20); [|lia]. cbn [andb].
    by rewrite assign_then_save.
  - intros Hn. destruct (Z.ltb_spec 0 (Z.of_nat n)), (Z.leb_spec (Z.of_nat n) 20);
      cbn [andb]; try done; lia.
Qed.

Lemma maxDepth_field_reads_numeral_witness :
  ((1 <= 7 <= 20)%nat ->
   NSPublishSettings.maxDepth
     (snd (snd (SettingsTab.onMaxDepth (ofNat 7 ++ js " levels") ([], DEFAULT_SETTINGS))))
   = Z.of_nat 7)
  /\ ((7 = 0 \/ 20 < 7)%nat ->
      SettingsTab.onMaxDepth (ofNat 7 ++ js " levels") ([], DEFAULT_SETTINGS)
      = (Ok tt, ([], DEFAULT_SETTINGS))).
Proof.
  apply (maxDepth_field_reads_numeral 7 (js " levels") ([], DEFAULT_SETTINGS)).
  vm_compute. intuition discriminate.
Defined.

(** ** The commands *)

(** X16. The ribbon icon runs [publishCurrentNote] on whatever file is
    active.  For a file that is not a markdown file, with or without the
    linked notes, nothing is read, copied or written: the result holds the
    one error [Can only publish markdown files], and the only operations of
    the host are notices, [Published with 1 error(s). Check console for
    details.] and, should showing that throw, [Failed to publish: ...]. *)
Theorem publish_command_on_other_file {World : Type} `{Host World}
    (settings : NSPublishSettings.t) (options : PublishOptions.t) (activeFile : TFile)
    (r : NoteCopier.Run World) :
  extension activeFile <> js "md" ->
  Main.publishWith settings options (Some activeFile) r
  = try_catch
      (Main.show (js "Published with 1 error(s). Check console for details."))
      (fun message => Main.show (js "Failed to publish: " ++ message))
      (NoteCopier.mkRun (NoteCopier.dev r)
         (mkResult ∅ ∅ [js "Can only publish markdown files"])
         (NoteCopier.visited r) (NoteCopier.processing r) (NoteCopier.trace r)).
Proof.
  intros Hext. set (r0 := NoteCopier.mkRun _ _ _ _ _).
  unfold Main.publishWith, NoteCopier.publishNote.
  unfold NoteCopier.validatePublishPrerequisites.
  rewrite bool_decide_eq_false_2 by done. cbn [negb NoteCopier.isValid NoteCopier.error].
  unfold try_catch, bind, NoteCopier.set_result, modify, gets.
  cbn [NoteCopier.dev NoteCopier.result NoteCopier.visited NoteCopier.processing
       NoteCopier.trace NoteCopier.push_error errors app length Nat.ltb Nat.leb].
  change (JS.concat [js "Published with "; ofNat 1; js " error(s). Check console for details."])
    with (js "Published with 1 error(s). Check console for details.").
  match goal with |- context [Main.show ?m ?s] =>
    lazymatch s with r0 => fail | _ => change s with r0 end end.
  destruct (Main.show _ r0) as [[[]|e|] s']; try done.
  unfold JS.concat. cbn [List.concat]. by rewrite app_nil_r.
Qed.

Lemma publish_command_on_other_file_witness :
  Main.publishWith settings0 (Main.linkedOptions settings0)
    (Some (MemHost.fileOf (js "drawing.png"))) (MemHost.start vaultPair)
  = try_catch
      (Main.show (js "Published with 1 error(s). Check console for details."))
      (fun message => Main.show (js "Failed to publish: " ++ message))
      (NoteCopier.mkRun (NoteCopier.dev (MemHost.start vaultPair))
         (mkResult ∅ ∅ [js "Can only publish markdown files"])
         (NoteCopier.visited (MemHost.start vaultPair))
         (NoteCopier.processing (MemHost.start vaultPair))
         (NoteCopier.trace (MemHost.start vaultPair))).
Proof.
  apply (publish_command_on_other_file settings0 (Main.linkedOptions settings0)
           (MemHost.fileOf (js "drawing.png")) (MemHost.start vaultPair)).
  vm_compute. discriminate.
Defined.

(** ** The image of a drawing: the outcome of an export *)

(** X17. [exportExcalidrawToImage] always returns, whatever the host does.
    When it returns a name, the name is [<base>.png] or [<base>_<j>.png]
    for the base name of the file the link resolves to, and the path of
    that name in the image folder ([_Image] under the target folder) is
    appended to the list of created images; when it returns nothing, the
    list is as before.  The target folder is never changed. *)
Theorem export_writes_one_image {World : Type} `{Host World}
    (fileName : jsstring) (currentFile : TFile) (st : @ExcalidrawUtil.St World) :
  exists res st',
    ExcalidrawUtil.exportExcalidrawToImage fileName currentFile st = (Ok res, st')
    /\ ExcalidrawUtil.targetFolderPath (snd st') = ExcalidrawUtil.targetFolderPath (snd st)
    /\ match res with
       | None => ExcalidrawUtil.createdImages (snd st') = ExcalidrawUtil.createdImages (snd st)
       | Some imageFileName =>
           exists file j,
             getFirstLinkpathDest (fst st) fileName (path currentFile) = Some file
             /\ imageFileName = candidate (basename file) j
             /\ ExcalidrawUtil.createdImages (snd st')
                = ExcalidrawUtil.createdImages (snd st)
                  ++ [candidatePath
                        (match ExcalidrawUtil.targetFolderPath (snd st) with
                         | [] => js "_Image"
                         | _ :: _ => ExcalidrawUtil.targetFolderPath (snd st) ++ js "/_Image"
                         end) (basename file) j]
       end.
Proof. apply exportExcalidrawToImage_outcome. Qed.

(** ** The embedded files of a drawing *)

Lemma exec_none_without ic r s p :
  (forall i m, match_at ic r s i = Some m -> contains s p) ->
  includes s p = false -> exec ic r s 0 = None.
Proof.
  intros Hmatch Hno. destruct (exec ic r s 0) as [m|] eqn:Hexec; [|done].
  apply exec_some in Hexec as (i & _ & Hat). apply Hmatch, includes_spec in Hat. congruence.
Qed.

Lemma embeddedFiles_match content i m :
  match_at false ExcalidrawUtil.embeddedFilesRegex content i = Some m ->
  contains content (js "## Embedded Files").
Proof.
  intros (st' & Hsp & ->)%match_at_spans.
  unfold ExcalidrawUtil.embeddedFilesRegex in Hsp. cbn [Cat] in Hsp.
  apply spans_Seq_inv in Hsp as (st1 & (Hr1 & _)%spans_Lit & _).
  cbn [m_rest] in Hr1. by apply (contains_skipn content i [] _ (m_rest st1)).
Qed.

Lemma spans_step_caps ic c st st' : spans ic (Chr c) st st' -> m_caps st' = m_caps st.
Proof. by intros (x & t & _ & _ & ->)%spans_Chr_inv. Qed.

Lemma fileEntry_match entry i m :
  match_at false ExcalidrawUtil.fileEntryRegex entry i = Some m ->
  exists fileId, capture entry m 1 = Some fileId /\ fileId <> [] /\ Forall isHexDigit fileId.
Proof.
  intros (st' & Hsp & ->)%match_at_spans.
  unfold ExcalidrawUtil.fileEntryRegex in Hsp. cbn [Cat] in Hsp.
  apply spans_Seq_inv in Hsp as (st1 & (st1' & Hplus & ->)%spans_Group_inv & Hsp).
  apply spans_Plus_class in Hplus as (fileId & Hne & Hr1 & Hp1 & Hc1 & Hall).
  apply spans_Seq_inv in Hsp as (st2 & Hc2%spans_step_caps & Hsp).
  apply spans_Seq_inv in Hsp as (st3 & Hspace & Hsp).
  apply spans_nogroups in Hspace as (_ & _ & _ & Hc3); [|done].
  apply spans_Seq_inv in Hsp as (st4 & (_ & _ & Hc4)%spans_Lit & Hsp).
  apply spans_Seq_inv in Hsp as (st5 & (st5' & Hdots & ->)%spans_Group_inv
                                     & (_ & _ & Hc6)%spans_Lit).
  apply spans_nogroups in Hdots as (_ & _ & _ & Hc5); [|done].
  cbn [m_rest m_pos m_caps] in *.
  exists fileId. split_and!; [|done|].
  - unfold capture. cbn [r_caps]. rewrite Hc6, Hc5, Hc4, Hc3, Hc2. cbn [List.find fst Nat.eqb].
    f_equal. rewrite Hp1.
    pose proof (slice_prefix entry i [] fileId (m_rest st1')) as Hslice.
    cbn [app length] in Hslice. rewrite Nat.add_0_r in Hslice. by apply Hslice.
  - eapply Forall_impl; [exact Hall|]. intros x Hx. unfold isHexDigit.
    cbn [xorb existsb in_class] in Hx. rewrite orb_false_r in Hx.
    apply orb_true_iff in Hx as [[]%andb_true_iff|[]%andb_true_iff]; [left|right];
      split; by apply N.leb_le.
Qed.

Section Embedded.
Context {World : Type} `{Host World}.

Lemma getExcalidrawEmbeddedFiles_outcome content (st : @ExcalidrawUtil.St World) :
  exists files st',
    ExcalidrawUtil.getExcalidrawEmbeddedFiles content st = (Ok files, st')
    /\ snd st' = snd st
    /\ map_Forall embeddedEntry files
    /\ (includes content (js "## Embedded Files") = false -> files = ∅ /\ st' = st).
Proof.
  unfold ExcalidrawUtil.getExcalidrawEmbeddedFiles.
  destruct (exec false ExcalidrawUtil.embeddedFilesRegex content 0) as [mm|] eqn:Hexec.
  2:{ exists ∅, st. split_and!; try done; try apply map_Forall_empty. }
  assert (includes content (js "## Embedded Files") = true) as Hinc.
  { apply exec_some in Hexec as (i & _ & Hat). apply embeddedFiles_match in Hat.
    by apply includes_spec. }
  destruct (capture content mm 1) as [[|c section]|].
  1,3: exists ∅, st; split_and!; try done; try apply map_Forall_empty.
  generalize (split 10 (trim (c :: section))) as entries. intros entries.
  assert (forall (acc : gmap jsstring EmbeddedFileData) (st0 : @ExcalidrawUtil.St World),
            map_Forall embeddedEntry acc ->
            exists files st',
              for_fold entries acc (fun embeddedFiles entry =>
                match exec false ExcalidrawUtil.fileEntryRegex entry 0 with
                | None => ret embeddedFiles
                | Some fileMatch =>
                    let fileId := default [] (capture entry fileMatch 1) in
                    let filePath := trim (default [] (capture entry fileMatch 2)) in
                    try_catch
                      (imageFile <- gets (fun st => getFirstLinkpathDest (fst st) filePath filePath) ;;
                       match imageFile with
                       | None => ret embeddedFiles
                       | Some imageFile =>
                           fileContent <- ExcalidrawUtil.io (vault_readBinary imageFile) ;;
                           let mimeType :=
                             match detectFile fileContent with
                             | Some (c :: m) => c :: m
                             | _ => js "image/png"
                             end in
                           let base64Content := ExcalidrawUtil.arrayBufferToBase64String fileContent in
                           let dataURL := JS.concat [js "data:"; mimeType; js ";base64,"; base64Content] in
                           created <- ExcalidrawUtil.io date_now ;;
                           lastRetrieved <- ExcalidrawUtil.io date_now ;;
                           ret (<[fileId := mkEmbedded fileId dataURL mimeType created lastRetrieved]>
                                  embeddedFiles)
                       end)
                      (fun _ => ret embeddedFiles)
                end) st0 = (Ok files, st')
              /\ snd st' = snd st0 /\ map_Forall embeddedEntry files) as Hloop.
  { induction entries as [|entry entries IH]; intros acc st0 Hacc; cbn [for_fold].
    - by exists acc, st0.
    - assert (exists acc1 st1,
                match exec false ExcalidrawUtil.fileEntryRegex entry 0 with
                | None => ret acc
                | Some fileMatch =>
                    let fileId := default [] (capture entry fileMatch 1) in
                    let filePath := trim (default [] (capture entry fileMatch 2)) in
                    try_catch
                      (imageFile <- gets (fun st => getFirstLinkpathDest (fst st) filePath filePath) ;;
                       match imageFile with
                       | None => ret acc
                       | Some imageFile =>
                           fileContent <- ExcalidrawUtil.io (vault_readBinary imageFile) ;;
                           let mimeType :=
                             match detectFile fileContent with
                             | Some (c :: m) => c :: m
                             | _ => js "image/png"
                             end in
                           let base64Content := ExcalidrawUtil.arrayBufferToBase64String fileContent in
                           let dataURL := JS.concat [js "data:"; mimeType; js ";base64,"; base64Content] in
                           created <- ExcalidrawUtil.io date_now ;;
                           lastRetrieved <- ExcalidrawUtil.io date_now ;;
                           ret (<[fileId := mkEmbedded fileId dataURL mimeType created lastRetrieved]>
                                  acc)
                       end)
                      (fun _ => ret acc)
                end st0 = (Ok acc1, st1)
                /\ snd st1 = snd st0 /\ map_Forall embeddedEntry acc1)
        as (acc1 & st1 & Hstep & Hs1 & Hacc1).
      { destruct (exec false ExcalidrawUtil.fileEntryRegex entry 0) as [fm|] eqn:Hentry;
          [|by exists acc, st0].
        apply exec_some in Hentry as (i & _ & Hat).
        apply fileEntry_match in Hat as (fileId & -> & Hne & Hhex).
        cbv zeta. cbn [default from_option]. unfold id.
        unfold try_catch, bind at 1, gets at 1.
        destruct (getFirstLinkpathDest _ _ _) as [imageFile|]; [|by exists acc, st0].
        unfold bind at 1, ExcalidrawUtil.io at 1, ExcalidrawUtil.on_app, zoom, lift at 1.
        destruct (vault_readBinary imageFile (fst st0)) as [[bytes|e] w1]; cbn [fst snd];
          [|by exists acc, (w1, snd st0)].
        unfold bind at 1, ExcalidrawUtil.io at 1, ExcalidrawUtil.on_app, zoom, lift at 1.
        cbn [fst snd].
        destruct (date_now w1) as [[t1|e] w2]; cbn [fst snd]; [|by exists acc, (w2, snd st0)].
        unfold bind at 1, ExcalidrawUtil.io at 1, ExcalidrawUtil.on_app, zoom, lift at 1.
        cbn [fst snd].
        destruct (date_now w2) as [[t2|e] w3]; cbn [fst snd]; [|by exists acc, (w3, snd st0)].
        eexists _, _. split; [reflexivity|]. split; [done|].
        apply map_Forall_insert_2; [|done].
        unfold embeddedEntry. cbn [ef_id ef_mimeType ef_dataURL].
        split_and!; try done.
        - by destruct (detectFile bytes) as [[|? ?]|].
        - eexists. unfold JS.concat. cbn [List.concat]. by rewrite app_nil_r, <- !app_assoc. }
      destruct (IH acc1 st1 Hacc1) as (files & st' & Hrest & Hs' & Hfiles).
      exists files, st'. split; [|split; [congruence | done]].
      unfold bind at 1.
      match goal with |- (let (o, s') := ?X in _) = _ =>
        match type of Hstep with ?lhs = _ => change X with lhs end end.
      rewrite Hstep. exact Hrest. }
  destruct (Hloop ∅ st) as (files & st' & Hrun & Hs & Hfiles); [apply map_Forall_empty|].
  exists files, st'. split; [exact Hrun|]. split; [done|]. split; [done|]. congruence.
Qed.

End Embedded.

(** X18. [getExcalidrawEmbeddedFiles] always returns a record, whatever the
    host does, and leaves the fields of the utility as they are.  Every
    entry of the record sits under its own identifier, a non-empty numeral
    of the digits [0-9] and [a-f]; its media type is not empty and its data
    URL starts with [data:], the media type and [;base64,].  A drawing
    without the heading [## Embedded Files] gives the empty record with no
    operation of the host. *)
Theorem embedded_files_are_keyed_by_id {World : Type} `{Host World}
    (content : jsstring) (st : @ExcalidrawUtil.St World) :
  exists files st',
    ExcalidrawUtil.getExcalidrawEmbeddedFiles content st = (Ok files, st')
    /\ snd st' = snd st
    /\ map_Forall embeddedEntry files
    /\ (includes content (js "## Embedded Files") = false -> files = ∅ /\ st' = st).
Proof. apply getExcalidrawEmbeddedFiles_outcome. Qed.

(** ** Unpacking a drawing *)

Lemma run_Chr_hit c i t caps k :
  run false (Chr c) (MState i (c :: t) caps) k = k (MState (S i) t caps).
Proof. cbn [run m_rest]. unfold canon. cbn [andb]. by rewrite N.eqb_refl. Qed.

Lemma run_Lit_hit p : forall i t caps k,
  run false (Lit p) (MState i (p ++ t) caps) k = k (MState (i + length p) t caps).
Proof.
  induction p as [|c p IH]; intros i t caps k.
  - cbn. by rewrite Nat.add_0_r.
  - destruct p as [|d p].
    + cbn [Lit app]. rewrite run_Chr_hit. cbn [length]. do 2 f_equal. lia.
    + change (Lit (c :: d :: p)) with (Seq (Chr c) (Lit (d :: p))).
      change (run false (Seq ?r1 ?r2) ?st ?k0)
        with (run false r1 st (fun st' => run false r2 st' k0)).
      change ((c :: d :: p) ++ t) with (c :: (d :: p) ++ t).
      rewrite run_Chr_hit, IH. cbn [length]. do 2 f_equal. lia.
Qed.

Lemma orElse_is_Some_l {A} (a b : option A) : is_Some a -> is_Some (orElse a b).
Proof. by intros [x ->]. Qed.

Lemma orElse_is_Some_r {A} (a b : option A) : is_Some b -> is_Some (orElse a b).
Proof. destruct a; [by eexists | done]. Qed.

Lemma run_Opt_is_Some ic r st k : is_Some (k st) -> is_Some (run ic (Opt r) st k).
Proof. intros Hk. unfold Opt. cbn [run]. by apply orElse_is_Some_r. Qed.

Lemma run_Star_is_Some ic greedy r st k : is_Some (k st) -> is_Some (run ic (Star greedy r) st k).
Proof.
  intros Hk. cbn [run star_loop].
  destruct greedy; [by apply orElse_is_Some_r | by apply orElse_is_Some_l].
Qed.

(** The end of the fallback pattern matches whatever follows. *)
Lemma fallback_tail st :
  is_Some (run false (Seq (Group 2 (Star true Dot))
                          (Group 3 (Cat [Opt (Group 4 (Lit (js "```")));
                                         Opt (Group 5 (Lit (js "%%")))]))) st Some).
Proof.
  cbn [run Cat]. apply orElse_is_Some_r.
  apply orElse_is_Some_r. apply orElse_is_Some_r. by eexists.
Qed.

Lemma search_from_hit ic r s i0 : forall n from,
  (from <= i0 <= from + n)%nat -> is_Some (match_at ic r s i0) ->
  is_Some (search_from ic r s from n).
Proof.
  induction n as [|n IH]; intros from Hi Hat; cbn [search_from].
  - assert (i0 = from) as -> by lia. destruct Hat as [m ->]. by eexists.
  - destruct (match_at ic r s from) as [m|] eqn:Hfrom; [by eexists|].
    apply IH; [|done]. destruct (decide (i0 = from)) as [->|]; [|lia].
    rewrite Hfrom in Hat. by destruct Hat.
Qed.

Lemma fallback_matches (a marks b : jsstring) :
  marks = js "#" \/ marks = js "##" ->
  is_Some (exec false DRAWING_COMPRESSED_REG_FALLBACK
             (a ++ drawingHeading marks ++ b) 0).
Proof.
  intros Hmarks. unfold exec.
  replace (Nat.ltb _ 0) with false by (symmetry; apply Nat.ltb_ge; lia).
  apply (search_from_hit _ _ _ (length a)).
  { rewrite length_app. lia. }
  unfold match_at. rewrite skipn_app, skipn_all, Nat.sub_diag, skipn_O. cbn [app].
  match goal with |- is_Some (match ?x with _ => _ end) =>
    assert (is_Some x) as [st ->]; [|by eexists] end.
  unfold DRAWING_COMPRESSED_REG_FALLBACK, NL, drawingHeading.
  cbn [Cat].
  change (run false (Seq ?g1 ?tl) ?st Some) with (run false g1 st (fun st' => run false tl st' Some)).
  change (run false (Group 1 ?r) ?st ?k)
    with (run false r st (fun st' =>
            k (MState (m_pos st') (m_rest st') ((1%nat, (m_pos st, m_pos st')) :: m_caps st')))).
  repeat change (run false (Seq ?r1 ?r2) ?st ?k)
    with (run false r1 st (fun st' => run false r2 st' k)).
  replace ((10 :: marks ++ js " Drawing" ++ [10]) ++ b)
    with (10 :: marks ++ js " Drawing" ++ 10 :: b)
    by (cbn [app]; by rewrite <- !app_assoc).
  rewrite run_Chr_hit.
  destruct Hmarks as [-> | ->].
  - change (js "#" ++ ?x) with (cu "#" :: x).
    rewrite run_Chr_hit.
    unfold Opt at 1.
    change (run false (Alt ?r1 ?r2) ?st ?k) with (orElse (run false r1 st k) (run false r2 st k)).
    apply orElse_is_Some_r.
    change (run false Eps ?st ?k) with (k st). cbv beta.
    rewrite run_Lit_hit, run_Chr_hit.
    apply run_Opt_is_Some. apply fallback_tail.
  - change (js "##" ++ ?x) with (cu "#" :: cu "#" :: x).
    rewrite run_Chr_hit.
    unfold Opt at 1.
    change (run false (Alt ?r1 ?r2) ?st ?k) with (orElse (run false r1 st k) (run false r2 st k)).
    apply orElse_is_Some_l.
    rewrite run_Chr_hit.
    rewrite run_Lit_hit, run_Chr_hit.
    apply run_Opt_is_Some. apply fallback_tail.
Qed.

(** Both patterns start with the heading of the drawing section. *)
Lemma heading_spans rest st st' :
  spans false (Seq NL (Seq (Chr (cu "#")) (Seq (Opt (Chr (cu "#")))
                 (Seq (Lit (js " Drawing")) (Seq NL rest))))) st st' ->
  exists marks tail, (marks = js "#" \/ marks = js "##")
    /\ m_rest st = drawingHeading marks ++ tail.
Proof.
  intros (st1 & (x1 & t1 & Hr1 & Hx1 & ->)%spans_Chr_inv
        & (st2 & (x2 & t2 & Hr2 & Hx2 & ->)%spans_Chr_inv
        & (st3 & Hopt
        & (st4 & (Hr4 & _)%spans_Lit
        & (st5 & (x5 & t5 & Hr5 & Hx5 & ->)%spans_Chr_inv & _)%spans_Seq_inv
          )%spans_Seq_inv)%spans_Seq_inv)%spans_Seq_inv)%spans_Seq_inv.
  cbn in Hx1, Hx2, Hx5. subst x1 x2 x5. cbn [Rx.step m_rest] in *.
  unfold drawingHeading.
  apply spans_Alt_inv in Hopt as [(x3 & t3 & Hr3 & Hx3 & ->)%spans_Chr_inv | ->%spans_Eps_inv];
    cbn [Rx.step m_rest] in *.
  - cbn in Hx3. subst x3. exists (js "##"), t5. split; [by right|].
    rewrite Hr1, Hr2, Hr3, Hr4, Hr5. cbn [app]. by rewrite <- !app_assoc.
  - exists (js "#"), t5. split; [by left|].
    rewrite Hr1, Hr2, Hr4, Hr5. cbn [app]. by rewrite <- !app_assoc.
Qed.

Lemma heading_match r content i m :
  r = DRAWING_COMPRESSED_REG \/ r = DRAWING_COMPRESSED_REG_FALLBACK ->
  match_at false r content i = Some m ->
  contains content (drawingHeading (js "#")) \/ contains content (drawingHeading (js "##")).
Proof.
  intros Hr (st' & Hsp & ->)%match_at_spans.
  assert (exists marks tail, (marks = js "#" \/ marks = js "##")
            /\ skipn i content = drawingHeading marks ++ tail) as (marks & tail & Hmarks & Hskip).
  { destruct Hr as [-> | ->];
      apply spans_Seq_inv in Hsp as (st1 & (st1' & Hin & _)%spans_Group_inv & _);
      by apply heading_spans in Hin. }
  assert (contains content (drawingHeading marks)) by (by apply (contains_skipn content i [] _ tail)).
  destruct Hmarks as [-> | ->]; [by left | by right].
Qed.

(** Taking the line breaks out of a text. *)
Lemma match_at_lineBreak s i :
  span (match_at false (Set_ false [CUnit 10; CUnit 13]) s i)
  = option_map (fun n => (i, (i + n)%nat)) (lineBreakRun (skipn i s)).
Proof.
  unfold match_at, lineBreakRun. cbn [run m_rest].
  destruct (skipn i s) as [|c t]; [done|].
  cbn [existsb in_class xorb]. rewrite orb_false_r.
  destruct ((c =? 10) || (c =? 13)); [|done]. cbn. do 2 f_equal. lia.
Qed.

Lemma lineBreakRun_bounds s n : lineBreakRun s = Some n -> (0 < n <= length s)%nat.
Proof.
  unfold lineBreakRun. destruct s as [|c t]; [done|].
  destruct ((c =? 10) || (c =? 13)); [|done]. intros [= <-]. cbn. lia.
Qed.

Lemma replaceRuns_lineBreaks fuel : forall s,
  (length s <= fuel)%nat -> oneLine (replaceRuns lineBreakRun [] fuel s).
Proof.
  induction fuel as [|fuel IH]; intros s Hlen.
  - destruct s; [constructor | cbn in Hlen; lia].
  - cbn [replaceRuns]. destruct s as [|c t]; [constructor|].
    cbn [lineBreakRun]. cbn [length] in Hlen.
    destruct ((c =? 10) || (c =? 13)) eqn:Hc.
    + change (oneLine (replaceRuns lineBreakRun [] fuel t)). apply IH. lia.
    + apply Forall_cons. split; [|apply IH; lia].
      apply orb_false_iff in Hc as [H10 H13]. split; by apply N.eqb_neq.
Qed.

Lemma cleanedData_oneLine s :
  oneLine (replaceAll false (Set_ false [CUnit 10; CUnit 13]) [] s).
Proof.
  rewrite (replaceAll_scan false _ [] lineBreakRun match_at_lineBreak lineBreakRun_bounds).
  by apply replaceRuns_lineBreaks.
Qed.

(** X19. [decompressExcalidrawContent] is decided by the heading of the
    drawing section. When the content has a line [# Drawing] or
    [## Drawing] after a line break, the result is whatever
    [decompressFromBase64] makes of a text without line breaks, also when
    the content holds no compressed block at all; without such a line the
    content itself is returned. *)
Theorem decompress_follows_heading {World} `{Host World} (content : jsstring) :
  if includes content (drawingHeading (js "#")) || includes content (drawingHeading (js "##"))
  then exists data, oneLine data
         /\ ExcalidrawUtil.decompressExcalidrawContent content = decompressFromBase64 data
  else ExcalidrawUtil.decompressExcalidrawContent content = Some content.
Proof.
  unfold ExcalidrawUtil.decompressExcalidrawContent.
  destruct (includes content (drawingHeading (js "#"))
            || includes content (drawingHeading (js "##"))) eqn:Hinc.
  - assert (exists marks a b, (marks = js "#" \/ marks = js "##")
              /\ content = a ++ drawingHeading marks ++ b) as (marks & a & b & Hmarks & ->).
    { apply orb_true_iff in Hinc as [(a & b & ->)%includes_spec | (a & b & ->)%includes_spec];
        eauto 10. }
    destruct (fallback_matches a marks b Hmarks) as [m2 Hm2].
    destruct (exec false DRAWING_COMPRESSED_REG _ 0) as [m1|]; [|rewrite Hm2];
      eexists; (split; [apply cleanedData_oneLine | done]).
  - apply orb_false_iff in Hinc as [H1 H2].
    assert (forall r, r = DRAWING_COMPRESSED_REG \/ r = DRAWING_COMPRESSED_REG_FALLBACK ->
              exec false r content 0 = None) as Hnone.
    { intros r Hr. destruct (exec false r content 0) as [m|] eqn:Hexec; [|done].
      apply exec_some in Hexec as (i & _ & Hat).
      apply (heading_match r content i m Hr) in Hat as [Hc%includes_spec | Hc%includes_spec];
        congruence. }
    rewrite (Hnone _ (or_introl eq_refl)), (Hnone _ (or_intror eq_refl)). done.
Qed.

(** ** Telling a drawing from a note *)

Lemma frontmatter_needs_dashes content :
  startsWith content (js "---") = false -> exec false frontmatterRegex content 0 = None.
Proof.
  intros Hno. destruct (exec false frontmatterRegex content 0) as [m|] eqn:Hexec; [|done].
  apply exec_some in Hexec as (i & _ & (st' & Hsp & _)%match_at_spans).
  unfold frontmatterRegex in Hsp. cbn [Cat] in Hsp.
  apply spans_Seq_inv in Hsp as (st1 & [Hpos ->]%spans_Bol_inv & Hsp).
  apply spans_Seq_inv in Hsp as (st2 & (Hrest & _)%spans_Lit & _).
  cbn [m_pos m_rest] in Hpos, Hrest. subst i. rewrite skipn_O in Hrest.
  assert (startsWith content (js "---") = true) by (apply startsWith_spec; by eexists).
  congruence.
Qed.

(** X20. Both [isExcalidrawFile] methods look at the content of a file only
    behind a front-matter block: when the content that is read does not
    start with [---], the parser of the links answers from the extension
    and the name of the file, the utility of the drawings from the extension
    of the file and the text of the link, whatever the content says. *)
Theorem isExcalidrawFile_without_front_matter {World : Type} `{Host World}
    (linkText content : jsstring) (file currentFile : TFile)
    (w w' : World) (fields : ExcalidrawUtil.fields) :
  getFirstLinkpathDest w linkText (path currentFile) = Some file ->
  vault_cachedRead file w = (Return content, w') ->
  startsWith content (js "---") = false ->
  WikilinkParser.isExcalidrawFile file currentFile w
  = (Ok (bool_decide (extension file = js "excalidraw")
         || endsWith (name file) (js ".excalidraw")), w')
  /\ ExcalidrawUtil.isExcalidrawFile linkText currentFile (w, fields)
     = (Ok (bool_decide (extension file = js "excalidraw")
            || endsWith linkText (js ".excalidraw")), (w', fields)).
Proof.
  intros Hdest Hread Hno. split.
  - unfold WikilinkParser.isExcalidrawFile, try_catch, bind, lift, ret. rewrite Hread.
    unfold classifyDrawing. by rewrite frontmatter_needs_dashes.
  - unfold ExcalidrawUtil.isExcalidrawFile, ExcalidrawUtil.io, ExcalidrawUtil.on_app,
      zoom, try_catch, bind, gets, lift, ret.
    cbn [fst snd]. rewrite Hdest. cbn [fst snd]. rewrite Hread.
    unfold classifyDrawing. by rewrite frontmatter_needs_dashes.
Qed.

Lemma isExcalidrawFile_without_front_matter_witness :
  WikilinkParser.isExcalidrawFile (MemHost.fileOf (js "a.md")) (MemHost.fileOf (js "root.md"))
    vaultPair
  = (Ok (bool_decide (extension (MemHost.fileOf (js "a.md")) = js "excalidraw")
         || endsWith (name (MemHost.fileOf (js "a.md"))) (js ".excalidraw")), vaultPair)
  /\ ExcalidrawUtil.isExcalidrawFile (js "a") (MemHost.fileOf (js "root.md"))
       (vaultPair, ExcalidrawUtil.mkFields [] [])
     = (Ok (bool_decide (extension (MemHost.fileOf (js "a.md")) = js "excalidraw")
            || endsWith (js "a") (js ".excalidraw")),
        (vaultPair, ExcalidrawUtil.mkFields [] [])).
Proof.
  apply (isExcalidrawFile_without_front_matter (js "a") (js "leaf")
           (MemHost.fileOf (js "a.md")) (MemHost.fileOf (js "root.md")) vaultPair vaultPair
           (ExcalidrawUtil.mkFields [] [])); reflexivity.
Defined.

(** ** Folders and copies on a vault that keeps what is written *)

Lemma nextFolder_more cur parts :
  cur <> [] ->
  fold_left nextFolder parts cur = cur ++ List.concat (List.map (fun p => cu "/" :: p) parts).
Proof.
  revert cur. induction parts as [|p ps IH]; intros cur Hne; cbn [fold_left List.map List.concat].
  - by rewrite app_nil_r.
  - destruct cur as [|c cur]; [done|]. cbn [nextFolder]. rewrite IH.
    + unfold JS.concat. cbn [List.concat]. rewrite app_nil_r.
      change (js "/") with [cu "/"]. by rewrite <- !app_assoc.
    + unfold JS.concat. by cbn.
Qed.

Lemma join_more sep p ps :
  join sep (p :: ps) = p ++ List.concat (List.map (fun q => sep :: q) ps).
Proof.
  revert p. induction ps as [|q ps IH]; intros p.
  - cbn. by rewrite app_nil_r.
  - change (join sep (p :: q :: ps)) with (p ++ sep :: join sep (q :: ps)).
    rewrite IH. done.
Qed.

Lemma join_split sep s : join sep (split sep s) = s.
Proof.
  induction s as [|c s IH]; [done|]. cbn [split].
  destruct (c =? sep) eqn:Hc.
  - apply N.eqb_eq in Hc as ->.
    destruct (split sep s) as [|seg segs] eqn:Hs; [by destruct (split_nonempty sep s)|].
    change (join sep ([] :: seg :: segs)) with ([] ++ sep :: join sep (seg :: segs)).
    by rewrite IH.
  - destruct (split sep s) as [|seg segs] eqn:Hs; [by destruct (split_nonempty sep s)|].
    rewrite join_more. rewrite join_more in IH. cbn [app]. by rewrite IH.
Qed.

Lemma nextFolder_split folderPath :
  startsWith folderPath (js "/") = false ->
  fold_left nextFolder (split (cu "/") folderPath) [] = folderPath.
Proof.
  intros Hno. rewrite <- (join_split (cu "/") folderPath) at 2.
  destruct folderPath as [|c s]; [done|].
  assert ((c =? cu "/") = false) as Hc.
  { destruct (N.eqb_spec c (cu "/")) as [->|]; [by destruct s | done]. }
  cbn [split]. rewrite Hc.
  destruct (split (cu "/") s) as [|seg segs] eqn:Hs; [by destruct (split_nonempty (cu "/") s)|].
  cbn [fold_left nextFolder]. by rewrite nextFolder_more, join_more.
Qed.

Lemma createFolder_loop {World : Type} `{LawfulVault World} parts : forall acc (st st' : @NoteCopier.St World) r,
  parts <> [] ->
  for_fold parts acc (fun currentPath part =>
    let currentPath := nextFolder currentPath part in
    existingFolder <- gets (fun st => vault_getAbstractFileByPath (fst st) currentPath) ;;
    match existingFolder with
    | None => NoteCopier.io (vault_createFolder currentPath) ;; ret currentPath
    | Some _ => ret currentPath
    end) st = (Ok r, st') ->
  r = fold_left nextFolder parts acc /\ is_Some (vault_getAbstractFileByPath (fst st') r).
Proof.
  induction parts as [|part parts IH]; intros acc st st' r Hne; [done|].
  cbn [for_fold fold_left]. unfold bind at 1. cbv zeta.
  match goal with |- context [bind (gets ?g) ?k st] =>
    assert (forall out st1, bind (gets g) k st = (Ok out, st1) ->
              out = nextFolder acc part
              /\ is_Some (vault_getAbstractFileByPath (fst st1) out)) as Hstep end.
  { intros out st1. unfold bind, gets.
    destruct (vault_getAbstractFileByPath (fst st) (nextFolder acc part)) as [found|] eqn:Hfound.
    - intros [= <- <-]. by rewrite Hfound.
    - unfold NoteCopier.io, ExcalidrawUtil.io, ExcalidrawUtil.on_app, zoom, lift, ret.
      destruct (vault_createFolder (nextFolder acc part) (fst st)) as [[[]|e] w'] eqn:Hmk;
        [|done].
      intros [= <- <-]. split; [done|]. cbn [fst]. by eapply createFolder_found. }
  match goal with |- context [bind (gets ?g) ?k st] =>
    destruct (bind (gets g) k st) as [[out| |] st1] eqn:Hrun end; try done.
  destruct (Hstep out st1 eq_refl) as [-> Hsome]. clear Hstep Hrun.
  destruct parts as [|p2 parts].
  - cbn [for_fold fold_left]. by intros [= <- <-].
  - by apply IH.
Qed.

Lemma createFolderRecursively_folder {World : Type} `{LawfulVault World} folderPath (st st' : @NoteCopier.St World) :
  startsWith folderPath (js "/") = false ->
  NoteCopier.createFolderRecursively folderPath st = (Ok tt, st') ->
  is_Some (vault_getAbstractFileByPath (fst st') folderPath).
Proof.
  intros Hno. unfold NoteCopier.createFolderRecursively. cbv zeta. unfold bind at 1.
  match goal with |- context [for_fold ?ps ?acc ?body st] =>
    destruct (for_fold ps acc body st) as [[r| |] st1] eqn:Hloop end; try done.
  unfold ret. intros [= <-].
  apply (createFolder_loop _ _ _ _ _ (split_nonempty _ _)) in Hloop as [-> Hsome].
  by rewrite nextFolder_split in Hsome.
Qed.

Lemma substring_to_last_start s c :
  startsWith s [c] = false -> startsWith (substring_to_last s c) [c] = false.
Proof.
  unfold substring_to_last. destruct (lastIndexOf s c) as [i|]; [|done].
  destruct s as [|d s]; [by destruct i|]. destruct i as [|i]; [done|].
  cbn [firstn startsWith]. intros Hno. apply andb_false_iff in Hno as [Hno|Hno].
  - by rewrite Hno.
  - by destruct s.
Qed.

(** The in-memory vault keeps what is written. *)
Lemma MemHost_lookup_fileOf p : path (MemHost.fileOf p) = p.
Proof. done. Qed.

Lemma MemHost_find_modified (fs : list (TFile * jsstring)) p c :
  is_Some (List.find (fun e => bool_decide (path (fst e) = p)) fs) ->
  exists f, List.find (fun e => bool_decide (path (fst e) = p))
              (List.map (fun e => if bool_decide (path (fst e) = p) then (fst e, c) else e) fs)
            = Some (f, c).
Proof.
  induction fs as [|[f0 c0] fs IH]; cbn [List.find List.map fst]; [by intros []|].
  destruct (bool_decide (path f0 = p)) eqn:Hp.
  - intros _. exists f0. cbn [List.find fst]. by rewrite Hp.
  - intros Hsome. cbn [List.find fst]. rewrite Hp. by apply IH.
Qed.

Lemma MemHost_find_app {A} (q : A -> bool) (xs ys : list A) :
  List.find q xs = None -> List.find q (xs ++ ys) = List.find q ys.
Proof.
  induction xs as [|x xs IH]; [done|]. cbn [List.find app].
  destruct (q x); [done | exact IH].
Qed.

#[global] Instance MemHost_lawful : LawfulVault MemHost.world.
Proof.
  split.
  - intros f w. cbn. unfold MemHost.read. by destruct (MemHost.lookupFile w (path f)) as [[]|].
  - intros p c w f w'. cbn. unfold MemHost.create, MemHost.getAbstractFileByPath.
    destruct (MemHost.lookupFile w p) as [[f0 c0]|] eqn:Hlook; [done|].
    destruct (bool_decide (p ∈ MemHost.folders w)); [done|].
    destruct (bool_decide (p ∈ List.map fst (MemHost.binaries w))); [done|].
    intros [= <- <-]. split; [done|].
    unfold MemHost.read, MemHost.lookupFile. cbn [MemHost.files].
    rewrite MemHost_find_app by exact Hlook. cbn [List.find fst].
    rewrite MemHost_lookup_fileOf. by rewrite bool_decide_eq_true_2.
  - intros f c w w'. cbn. unfold MemHost.modifyFile.
    destruct (MemHost.lookupFile w (path f)) as [[f0 c0]|] eqn:Hlook; [|done].
    intros [= <-]. unfold MemHost.read, MemHost.lookupFile. cbn [MemHost.files].
    destruct (MemHost_find_modified (MemHost.files w) (path f) c) as [f1 ->]; [|done].
    unfold MemHost.lookupFile in Hlook. by rewrite Hlook.
  - intros w p f. cbn. unfold MemHost.getAbstractFileByPath.
    destruct (MemHost.lookupFile w p) as [[f0 c0]|] eqn:Hlook.
    + intros [= <-]. apply List.find_some in Hlook as [_ Hp].
      by apply bool_decide_eq_true in Hp.
    + destruct (bool_decide (p ∈ MemHost.folders w)); [done|].
      destruct (bool_decide (p ∈ List.map fst (MemHost.binaries w))); [|done].
      by intros [= <-].
  - intros p w w'. cbn. unfold MemHost.createFolder.
    destruct (MemHost.getAbstractFileByPath w p) eqn:Hfound; [done|].
    intros [= <-]. unfold MemHost.getAbstractFileByPath in *. unfold MemHost.lookupFile in *.
    cbn [MemHost.files MemHost.folders].
    destruct (List.find _ (MemHost.files w)) as [[f0 c0]|]; [done|].
    rewrite bool_decide_eq_true_2; [by eexists|]. apply elem_of_app. right. by left.
Qed.

(** X21. On a vault where a folder that was created is found afterwards,
    [ensureTargetFolderExists] that returns leaves something at the path of
    the parent folder of the target, the text of the target path before its
    last slash, for a target path that does not start with a slash; a target
    path without a slash has no parent folder and nothing is done. *)
Theorem ensureTargetFolderExists_makes_parent {World : Type} `{LawfulVault World}
    (targetPath : jsstring) (st st' : @NoteCopier.St World) :
  startsWith targetPath (js "/") = false ->
  NoteCopier.ensureTargetFolderExists targetPath st = (Ok tt, st') ->
  match substring_to_last targetPath (cu "/") with
  | [] => st' = st
  | folderPath => is_Some (vault_getAbstractFileByPath (fst st') folderPath)
  end.
Proof.
  intros Hno%(substring_to_last_start targetPath (cu "/")).
  unfold NoteCopier.ensureTargetFolderExists. cbv zeta.
  destruct (substring_to_last targetPath (cu "/")) as [|c folder] eqn:Hfolder.
  { by intros [= <-]. }
  unfold bind, gets.
  destruct (vault_getAbstractFileByPath (fst st) (c :: folder)) as [found|] eqn:Hfound.
  - intros [= <-]. by rewrite Hfound.
  - by apply createFolderRecursively_folder.
Qed.

Lemma ensureTargetFolderExists_makes_parent_witness :
  is_Some (vault_getAbstractFileByPath
             (fst (snd (NoteCopier.ensureTargetFolderExists (js "pub/notes/a.md")
                          (vaultPair, ExcalidrawUtil.mkFields [] []))))
             (js "pub/notes")).
Proof.
  apply (ensureTargetFolderExists_makes_parent (js "pub/notes/a.md")
           (vaultPair, ExcalidrawUtil.mkFields [] [])); reflexivity.
Defined.

Lemma processNoteContent_plain {World : Type} `{Host World} content currentFile
    (st : @ExcalidrawUtil.St World) :
  includes content (js "[[") = false ->
  ExcalidrawUtil.processNoteContent content currentFile st = (Ok content, st).
Proof.
  intros Hno. unfold ExcalidrawUtil.processNoteContent.
  rewrite matchAll_nil; [done|].
  intros i m Hat%util_wikilink_match. apply includes_spec in Hat. congruence.
Qed.

Lemma processExcalidrawContent_plain {World : Type} `{Host World} settings targetFile content
    (st : @NoteCopier.St World) :
  vault_read targetFile (fst st) = (Return content, fst st) ->
  includes content (js "[[") = false ->
  NoteCopier.processExcalidrawContent settings targetFile st
  = (Ok tt, (fst st, ExcalidrawUtil.mkFields (ExcalidrawUtil.createdImages (snd st))
                       (NSPublishSettings.targetFolderPath settings))).
Proof.
  intros Hread Hno. unfold NoteCopier.processExcalidrawContent, try_catch.
  unfold bind at 1. unfold ExcalidrawUtil.setTargetFolderPath, modify.
  unfold bind at 1. unfold NoteCopier.io, ExcalidrawUtil.io, ExcalidrawUtil.on_app, zoom, lift.
  cbn [fst snd]. rewrite Hread.
  unfold bind. rewrite processNoteContent_plain by done.
  by rewrite bool_decide_eq_true_2.
Qed.

(** X22. On a vault that keeps what is written, a copy that succeeds puts
    the text of the note at its target path: after [copyFileToTarget]
    returns for a note without an opening pair of brackets, the vault reads
    the content of the source from a file whose path is [getTargetPath] of
    the note, whether that file was there before and is overwritten or is
    created. *)
Theorem copy_is_read_back {World : Type} `{LawfulVault World}
    (settings : NSPublishSettings.t) (file : TFile) (content : jsstring)
    (st st' : @NoteCopier.St World) :
  fst (vault_read file (fst st)) = Return content ->
  includes content (js "[[") = false ->
  NoteCopier.copyFileToTarget settings file st = (Ok tt, st') ->
  exists targetFile,
    path targetFile = NoteCopier.getTargetPath settings file
    /\ vault_read targetFile (fst st') = (Return content, fst st').
Proof.
  intros Hread Hno. unfold NoteCopier.copyFileToTarget, try_catch.
  unfold bind at 1. unfold NoteCopier.io at 1, ExcalidrawUtil.io, ExcalidrawUtil.on_app, zoom, lift.
  pose proof (read_keeps file (fst st)) as Hkeep.
  destruct (vault_read file (fst st)) as [res w1]. cbn [fst snd] in Hread, Hkeep. subst res w1.
  unfold bind at 1.
  destruct (NoteCopier.ensureTargetFolderExists _ _) as [[[]|e|] st1]; try done.
  unfold bind at 1. unfold gets.
  assert (forall (targetFile : TFile) (st2 : @NoteCopier.St World),
            path targetFile = NoteCopier.getTargetPath settings file ->
            vault_read targetFile (fst st2) = (Return content, fst st2) ->
            NoteCopier.processExcalidrawContent settings targetFile st2 = (Ok tt, st') ->
            exists targetFile,
              path targetFile = NoteCopier.getTargetPath settings file
              /\ vault_read targetFile (fst st') = (Return content, fst st')) as Hlast.
  { intros targetFile st2 Hpath Hback Hproc. exists targetFile. split; [done|].
    rewrite (processExcalidrawContent_plain settings targetFile content st2 Hback Hno) in Hproc.
    injection Hproc as <-. done. }
  destruct (vault_getAbstractFileByPath (fst st1) (NoteCopier.getTargetPath settings file))
    as [[existingFile|folder]|] eqn:Hfound.
  - unfold bind at 1. unfold bind at 1.
    unfold NoteCopier.io at 1, ExcalidrawUtil.io, ExcalidrawUtil.on_app, zoom, lift.
    destruct (vault_modify existingFile content (fst st1)) as [[[]|e] w2] eqn:Hmod;
      [|done].
    unfold ret.
    destruct (NoteCopier.processExcalidrawContent settings existingFile _)
      as [[[]|e|] st3] eqn:Hproc; try done.
    intros [= <-]. apply (Hlast existingFile _ (found_path _ _ _ Hfound)) in Hproc; [done|].
    cbn [fst]. by apply modify_read in Hmod.
  - unfold bind at 1.
    unfold NoteCopier.io at 1, ExcalidrawUtil.io, ExcalidrawUtil.on_app, zoom, lift.
    destruct (vault_create _ content (fst st1)) as [[f|e] w2] eqn:Hmk; [|done].
    apply create_read in Hmk as [Hpath Hback].
    destruct (NoteCopier.processExcalidrawContent settings f _)
      as [[[]|e|] st3] eqn:Hproc; try done.
    intros [= <-]. by apply (Hlast f _ Hpath) in Hproc.
  - unfold bind at 1.
    unfold NoteCopier.io at 1, ExcalidrawUtil.io, ExcalidrawUtil.on_app, zoom, lift.
    destruct (vault_create _ content (fst st1)) as [[f|e] w2] eqn:Hmk; [|done].
    apply create_read in Hmk as [Hpath Hback].
    destruct (NoteCopier.processExcalidrawContent settings f _)
      as [[[]|e|] st3] eqn:Hproc; try done.
    intros [= <-]. by apply (Hlast f _ Hpath) in Hproc.
Qed.

Lemma copy_is_read_back_witness :
  exists targetFile,
    path targetFile = NoteCopier.getTargetPath settings0 (MemHost.fileOf (js "a.md"))
    /\ vault_read targetFile
         (fst (snd (NoteCopier.copyFileToTarget settings0 (MemHost.fileOf (js "a.md"))
                      (vaultPair, ExcalidrawUtil.mkFields [] []))))
       = (Return (js "leaf"),
          fst (snd (NoteCopier.copyFileToTarget settings0 (MemHost.fileOf (js "a.md"))
                      (vaultPair, ExcalidrawUtil.mkFields [] [])))).
Proof.
  apply (copy_is_read_back settings0 (MemHost.fileOf (js "a.md")) (js "leaf")
           (vaultPair, ExcalidrawUtil.mkFields [] [])); reflexivity.
Defined.

(** ** The units of a public URL *)

Lemma hexDigit_unreserved n : n < 16 -> URI.unreserved (URI.hexDigit n) = true.
Proof.
  intros Hn. unfold URI.unreserved, URI.hexDigit.
  destruct (N.ltb_spec n 10).
  - replace ((48 <=? 48 + n) && (48 + n <=? 57)) with true; [by rewrite !orb_true_r|].
    symmetry. apply andb_true_iff. split; apply N.leb_le; lia.
  - replace ((65 <=? 55 + n) && (55 + n <=? 90)) with true; [done|].
    symmetry. apply andb_true_iff. split; apply N.leb_le; lia.
Qed.

Lemma escape_units octet : octet < 256 -> Forall (fun c => urlUnit c = true) (URI.escape octet).
Proof.
  intros Hlt. unfold URI.escape.
  apply Forall_cons. split; [reflexivity|].
  apply Forall_cons. split; [|apply Forall_cons; split; [|constructor]].
  - unfold urlUnit. rewrite hexDigit_unreserved; [done|].
    apply N.Div0.div_lt_upper_bound. lia.
  - unfold urlUnit. rewrite hexDigit_unreserved; [done|]. by apply N.mod_lt.
Qed.

Lemma utf8_octets v : v < 1114112 -> Forall (fun o => o < 256) (URI.utf8 v).
Proof.
  intros Hv. unfold URI.utf8.
  assert (forall a b, b <> 0 -> a mod b < b) as Hmod by (intros; by apply N.mod_lt).
  destruct (N.ltb_spec v 128); [repeat constructor; lia|].
  destruct (N.ltb_spec v 2048).
  { assert (v / 64 < 32) by (apply N.Div0.div_lt_upper_bound; lia).
    pose proof (Hmod v 64). repeat constructor; lia. }
  destruct (N.ltb_spec v 65536).
  { assert (v / 4096 < 16) by (apply N.Div0.div_lt_upper_bound; lia).
    pose proof (Hmod v 64). pose proof (Hmod (v / 64) 64). repeat constructor; lia. }
  assert (v / 262144 < 5) by (apply N.Div0.div_lt_upper_bound; lia).
  pose proof (Hmod v 64). pose proof (Hmod (v / 64) 64). pose proof (Hmod (v / 4096) 64).
  repeat constructor; lia.
Qed.

Lemma escaped_units v :
  v < 1114112 ->
  Forall (fun c => urlUnit c = true) (List.concat (List.map URI.escape (URI.utf8 v))).
Proof.
  intros Hv%utf8_octets. induction Hv as [|o os Ho _ IH]; cbn [List.map List.concat].
  - constructor.
  - apply Forall_app. split; [by apply escape_units | exact IH].
Qed.

(** What [encodeURIComponent] returns holds only unreserved units and
    escapes; it throws only for a text that holds a surrogate. *)
Lemma encodeURIComponent_units n : forall s,
  (length s <= n)%nat ->
  Forall (fun c => c < 65536) s ->
  match URI.encodeURIComponent s with
  | Some e => Forall (fun c => urlUnit c = true) e
  | None => exists c, In c s /\ isSurrogate c = true
  end.
Proof.
  induction n as [|n IH]; intros s Hlen Hs.
  { destruct s; [constructor | cbn in Hlen; lia]. }
  destruct s as [|c t]; [constructor|]. cbn [length] in Hlen.
  apply Forall_cons in Hs as [Hc Ht]. cbn [URI.encodeURIComponent].
  destruct (URI.unreserved c) eqn:Hun.
  { specialize (IH t ltac:(lia) Ht). destruct (URI.encodeURIComponent t) as [e|]; cbn [option_map].
    - constructor; [|done]. unfold urlUnit. by rewrite Hun.
    - destruct IH as (x & Hin & Hx). exists x. split; [by right | done]. }
  destruct (URI.isTrail c) eqn:Htrail.
  { exists c. split; [by left|]. unfold isSurrogate. by rewrite Htrail, orb_true_r. }
  destruct (URI.isLead c) eqn:Hlead.
  - destruct t as [|d t']; [exists c; split; [by left | unfold isSurrogate; by rewrite Hlead]|].
    destruct (URI.isTrail d) eqn:Hd;
      [|exists c; split; [by left | unfold isSurrogate; by rewrite Hlead]].
    apply Forall_cons in Ht as [Hdlt Ht']. cbn [length] in Hlen.
    specialize (IH t' ltac:(lia) Ht').
    destruct (URI.encodeURIComponent t') as [e|]; cbn [option_map].
    + apply Forall_app. split; [|done]. apply escaped_units.
      unfold URI.isLead in Hlead. unfold URI.isTrail in Hd.
      apply andb_true_iff in Hlead as [Hl1%N.leb_le Hl2%N.leb_le].
      apply andb_true_iff in Hd as [Hd1%N.leb_le Hd2%N.leb_le]. lia.
    + destruct IH as (x & Hin & Hx). exists x. split; [right; by right | done].
  - specialize (IH t ltac:(lia) Ht).
    destruct (URI.encodeURIComponent t) as [e|]; cbn [option_map].
    + apply Forall_app. split; [|done]. apply escaped_units. lia.
    + destruct IH as (x & Hin & Hx). exists x. split; [by right | done].
Qed.

Lemma replaceRuns_units runf rep fuel : forall s c,
  In c (replaceRuns runf rep fuel s) -> In c rep \/ In c s.
Proof.
  induction fuel as [|fuel IH]; intros s c; cbn [replaceRuns]; [by right|].
  destruct (runf s) as [n|].
  - intros [Hin|Hin]%in_app_or; [by left|].
    apply IH in Hin as [Hin|Hin]; [by left|]. right.
    rewrite <- (firstn_skipn n s). apply in_or_app. by right.
  - destruct s as [|x t]; [done|]. intros [<-|Hin]; [right; by left|].
    apply IH in Hin as [Hin|Hin]; [by left | right; by right].
Qed.

Lemma friendlySegment_units seg c :
  In c (friendlySegment seg) -> In c seg \/ In c (js "--and--").
Proof.
  unfold friendlySegment. cbv zeta.
  intros [Hin|Hin]%replaceRuns_units.
  - right. destruct Hin as [<-|[]]. by left.
  - apply replaceRuns_units in Hin as [Hin|Hin]; [by right | by left].
Qed.

Lemma split_units sep : forall s seg c, In seg (split sep s) -> In c seg -> In c s.
Proof.
  induction s as [|x s IH]; intros seg c; cbn [split].
  - by intros [<-|[]].
  - destruct (x =? sep).
    + intros [<-|Hin]; [done|]. intros Hc. right. by eapply IH.
    + destruct (split sep s) as [|seg0 segs] eqn:Hs.
      * intros [<-|[]]. intros [<-|[]]. by left.
      * intros [<-|Hin].
        -- intros [<-|Hc]; [by left|]. right. apply (IH seg0); [by left | done].
        -- intros Hc. right. apply (IH seg); [by right | done].
Qed.

Lemma stripMd_units p c : In c (stripMd p) -> In c p.
Proof.
  unfold stripMd. destruct (endsWith p (js ".md")); [|done].
  intros Hin. rewrite <- (firstn_skipn (length p - 3) p). apply in_or_app. by left.
Qed.

Lemma join_units sep : forall segs c,
  In c (join sep segs) -> c = sep \/ exists seg, In seg segs /\ In c seg.
Proof.
  induction segs as [|seg segs IH]; intros c; [done|].
  destruct segs as [|seg2 segs].
  - cbn [join]. intros Hin. right. exists seg. split; [by left | done].
  - change (join sep (seg :: seg2 :: segs)) with (seg ++ sep :: join sep (seg2 :: segs)).
    intros [Hin|[<-|Hin]]%in_app_or.
    + right. exists seg. split; [by left | done].
    + by left.
    + apply IH in Hin as [->|(s & Hs & Hc)]; [by left|].
      right. exists s. split; [by right | done].
Qed.

Lemma mapJoin_cases f : forall segments,
  match NoteCopier.mapJoin f segments with
  | Some encoded => Forall2 (fun seg e => f seg = Some e) segments encoded
  | None => exists seg, In seg segments /\ f seg = None
  end.
Proof.
  induction segments as [|seg segs IH]; cbn [NoteCopier.mapJoin]; [constructor|].
  destruct (f seg) as [e|] eqn:Hf; [|exists seg; split; [by left | done]].
  destruct (NoteCopier.mapJoin f segs) as [es|]; cbn [option_map].
  - by constructor.
  - destruct IH as (s & Hin & Hs). exists s. split; [by right | done].
Qed.

Lemma generatePublishedUrl_publicUrl (settings : NSPublishSettings.t) (file : TFile) :
  NoteCopier.generatePublishedUrl settings file
  = publicUrl (NSPublishSettings.baseUrl settings) (path file).
Proof.
  unfold NoteCopier.generatePublishedUrl, publicUrl.
  destruct (NSPublishSettings.baseUrl settings) as [|c base]; [done|].
  rewrite replaceFirst_md. rewrite split_join.
  - rewrite mapJoin_map.
    rewrite (mapJoin_ext _ (fun seg => URI.encodeURIComponent (friendlySegment seg)))
      by (intros seg; by rewrite urlFriendlySegment_scan).
    destruct (NoteCopier.mapJoin _ _); [|done].
    unfold JS.concat. cbn [List.concat]. by rewrite app_nil_r.
  - destruct (split (cu "/") (stripMd (path file))) eqn:Hs;
      [by apply split_nonempty in Hs | done].
  - intros seg Hin. apply in_map_iff in Hin as [seg0 [<- Hin0]].
    apply urlFriendlySegment_no_slash. by eapply split_no_sep.
Qed.

(** X23. The public URL is safe to paste: for a path made of code units,
    [generatePublishedUrl] answers nothing only when no base URL is set;
    a URL that it returns is the base URL, a slash and a path that holds
    only the units [encodeURIComponent] keeps, percent signs and slashes,
    so no white space and no ampersand; and it throws only [URI malformed],
    and only for a path that holds a surrogate. *)
Theorem generatePublishedUrl_is_escaped (settings : NSPublishSettings.t) (file : TFile) :
  Forall (fun c => c < 65536) (path file) ->
  match NoteCopier.generatePublishedUrl settings file with
  | Ok (Some url) =>
      exists encodedPath,
        url = NSPublishSettings.baseUrl settings ++ js "/" ++ encodedPath
        /\ Forall (fun c => urlUnit c = true) encodedPath
  | Ok None => NSPublishSettings.baseUrl settings = []
  | Throw message =>
      message = js "URI malformed" /\ exists c, In c (path file) /\ isSurrogate c = true
  | Starved => False
  end.
Proof.
  intros Hunits. rewrite generatePublishedUrl_publicUrl. unfold publicUrl.
  destruct (NSPublishSettings.baseUrl settings) as [|b base]; [done|]. cbv zeta.
  assert (forall seg, In seg (split (cu "/") (stripMd (path file))) ->
            Forall (fun c => c < 65536) (friendlySegment seg)
            /\ forall c, In c (friendlySegment seg) -> isSurrogate c = true -> In c (path file))
    as Hseg.
  { intros seg Hin. split.
    - apply List.Forall_forall. intros c [Hc|Hc]%friendlySegment_units.
      + apply (proj1 (List.Forall_forall _ _) Hunits).
        apply stripMd_units. by eapply split_units.
      + revert Hc. vm_compute. intros H; repeat (destruct H as [<-|H]; [done|]); done.
    - intros c [Hc|Hc]%friendlySegment_units Hsur.
      + apply stripMd_units. by eapply split_units.
      + revert Hsur. revert Hc. vm_compute.
        intros H; repeat (destruct H as [<-|H]; [done|]); done. }
  pose proof (mapJoin_cases (fun seg => URI.encodeURIComponent (friendlySegment seg))
                (split (cu "/") (stripMd (path file)))) as Hmap.
  destruct (NoteCopier.mapJoin _ _) as [encoded|].
  - eexists. split; [done|]. apply List.Forall_forall.
    intros c [->|(e & He & Hc)]%join_units.
    + done.
    + revert Hseg Hmap. generalize (split (cu "/") (stripMd (path file))) as segs0.
      intros segs0 Hseg Hmap.
      induction Hmap as [|seg e0 segs es Hf _ IH]; [done|].
      destruct He as [<-|He].
      * destruct (Hseg seg (or_introl eq_refl)) as [Hlt _].
        pose proof (encodeURIComponent_units _ _ (le_n _) Hlt) as Henc.
        rewrite Hf in Henc. by apply (proj1 (List.Forall_forall _ _) Henc).
      * apply IH; [done|]. intros s Hs. apply Hseg. by right.
  - split; [done|]. destruct Hmap as (seg & Hin & Hnone).
    destruct (Hseg seg Hin) as [Hlt Hback].
    pose proof (encodeURIComponent_units _ _ (le_n _) Hlt) as Henc.
    rewrite Hnone in Henc. destruct Henc as (c & Hc & Hsur). exists c. split; [|done].
    by apply Hback.
Qed.

Lemma generatePublishedUrl_is_escaped_witness :
  exists encodedPath,
    js "http://x/A--and--B/note-name" = js "http://x" ++ js "/" ++ encodedPath
    /\ Forall (fun c => urlUnit c = true) encodedPath.
Proof.
  apply (generatePublishedUrl_is_escaped
           (NSPublishSettings.mk (js "pub") true 5%Z [] true false [] (js "http://x"))
           (MemHost.fileOf (js "A & B/note name.md"))).
  vm_compute. repeat constructor.
Defined.
